(** * Break-room report: a shallow embedding of [backend/src/server.js]

    The development follows the [/api/break-report] handler of the backend:
    the utility helpers ([normalizeDirection], [msToHMM]), the filter and
    normalisation chain over the vendor's raw access events, the grouping
    by user, the pairing loop, the inclusion rule and the final ordering.

    Conventions of the embedding.
    - A JavaScript number is a [number]: an integer, [NaN] or a signed
      infinity.  The timestamps, durations and totals the handler
      computes with are integer counts of milliseconds; magnitudes
      above 2^53, where double arithmetic stops being exact, are outside
      the model.  The threshold alone can be any double
      ([min_minutes=0.5]): the inclusion test is given twice, for a
      whole number of minutes ([included], [results]) and for a
      binary64 threshold ([includedAt], [resultsAt]); the handler
      [breakReport] carries the whole-number form.
    - An optional JSON field is an [option string]; [None] stands for a
      missing ([undefined] or [null]) field.
    - [String.prototype.toLowerCase] and [toUpperCase] are modelled on
      ASCII letters.
    - The luxon library is not part of the repository: its ISO parser
      and its formatter are parameters of the development; a luxon
      [DateTime] is either valid (epoch milliseconds and a zone) or
      invalid.
    - [Array.prototype.sort] is stable; it is modelled by a stable
      insertion sort.  For a comparator that is consistent on the array
      every stable sort returns the same array.  When the comparator
      answers NaN for some pairs only it need not be consistent, and the
      language leaves the order to the engine; the model then gives the
      order of the insertion sort. *)

From Stdlib Require Import ZArith Bool Ascii String List Lia.
From Stdlib Require Import Permutation Sorted DecimalString.
From Stdlib Require DecimalPos DecimalZ.
From Stdlib Require Import Floats.
Import ListNotations.
Local Open Scope string_scope.
Local Open Scope list_scope.
Local Open Scope Z_scope.

(* ------------------------------------------------------------------ *)
(** ** JavaScript values used by the handler *)
(* ------------------------------------------------------------------ *)

Module JS.

(** Numbers: integers, NaN, and the two infinities ([Inf true] is
    [+Infinity]). *)
Inductive number : Type :=
| Num (z : Z)
| NaN
| Inf (positive : bool).

Definition isFinite (n : number) : bool :=
  match n with Num _ => true | _ => false end.

Definition neg (a : number) : number :=
  match a with
  | Num z => Num (- z)
  | NaN => NaN
  | Inf p => Inf (negb p)
  end.

Definition add (a b : number) : number :=
  match a, b with
  | NaN, _ | _, NaN => NaN
  | Num x, Num y => Num (x + y)
  | Inf p, Num _ | Num _, Inf p => Inf p
  | Inf p, Inf q => if Bool.eqb p q then Inf p else NaN
  end.

Definition sub (a b : number) : number := add a (neg b).

(** [a * k] for a positive integer literal [k]. *)
Definition mul_lit (a : number) (k : Z) : number :=
  match a with
  | Num z => Num (z * k)
  | other => other
  end.

(** [a > b], [a >= b], [a !== b]: every comparison with NaN is false,
    and NaN differs from everything, itself included. *)
Definition gt (a b : number) : bool :=
  match a, b with
  | NaN, _ | _, NaN => false
  | Num x, Num y => y <? x
  | Inf p, Num _ => p
  | Num _, Inf q => negb q
  | Inf p, Inf q => p && negb q
  end.

Definition strict_eq (a b : number) : bool :=
  match a, b with
  | Num x, Num y => x =? y
  | Inf p, Inf q => Bool.eqb p q
  | _, _ => false
  end.

Definition ge (a b : number) : bool := gt a b || strict_eq a b.

(** The binary64 value of a number, for a comparison with a double that
    need not be a whole number: an integer goes to the nearest double
    (itself, up to 2^53). *)
Definition toDouble (a : number) : float :=
  match a with
  | Num z => SF2Prim (binary_normalize prec emax z 0 false)
  | NaN => nan
  | Inf true => infinity
  | Inf false => neg_infinity
  end.

(** [a >= b] for a double [b]. *)
Definition ge_double (a : number) (b : float) : bool :=
  match a with
  | NaN => false
  | other => (b <=? toDouble other)%float
  end.

(** [Math.max(a, b)]. *)
Definition Math_max (a b : number) : number :=
  match a, b with
  | NaN, _ | _, NaN => NaN
  | _, _ => if gt b a then b else a
  end.

(** [Math.round(a / d)] for a positive integer [d]: the nearest integer,
    a tie going up. *)
Definition Math_round_div (a : number) (d : Z) : number :=
  match a with
  | Num z => Num ((2 * z + d) / (2 * d))
  | other => other
  end.

(** [Math.floor(a / d)] for a positive integer [d]. *)
Definition Math_floor_div (a : number) (d : Z) : number :=
  match a with
  | Num z => Num (z / d)
  | other => other
  end.

(** [a % d] for a positive integer [d]: the remainder has the sign of
    the dividend; an infinite dividend gives NaN. *)
Definition rem (a : number) (d : Z) : number :=
  match a with
  | Num z => Num (Z.rem z d)
  | _ => NaN
  end.

(** Number to string, as a template literal does it. *)
Definition Z_to_string (z : Z) : string := NilZero.string_of_int (Z.to_int z).

Definition to_string (a : number) : string :=
  match a with
  | Num z => Z_to_string z
  | NaN => "NaN"
  | Inf true => "Infinity"
  | Inf false => "-Infinity"
  end.

(** Truthiness of an optional string, [a || b] and [a || 'literal']. *)
Definition truthy (v : option string) : bool :=
  match v with
  | Some s => negb (String.eqb s "")
  | None => false
  end.

Definition or_else (a b : option string) : option string :=
  if truthy a then a else b.

Definition or_null (a : option string) : option string :=
  if truthy a then a else None.

Definition or_lit (a : option string) (d : string) : string :=
  match a with
  | Some s => if String.eqb s "" then d else s
  | None => d
  end.

(** The same for a value that is already a string. *)
Definition str_or (a d : string) : string :=
  if String.eqb a "" then d else a.

(** [a === b] between an optional string and a string. *)
Definition opt_eq (a : option string) (b : string) : bool :=
  match a with
  | Some s => String.eqb s b
  | None => false
  end.

(** ASCII case mapping. *)
Definition lower_ascii (c : ascii) : ascii :=
  let n := nat_of_ascii c in
  if (65 <=? n)%nat && (n <=? 90)%nat then ascii_of_nat (n + 32) else c.

Definition upper_ascii (c : ascii) : ascii :=
  let n := nat_of_ascii c in
  if (97 <=? n)%nat && (n <=? 122)%nat then ascii_of_nat (n - 32) else c.

Fixpoint toLowerCase (s : string) : string :=
  match s with
  | EmptyString => EmptyString
  | String c r => String (lower_ascii c) (toLowerCase r)
  end.

(** [s.charAt(0).toUpperCase() + s.slice(1)]. *)
Definition capitalize (s : string) : string :=
  match s with
  | EmptyString => EmptyString
  | String c r => String (upper_ascii c) r
  end.

Definition startsWith (s p : string) : bool := String.prefix p s.

(** [s.replace(pat, rep)] with a string pattern: the first occurrence
    only. *)
Fixpoint replace_first (pat rep s : string) : string :=
  if String.prefix pat s
  then (rep ++ String.substring (String.length pat)
                                (String.length s - String.length pat)%nat s)%string
  else match s with
       | EmptyString => EmptyString
       | String c r => String c (replace_first pat rep r)
       end.

(** [s.replace(/_/g, ' ')]. *)
Fixpoint underscores_to_spaces (s : string) : string :=
  match s with
  | EmptyString => EmptyString
  | String c r =>
      String (if Ascii.eqb c "_"%char then " "%char else c)
             (underscores_to_spaces r)
  end.

(** *** [Array.prototype.sort]

    [SortCompare] turns a NaN returned by the comparator into [+0], so
    only [cmp x y > 0] moves [x] behind [y]. *)
Section Sort.
Context {A : Type}.
Variable cmp : A -> A -> number.

Definition after (x y : A) : bool := gt (cmp x y) (Num 0).

(** [x] may stay before [y]. *)
Definition precedes (x y : A) : Prop := after x y = false.

Fixpoint insert (x : A) (l : list A) : list A :=
  match l with
  | [] => [x]
  | y :: l' => if after x y then y :: insert x l' else x :: l
  end.

Fixpoint sort (l : list A) : list A :=
  match l with
  | [] => []
  | x :: l' => insert x (sort l')
  end.
End Sort.

End JS.

(* ------------------------------------------------------------------ *)
(** ** Utility helpers *)
(* ------------------------------------------------------------------ *)

(** [normalizeDirection]: the normalised direction and its label. *)
Definition normalizeDirection (raw : option string) : string * string :=
  match raw with
  | None => ("unknown", "Unknown")
  | Some s =>
      if String.eqb s "" then ("unknown", "Unknown")
      else
        let r := JS.toLowerCase s in
        if existsb (String.eqb r) ["in"; "entry"; "entrance"]
        then ("in", "Inbound")
        else if existsb (String.eqb r) ["out"; "exit"; "egress"]
        then ("out", "Outbound")
        else (r, JS.capitalize r)
  end.

(** [msToHMM]. *)
Definition msToHMM (ms : JS.number) : string :=
  let totalMinutes := JS.Math_round_div ms 60000 in
  let h := JS.Math_floor_div totalMinutes 60 in
  let m := JS.rem totalMinutes 60 in
  if JS.gt h (JS.Num 0)
  then (JS.to_string h ++ "h " ++ JS.to_string m ++ "m")%string
  else (JS.to_string m ++ "m")%string.

(* ------------------------------------------------------------------ *)
(** ** Data model *)
(* ------------------------------------------------------------------ *)

(** A luxon [DateTime]. *)
Inductive DateTime : Type :=
| Valid (ms : Z) (zone : string)
| Invalid.

Definition toMillis (dt : DateTime) : JS.number :=
  match dt with
  | Valid ms _ => JS.Num ms
  | Invalid => JS.NaN
  end.

(** The vendor's raw access event; [event_info] and its nested blocks
    may be missing. *)
Module Raw.
Record UserInfo : Type := mkUserInfo {
  ui_userId : option string;
  ui_name : option string }.

Record DoorInfo : Type := mkDoorInfo {
  di_name : option string }.

Record Info : Type := mkInfo {
  doorId : option string;
  direction : option string;
  message : option string;
  userId : option string;
  userName : option string;
  siteName : option string;
  userInfo : option UserInfo;
  doorInfo : option DoorInfo }.

Record Event : Type := mkEvent {
  event_id : option string;
  event_type : option string;
  device_id : option string;
  timestamp : option string;
  event_info : option Info }.

(** [e.event_info || {}]. *)
Definition info (e : Event) : Info :=
  match event_info e with
  | Some i => i
  | None => mkInfo None None None None None None None None
  end.
End Raw.

(** A door of the vendor's door list. *)
Module Door.
Record t : Type := mk {
  door_id : option string;
  name : option string;
  site_name : option string;      (* door.site?.name *)
  timezone : option string }.
End Door.

(** The normalised event built by the [map] step. *)
Module Ev.
Record t : Type := mk {
  event_id : option string;
  event_type : string;
  violationMessage : option string;
  timestampISO : option string;
  ts : DateTime;
  userId : string;
  userName : string;
  siteName : string;
  direction : string;
  directionLabel : string;
  doorName : string }.
End Ev.

Module Violation.
Record t : Type := mk {
  date : string;
  time : string;
  message : string;
  event_type : string }.
End Violation.

Module Stamp.
Record t : Type := mk {
  date : string;
  time : string;
  atLocation : string }.
End Stamp.

Module Pair.
Record t : Type := mk {
  userId : string;
  userName : string;
  siteName : string;
  area : string;
  in_ : Stamp.t;
  out : Stamp.t;
  totalMs : JS.number;
  totalLabel : string }.
End Pair.

Module Report.
Record t : Type := mk {
  userId : string;
  userName : string;
  siteName : string;
  totalMs : JS.number;
  totalLabel : string;
  pairs : list Pair.t;
  violations : list Violation.t }.
End Report.

(* ------------------------------------------------------------------ *)
(** ** The break-report computation *)
(* ------------------------------------------------------------------ *)

Section BreakReport.

(** luxon's ISO parser: the epoch milliseconds of a timestamp, or [None]
    when the text does not parse. *)
Variable parseISO : string -> option Z.

(** luxon's formatter: zone, pattern and epoch milliseconds. *)
Variable formatIn : string -> string -> Z -> string.

(** [DateTime.fromISO(text, { zone: 'utc' }).setZone(tz)] for a valid
    zone [tz]; a missing or unparsable text gives an invalid DateTime and
    nothing is thrown. *)
Definition fromISO (text : option string) (tz : string) : DateTime :=
  match text with
  | None => Invalid
  | Some s =>
      match parseISO s with
      | Some ms => Valid ms tz
      | None => Invalid
      end
  end.

Definition toFormat (dt : DateTime) (pattern : string) : string :=
  match dt with
  | Valid ms zone => formatIn zone pattern ms
  | Invalid => "Invalid DateTime"
  end.

(** *** Step 3: filter to the door, normalise, keep, sort *)

(** The first [filter]:
    [(info.doorId || e.device_id || null) === door_id]. *)
Definition eventDoorId (e : Raw.Event) : option string :=
  JS.or_null (JS.or_else (Raw.doorId (Raw.info e)) (Raw.device_id e)).

Definition doorMatches (door_id : string) (e : Raw.Event) : bool :=
  JS.opt_eq (eventDoorId e) door_id.

(** The [map]. *)
Definition normalize (tz : string) (door : Door.t) (e : Raw.Event) : Ev.t :=
  let info := Raw.info e in
  let nl := normalizeDirection (Raw.direction info) in
  {| Ev.event_id := Raw.event_id e;
     Ev.event_type := JS.or_lit (Raw.event_type e) "";
     Ev.violationMessage := JS.or_null (Raw.message info);
     Ev.timestampISO := Raw.timestamp e;
     Ev.ts := fromISO (Raw.timestamp e) tz;
     Ev.userId :=
       JS.or_lit (JS.or_else (Raw.userId info)
                    (match Raw.userInfo info with
                     | Some u => Raw.ui_userId u
                     | None => None
                     end))
                 "unknown";
     Ev.userName :=
       JS.or_lit (JS.or_else (Raw.userName info)
                    (match Raw.userInfo info with
                     | Some u => Raw.ui_name u
                     | None => None
                     end))
                 "Unknown User";
     Ev.siteName :=
       JS.or_lit (JS.or_else (Raw.siteName info) (Door.site_name door))
                 "Unknown Site";
     Ev.direction := fst nl;
     Ev.directionLabel := snd nl;
     Ev.doorName :=
       JS.or_lit (JS.or_else
                    (match Raw.doorInfo info with
                     | Some d => Raw.di_name d
                     | None => None
                     end)
                    (Door.name door))
                 "Door" |}.

Definition isAPB (ev : Ev.t) : bool :=
  JS.startsWith (JS.str_or (Ev.event_type ev) "") "DOOR_APB_".

(** The second [filter]. *)
Definition keep (e : Ev.t) : bool :=
  String.eqb (Ev.direction e) "in"
  || String.eqb (Ev.direction e) "out"
  || isAPB e.

(** The two filters and the map, before the sort. *)
Definition filterStage (door_id tz : string) (door : Door.t)
    (rawEvents : list Raw.Event) : list Ev.t :=
  filter keep (map (normalize tz door) (filter (doorMatches door_id) rawEvents)).

(** The comparator of the event sort. *)
Definition byTime (a b : Ev.t) : JS.number :=
  JS.sub (toMillis (Ev.ts a)) (toMillis (Ev.ts b)).

Definition filtered (door_id tz : string) (door : Door.t)
    (rawEvents : list Raw.Event) : list Ev.t :=
  JS.sort byTime (filterStage door_id tz door rawEvents).

(** *** Step 4: group by user

    [byUser] is a [Map]: its entries are iterated in the order in which
    their keys were first set. *)
Fixpoint push (userId : string) (ev : Ev.t)
    (byUser : list (string * list Ev.t)) : list (string * list Ev.t) :=
  match byUser with
  | [] => [(userId, [ev])]
  | (k, evs) :: rest =>
      if String.eqb k userId then (k, evs ++ [ev]) :: rest
      else (k, evs) :: push userId ev rest
  end.

Definition groupByUser (events : list Ev.t) : list (string * list Ev.t) :=
  fold_left (fun byUser ev => push (Ev.userId ev) ev byUser) events [].

(** *** The pairing loop *)

Record PairState : Type := mkState {
  lastInbound : option Ev.t;
  pairs : list Pair.t;
  violations : list Violation.t }.

Definition initState : PairState := mkState None [] [].

Definition mkViolation (ev : Ev.t) : Violation.t :=
  {| Violation.date := toFormat (Ev.ts ev) "yyyy-LL-dd";
     Violation.time := toFormat (Ev.ts ev) "HH:mm:ss";
     Violation.message :=
       match Ev.violationMessage ev with
       | Some m => if String.eqb m "" then
                     JS.underscores_to_spaces
                       (JS.replace_first "DOOR_APB_" "" (Ev.event_type ev))
                   else m
       | None => JS.underscores_to_spaces
                   (JS.replace_first "DOOR_APB_" "" (Ev.event_type ev))
       end;
     Violation.event_type := Ev.event_type ev |}.

Definition durationMs (first second : Ev.t) : JS.number :=
  JS.Math_max (JS.Num 0)
              (JS.sub (toMillis (Ev.ts second)) (toMillis (Ev.ts first))).

Definition mkPair (userId : string) (first second : Ev.t) : Pair.t :=
  {| Pair.userId := userId;
     Pair.userName := JS.str_or (Ev.userName first) (Ev.userName second);
     Pair.siteName := JS.str_or (Ev.siteName first) (Ev.siteName second);
     Pair.area := "Break Room";
     Pair.in_ :=
       {| Stamp.date := toFormat (Ev.ts first) "yyyy-LL-dd";
          Stamp.time := toFormat (Ev.ts first) "HH:mm:ss";
          Stamp.atLocation :=
            (Ev.doorName first ++ " " ++ Ev.directionLabel first)%string |};
     Pair.out :=
       {| Stamp.date := toFormat (Ev.ts second) "yyyy-LL-dd";
          Stamp.time := toFormat (Ev.ts second) "HH:mm:ss";
          Stamp.atLocation :=
            (Ev.doorName second ++ " " ++ Ev.directionLabel second)%string |};
     Pair.totalMs := durationMs first second;
     Pair.totalLabel := msToHMM (durationMs first second) |}.

(** One iteration of [for (const ev of evs)]. *)
Definition step (userId : string) (st : PairState) (ev : Ev.t) : PairState :=
  let st1 :=
    if isAPB ev
    then mkState (lastInbound st) (pairs st) (violations st ++ [mkViolation ev])
    else st in
  if String.eqb (Ev.direction ev) "in"
  then mkState (Some ev) (pairs st1) (violations st1)
  else if String.eqb (Ev.direction ev) "out"
  then match lastInbound st1 with
       | Some first =>
           mkState None (pairs st1 ++ [mkPair userId first ev]) (violations st1)
       | None => st1
       end
  else st1.

Definition pairLoop (userId : string) (evs : list Ev.t) : PairState :=
  fold_left (step userId) evs initState.

(** *** Totals, inclusion rule and ordering *)

(** [pairs.reduce((sum, p) => sum + p.totalMs, 0)]. *)
Definition sumTotalMs (ps : list Pair.t) : JS.number :=
  fold_left (fun sum p => JS.add sum (Pair.totalMs p)) ps (JS.Num 0).

(** [minMinutes * 60 * 1000] for a whole number of minutes: the product
    is exact. *)
Definition thresholdMs (minMinutes : JS.number) : JS.number :=
  JS.mul_lit (JS.mul_lit minMinutes 60) 1000.

Definition included (minMinutes : JS.number) (totalMs : JS.number)
    (vs : list Violation.t) : bool :=
  JS.ge totalMs (thresholdMs minMinutes) || (0 <? length vs)%nat.

Definition mkReport (userId : string) (evs : list Ev.t) (st : PairState)
  : Report.t :=
  let totalMs := sumTotalMs (pairs st) in
  {| Report.userId := userId;
     Report.userName :=
       JS.str_or (match pairs st with p :: _ => Pair.userName p | [] => "" end)
         (JS.str_or (match evs with e :: _ => Ev.userName e | [] => "" end)
                    "Unknown User");
     Report.siteName :=
       JS.str_or (match pairs st with p :: _ => Pair.siteName p | [] => "" end)
         (JS.str_or (match evs with e :: _ => Ev.siteName e | [] => "" end)
                    "Unknown Site");
     Report.totalMs := totalMs;
     Report.totalLabel := msToHMM totalMs;
     Report.pairs := pairs st;
     Report.violations := violations st |}.

(** The body of [for (const [userId, evs] of byUser.entries())]: the
    report pushed for one entry, if any. *)
Definition userReport (minMinutes : JS.number) (entry : string * list Ev.t)
  : list Report.t :=
  let st := pairLoop (fst entry) (snd entry) in
  if included minMinutes (sumTotalMs (pairs st)) (violations st)
  then [mkReport (fst entry) (snd entry) st]
  else [].

Definition collect (minMinutes : JS.number)
    (byUser : list (string * list Ev.t)) : list Report.t :=
  flat_map (userReport minMinutes) byUser.

(** The comparator of [results.sort]. *)
Definition byTotal (a b : Report.t) : JS.number :=
  if negb (JS.strict_eq (Report.totalMs b) (Report.totalMs a))
  then JS.sub (Report.totalMs b) (Report.totalMs a)
  else JS.Num (Z.of_nat (length (Report.violations b))
               - Z.of_nat (length (Report.violations a))).

Definition results (minMinutes : JS.number) (door_id tz : string)
    (door : Door.t) (rawEvents : list Raw.Event) : list Report.t :=
  JS.sort byTotal
    (collect minMinutes (groupByUser (filtered door_id tz door rawEvents))).

(** *** A threshold that is not a whole number

    [Number(min_minutes)] is any finite double.  The definitions above
    carry a whole number of minutes; these are the same lines for a
    threshold [minMinutes] that is any double, with the product
    [minMinutes * 60 * 1000] of the inclusion test computed in binary64
    as the code computes it. *)
Definition includedAt (minMinutes : float) (totalMs : JS.number)
    (vs : list Violation.t) : bool :=
  JS.ge_double totalMs (minMinutes * 60 * 1000)%float || (0 <? length vs)%nat.

Definition userReportAt (minMinutes : float) (entry : string * list Ev.t)
  : list Report.t :=
  let st := pairLoop (fst entry) (snd entry) in
  if includedAt minMinutes (sumTotalMs (pairs st)) (violations st)
  then [mkReport (fst entry) (snd entry) st]
  else [].

Definition collectAt (minMinutes : float)
    (byUser : list (string * list Ev.t)) : list Report.t :=
  flat_map (userReportAt minMinutes) byUser.

Definition resultsAt (minMinutes : float) (door_id tz : string)
    (door : Door.t) (rawEvents : list Raw.Event) : list Report.t :=
  JS.sort byTotal
    (collectAt minMinutes (groupByUser (filtered door_id tz door rawEvents))).

(** *** The route handler

    The query string, the collaborators the handler awaits (token, door
    list, the day's bounds in the door's zone, the paginated event fetch;
    [None] stands for a rejected promise) and the JSON response. *)

(** [StringToNumber] of the language: the numeric value of a string. *)
Variable StringToNumber : string -> JS.number.

(** [Number(v)] for a query value: a missing value converts to NaN. *)
Definition Number (v : option string) : JS.number :=
  match v with
  | None => JS.NaN
  | Some s => StringToNumber s
  end.

Record Query : Type := mkQuery {
  q_door_id : option string;
  q_date : option string;
  q_min_minutes : option string }.

Record World : Type := mkWorld {
  getBearerToken : option string;
  fetchDoors : option (list Door.t);
  (* start and end of the target day in unix seconds, for a date
     parameter (or today when it is missing) and a zone; [None] when
     [targetDay.isValid] is false *)
  dayBounds : option string -> string -> option (Z * Z);
  fetchAllAccessEvents : Z -> Z -> option (list Raw.Event) }.

Record DoorSummary : Type := mkDoorSummary {
  ds_door_id : option string;
  ds_name : option string;
  ds_site_name : string;
  ds_timezone : string }.

Record Range : Type := mkRange {
  start_unix : Z;
  end_unix : Z;
  range_tz : string }.

Record Payload : Type := mkPayload {
  door : DoorSummary;
  generatedRange : Range;
  min_minutes : JS.number;
  users : list Report.t }.

Inductive Body : Type :=
| Error (error : string)
| Ok (payload : Payload).

Record Response : Type := mkResponse {
  status : Z;
  body : Body }.

Definition failed : Response :=
  mkResponse 500 (Error "Failed to generate break report").

Definition minMinutesOf (q : Query) : JS.number :=
  if JS.isFinite (Number (q_min_minutes q))
  then Number (q_min_minutes q)
  else JS.Num 45.

Definition breakReport (q : Query) (w : World) : Response :=
  if negb (JS.truthy (q_door_id q))
  then mkResponse 400 (Error "Missing door_id")
  else
    let door_id := JS.or_lit (q_door_id q) "" in
    let minMinutes := minMinutesOf q in
    match getBearerToken w with
    | None => failed
    | Some _ =>
    match fetchDoors w with
    | None => failed
    | Some allDoors =>
    match find (fun d => JS.opt_eq (Door.door_id d) door_id) allDoors with
    | None => mkResponse 404 (Error "Door not found")
    | Some d =>
    let tz := JS.or_lit (Door.timezone d) "UTC" in
    match dayBounds w (JS.or_null (q_date q)) tz with
    | None => mkResponse 400 (Error "Invalid date format. Use YYYY-MM-DD.")
    | Some (startUnix, endUnix) =>
    match fetchAllAccessEvents w startUnix endUnix with
    | None => failed
    | Some rawEvents =>
        mkResponse 200
          (Ok {| door := {| ds_door_id := Door.door_id d;
                            ds_name := Door.name d;
                            ds_site_name :=
                              JS.or_lit (Door.site_name d) "Unknown Site";
                            ds_timezone := tz |};
                 generatedRange := mkRange startUnix endUnix tz;
                 min_minutes := minMinutes;
                 users := results minMinutes door_id tz d rawEvents |})
    end end end end end.

End BreakReport.

(* ------------------------------------------------------------------ *)
(** ** Vocabulary of the statements *)
(* ------------------------------------------------------------------ *)

(** [a <= b] on timestamps, as the language compares two DateTimes: an
    invalid DateTime is not comparable. *)
Definition ts_le (a b : DateTime) : Prop :=
  match a, b with
  | Valid x _, Valid y _ => x <= y
  | _, _ => False
  end.

Definition validTs (ev : Ev.t) : Prop :=
  exists ms zone, Ev.ts ev = Valid ms zone.

(** A sequence in chronological order. *)
Definition chronological (evs : list Ev.t) : Prop :=
  StronglySorted (fun a b => ts_le (Ev.ts a) (Ev.ts b)) evs.

Definition isIn (ev : Ev.t) : bool := String.eqb (Ev.direction ev) "in".
Definition isOut (ev : Ev.t) : bool := String.eqb (Ev.direction ev) "out".

(** [f] occurs at an earlier position of [l] than [s]. *)
Definition occursBefore (l : list Ev.t) (f s : Ev.t) : Prop :=
  exists l1 l2 l3, l = l1 ++ f :: l2 ++ s :: l3.

(** [p] is the pair of an [in] event and a later [out] event of [l]. *)
Definition pairedFrom (formatIn : string -> string -> Z -> string)
    (userId : string) (l : list Ev.t) (p : Pair.t) : Prop :=
  exists f s, occursBefore l f s /\ isIn f = true /\ isOut s = true /\
              p = mkPair formatIn userId f s.

(** The events grouped under a key of [byUser]: [byUser.get(k)], or the
    empty list for an absent key. *)
Fixpoint eventsOf (k : string) (byUser : list (string * list Ev.t))
  : list Ev.t :=
  match byUser with
  | [] => []
  | (k', evs) :: rest => if String.eqb k' k then evs else eventsOf k rest
  end.

Definition ofUser (k : string) (ev : Ev.t) : bool :=
  String.eqb (Ev.userId ev) k.

(** The timestamp of a raw event parses. *)
Definition parses (parseISO : string -> option Z) (e : Raw.Event) : Prop :=
  exists s ms, Raw.timestamp e = Some s /\ parseISO s = Some ms.

(** The door and keep conditions read on a raw event. *)
Definition rawDirectional (e : Raw.Event) : bool :=
  let d := fst (normalizeDirection (Raw.direction (Raw.info e))) in
  String.eqb d "in" || String.eqb d "out".

Definition rawAPB (e : Raw.Event) : bool :=
  JS.startsWith (JS.or_lit (Raw.event_type e) "") "DOOR_APB_".

(** Ranking of two reports: [a] may stand before [b]. *)
Definition violationCount (r : Report.t) : Z :=
  Z.of_nat (length (Report.violations r)).

Definition ranksBefore (a b : Report.t) : Prop :=
  match Report.totalMs a, Report.totalMs b with
  | JS.Num x, JS.Num y =>
      y < x \/ (x = y /\ violationCount b <= violationCount a)
  | _, _ => False
  end.

Definition sameRank (k r : Report.t) : bool :=
  JS.strict_eq (Report.totalMs r) (Report.totalMs k)
  && (violationCount r =? violationCount k).

Definition numericTotal (r : Report.t) : Prop :=
  JS.isFinite (Report.totalMs r) = true.

(** A duration or a total is a non-negative integer or NaN. *)
Definition durationLike (n : JS.number) : Prop :=
  (exists t, n = JS.Num t /\ 0 <= t) \/ n = JS.NaN.

(* ------------------------------------------------------------------ *)
(** ** Concrete collaborators and events for the examples *)
(* ------------------------------------------------------------------ *)

Module Demo.

(** A parser that knows a handful of timestamps of 1 May 2024. *)
Definition parseISO (s : string) : option Z :=
  if String.eqb s "2024-05-01T09:00:00Z" then Some 1714554000000
  else if String.eqb s "2024-05-01T09:50:00Z" then Some 1714557000000
  else if String.eqb s "2024-05-01T10:00:00Z" then Some 1714557600000
  else if String.eqb s "2024-05-01T10:05:00Z" then Some 1714557900000
  else if String.eqb s "2024-05-01T10:06:00Z" then Some 1714557960000
  else if String.eqb s "2024-05-01T11:00:00Z" then Some 1714561200000
  else if String.eqb s "2024-05-01T12:00:00Z" then Some 1714564800000
  else None.

(** A formatter that prints the pattern and the epoch milliseconds. *)
Definition formatIn (zone pattern : string) (ms : Z) : string :=
  (pattern ++ "@" ++ JS.Z_to_string ms)%string.

(** A conversion that knows the empty string and decimal integers. *)
Definition StringToNumber (s : string) : JS.number :=
  if String.eqb s "" then JS.Num 0
  else match NilEmpty.int_of_string s with
       | Some i => JS.Num (Z.of_int i)
       | None => JS.NaN
       end.

Definition theDoor : Door.t :=
  Door.mk (Some "door-1") (Some "Break Room") (Some "HQ") (Some "UTC").

Definition otherDoor : Door.t :=
  Door.mk (Some "door-2") (Some "Lobby") (Some "HQ") (Some "UTC").

(** A raw event at a door, of a type, for a user, with a direction and a
    timestamp. *)
Definition raw (doorId type user dir stamp : string) : Raw.Event :=
  Raw.mkEvent (Some "e") (Some type) None (Some stamp)
    (Some (Raw.mkInfo (Some doorId) (Some dir) None (Some user) (Some user)
                      None None None)).

Definition ev (type user dir : string) (ts : DateTime) : Ev.t :=
  Ev.mk (Some "e") type None None ts user user "HQ" dir
        (snd (normalizeDirection (Some dir))) "Break Room".

Definition world (events : list Raw.Event) : World :=
  mkWorld (Some "token") (Some [otherDoor; theDoor])
          (fun _ _ => Some (1714521600, 1714607999))
          (fun _ _ => Some events).

Definition query (min_minutes : option string) : Query :=
  mkQuery (Some "door-1") (Some "2024-05-01") min_minutes.

Definition t0900 : string := "2024-05-01T09:00:00Z".
Definition t0950 : string := "2024-05-01T09:50:00Z".
Definition t1000 : string := "2024-05-01T10:00:00Z".
Definition t1100 : string := "2024-05-01T11:00:00Z".
Definition t1200 : string := "2024-05-01T12:00:00Z".

(** An APB event reported against another door. *)
Definition apbElsewhere : Raw.Event :=
  raw "door-2" "DOOR_APB_DOUBLE_ENTRY" "u1" "in" t0900.

(** An APB entry at the door and a plain exit of the same user. *)
Definition apbEntry : Raw.Event :=
  raw "door-1" "DOOR_APB_DOUBLE_ENTRY" "u1" "in" t0900.
Definition plainExit : Raw.Event :=
  raw "door-1" "DOOR_OPENED" "u1" "out" t0950.

(** Events whose timestamp does not parse. *)
Definition apbGarbled : Raw.Event :=
  raw "door-1" "DOOR_APB_DOUBLE_ENTRY" "u1" "in" "garbled".
Definition entryGarbled : Raw.Event :=
  raw "door-1" "DOOR_OPENED" "u1" "in" "garbled".

(** B is away 50 minutes, C 60 minutes; between them A has an APB entry
    and an exit with unparsable timestamps. *)
Definition mixedDay : list Raw.Event :=
  [ raw "door-1" "DOOR_OPENED" "B" "in" t0900;
    raw "door-1" "DOOR_OPENED" "B" "out" t0950;
    raw "door-1" "DOOR_APB_DOUBLE_ENTRY" "A" "in" "garbled";
    raw "door-1" "DOOR_OPENED" "A" "out" "garbled";
    raw "door-1" "DOOR_OPENED" "C" "in" t1000;
    raw "door-1" "DOOR_OPENED" "C" "out" t1100 ].

(** U1 is away from 09:00 to 09:50 and from 10:05 to 10:06. *)
Definition twoBreaks : list Raw.Event :=
  [ raw "door-1" "DOOR_OPENED" "U1" "in" t0900;
    raw "door-1" "DOOR_OPENED" "U1" "out" t0950;
    raw "door-1" "DOOR_OPENED" "U1" "in" "2024-05-01T10:05:00Z";
    raw "door-1" "DOOR_OPENED" "U1" "out" "2024-05-01T10:06:00Z" ].

(** A and B are both away 60 minutes; B's two events are APB-typed. *)
Definition tiedDay : list Raw.Event :=
  [ raw "door-1" "DOOR_OPENED" "A" "in" t0900;
    raw "door-1" "DOOR_OPENED" "A" "out" t1000;
    raw "door-1" "DOOR_APB_DOUBLE_ENTRY" "B" "in" t1100;
    raw "door-1" "DOOR_APB_DOUBLE_EXIT" "B" "out" t1200 ].

(** Normalised events of one user. *)
Definition in0900 : Ev.t :=
  ev "DOOR_OPENED" "u1" "in" (Valid 1714554000000 "UTC").
Definition in0950 : Ev.t :=
  ev "DOOR_OPENED" "u1" "in" (Valid 1714557000000 "UTC").
Definition out0900 : Ev.t :=
  ev "DOOR_OPENED" "u1" "out" (Valid 1714554000000 "UTC").
Definition out1000 : Ev.t :=
  ev "DOOR_OPENED" "u1" "out" (Valid 1714557600000 "UTC").

End Demo.

(* ------------------------------------------------------------------ *)
(** ** Further vocabulary: pairing, grouping and ordering *)
(* ------------------------------------------------------------------ *)

(** An event that is neither an entry nor an exit. *)
Definition nonDirectional (ev : Ev.t) : Prop :=
  isIn ev = false /\ isOut ev = false.

(** [s] is the first directional event of [l] after [f]. *)
Definition nextDirectional (l : list Ev.t) (f s : Ev.t) : Prop :=
  exists l1 l2 l3, l = l1 ++ f :: l2 ++ s :: l3 /\ Forall nonDirectional l2.

(** Two events agree on everything a pair is built from: time,
    direction, names and labels.  Their type, violation message,
    identifiers and user may differ. *)
Definition sameForPairing (a b : Ev.t) : Prop :=
  Ev.ts a = Ev.ts b /\ Ev.direction a = Ev.direction b /\
  Ev.userName a = Ev.userName b /\ Ev.siteName a = Ev.siteName b /\
  Ev.doorName a = Ev.doorName b /\
  Ev.directionLabel a = Ev.directionLabel b.

(** The parsed timestamp of a raw event, if any. *)
Definition stampOf (parseISO : string -> option Z) (e : Raw.Event)
  : option Z :=
  match Raw.timestamp e with
  | Some s => parseISO s
  | None => None
  end.

(** The test of the two filters on a raw event. *)
Definition relevant (door_id : string) (e : Raw.Event) : bool :=
  doorMatches door_id e && (rawDirectional e || rawAPB e).

(** The total of the pairs emitted so far fits between the first
    timestamp [t0] and the pending entry, or the time [c] reached when
    no entry is pending. *)
Definition totalWithin (t0 : Z) (st : PairState) (c : Z) : Prop :=
  exists T, sumTotalMs (pairs st) = JS.Num T /\ 0 <= T /\
    match lastInbound st with
    | Some f => exists fx z, Ev.ts f = Valid fx z /\ T <= fx - t0 /\ fx <= c
    | None => T <= c - t0
    end.

(* ------------------------------------------------------------------ *)
(** ** The collaborators of the handlers

    The token cache, the paginated event fetch and the door list of
    [server.js].  A promise that rejects, or a call that throws, is a
    [Thrown] outcome. *)
(* ------------------------------------------------------------------ *)

Inductive Outcome (A : Type) : Type :=
| Returned (value : A)
| Thrown (message : string).
Arguments Returned {A} value.
Arguments Thrown {A} message.

Module JSMore.

(** [s.includes(sub)]. *)
Fixpoint includes (s sub : string) : bool :=
  String.prefix sub s
  || match s with
     | EmptyString => false
     | String _ r => includes r sub
     end.

(** [s.padStart(n, c)] for a one-character filler. *)
Definition padStart (s : string) (n : nat) (c : ascii) : string :=
  (String.concat "" (repeat (String c "") (n - String.length s)) ++ s)%string.

(** [Array.prototype.sort] with a comparator that may throw: the
    insertion sort of [JS.sort], stopped by the first comparison that
    throws.  Which comparisons an engine makes, and which of the two
    elements it hands over first, is its own business: this sort hands
    over the earlier element first, V8 the later one.  The two differ
    only where the comparator throws on one side and not on the other,
    so the statements about the sorted door list are made for doors that
    all have a name, on which the comparator of [/api/doors] never
    throws and the sort is [JS.sort]. *)
Section SortM.
Context {A : Type}.
Variable cmp : A -> A -> Outcome JS.number.

Fixpoint insertM (x : A) (l : list A) : Outcome (list A) :=
  match l with
  | [] => Returned [x]
  | y :: l' =>
      match cmp x y with
      | Thrown m => Thrown m
      | Returned v =>
          if JS.gt v (JS.Num 0)
          then match insertM x l' with
               | Returned r => Returned (y :: r)
               | Thrown m => Thrown m
               end
          else Returned (x :: l)
      end
  end.

Fixpoint sortM (l : list A) : Outcome (list A) :=
  match l with
  | [] => Returned []
  | x :: l' =>
      match sortM l' with
      | Returned r => insertM x r
      | Thrown m => Thrown m
      end
  end.
End SortM.

End JSMore.

(** *** The token cache ([apiTokenCache], [getBearerToken]) *)
Module Token.

Record Cache : Type := mkCache {
  token : option string;
  expiresAt : Z }.

(** [let apiTokenCache = { token: null, expiresAt: 0 }]. *)
Definition initial : Cache := mkCache None 0.

(** The reply to the POST: [res.ok], [res.status] and the [token] field
    of [await res.json()]. *)
Record Reply : Type := mkReply {
  ok : bool;
  status : Z;
  json : Outcome (option string) }.

(** [getBearerToken] at the clock reading [dateNow] (milliseconds).
    [post] is what the POST yields if it is made; the result is the
    outcome of the call and the cache it leaves. *)
Definition getBearerToken (dateNow : Z) (post : Outcome Reply) (cache : Cache)
  : Outcome (option string) * Cache :=
  let now := dateNow / 1000 in
  if JS.truthy (token cache) && (now <? expiresAt cache)
  then (Returned (token cache), cache)
  else
    match post with
    | Thrown m => (Thrown m, cache)
    | Returned res =>
        if negb (ok res)
        then (Thrown ("Failed to get API Token: " ++ JS.Z_to_string (status res)),
              cache)
        else
          match json res with
          | Thrown m => (Thrown m, cache)
          | Returned tok => (Returned tok, mkCache tok (now + 300))
          end
    end.

End Token.

(** *** The paginated fetch ([fetchAllAccessEvents]) *)
Module Pagination.

Record Request : Type := mkRequest {
  start_time : Z;
  end_time : Z;
  page_size : Z;
  page_token : option string }.

(** The body of a page: [json.events] and [json.next_page_token]. *)
Record Page : Type := mkPage {
  events : option (list Raw.Event);
  next_page_token : option string }.

(** A reply: [resp.ok], [resp.status], [resp.statusText], the outcome of
    [resp.text()] and the outcome of [resp.json()] ([None] is a [null]
    body). *)
Record Reply : Type := mkReply {
  ok : bool;
  status : Z;
  statusText : string;
  text : Outcome string;
  json : Outcome (option Page) }.

Definition failureMessage (resp : Reply) : string :=
  ("Failed to fetch access events: " ++ JS.Z_to_string (status resp) ++ " "
   ++ statusText resp ++ " :: "
   ++ match text resp with Returned t => t | Thrown _ => "" end)%string.

(** [json?.events || []] and [json?.next_page_token || null]. *)
Definition pageEvents (j : option Page) : list Raw.Event :=
  match j with
  | Some p => match events p with Some l => l | None => [] end
  | None => []
  end.

Definition pageNext (j : option Page) : option string :=
  match j with
  | Some p => JS.or_null (next_page_token p)
  | None => None
  end.

(** The [while (true)] loop; each unit of [fuel] pays for one request,
    and [None] means the fuel ran out before the loop ended. *)
Fixpoint loop (fuel : nat) (server : Request -> Outcome Reply)
    (startUnix endUnix : Z) (all : list Raw.Event) (next : option string)
  : option (Outcome (list Raw.Event)) :=
  match fuel with
  | O => None
  | S fuel' =>
      match server (mkRequest startUnix endUnix 100 next) with
      | Thrown m => Some (Thrown m)
      | Returned resp =>
          if negb (ok resp) then Some (Thrown (failureMessage resp))
          else
            match json resp with
            | Thrown m => Some (Thrown m)
            | Returned j =>
                let all' := all ++ pageEvents j in
                match pageNext j with
                | Some t => loop fuel' server startUnix endUnix all' (Some t)
                | None => Some (Returned all')
                end
            end
      end
  end.

Definition fetchAllAccessEvents (fuel : nat)
    (server : Request -> Outcome Reply) (startUnix endUnix : Z)
  : option (Outcome (list Raw.Event)) :=
  loop fuel server startUnix endUnix [] None.

End Pagination.

(** *** The door list ([/api/doors]) *)
Module DoorsApi.

Record Site : Type := mkSite {
  site_name_ : option string;      (* d.site.name *)
  site_id_ : option string }.

(** A door as the vendor sends it; [camera_info] is a JSON object, kept
    as the list of its entries. *)
Record VendorDoor : Type := mkVendorDoor {
  v_door_id : option string;
  v_name : option string;
  v_site : option Site;
  v_timezone : option string;
  v_camera_info : option (list (string * string)) }.

(** A door as the handler lists it. *)
Record Listed : Type := mkListed {
  door_id : option string;
  name : option string;
  site_name : string;
  site_id : option string;
  timezone : string;
  camera_info : list (string * string) }.

(** The [map]. *)
Definition shape (d : VendorDoor) : Listed :=
  {| door_id := v_door_id d;
     name := v_name d;
     site_name :=
       JS.or_lit (match v_site d with Some s => site_name_ s | None => None end)
                 "Unknown Site";
     site_id :=
       JS.or_null (match v_site d with Some s => site_id_ s | None => None end);
     timezone := JS.or_lit (v_timezone d) "UTC";
     camera_info := match v_camera_info d with Some c => c | None => [] end |}.

Definition containsBreak (s : option string) : bool :=
  JSMore.includes (JS.toLowerCase (JS.or_lit s "")) "break".

Definition breakRank (d : Listed) : Z := if containsBreak (name d) then 0 else 1.

(** The comparator of [doors.sort].  [localeCompare] is the collation of
    the engine on two strings.  A missing name is [undefined] here:
    [a.name.localeCompare] then throws a TypeError, and a missing
    [b.name] is compared as the text "undefined". *)
Definition compareDoors (localeCompare : string -> string -> JS.number)
    (a b : Listed) : Outcome JS.number :=
  if negb (breakRank a =? breakRank b)
  then Returned (JS.Num (breakRank a - breakRank b))
  else
    match name a with
    | None => Thrown "TypeError"
    | Some an =>
        Returned (localeCompare an
                    (match name b with Some bn => bn | None => "undefined" end))
    end.

(** The reply of the vendor: [r.ok] and the outcome of [r.json()], read
    through [data?.doors]. *)
Record Reply : Type := mkReply {
  ok : bool;
  json : Outcome (option (list VendorDoor)) }.

Inductive Response : Type :=
| Doors (status : Z) (doors : list Listed)
| Failure (status : Z) (error : string).

Definition failed : Response := Failure 500 "Failed to fetch doors".

(** The handler, given the outcome of [getBearerToken] and of the
    fetch. *)
Definition listDoors (localeCompare : string -> string -> JS.number)
    (token : Outcome (option string)) (reply : Outcome Reply) : Response :=
  match token with
  | Thrown _ => failed
  | Returned _ =>
      match reply with
      | Thrown _ => failed
      | Returned r =>
          if negb (ok r) then failed
          else
            match json r with
            | Thrown _ => failed
            | Returned data =>
                let doors :=
                  map shape (match data with Some ds => ds | None => [] end) in
                match JSMore.sortM (compareDoors localeCompare) doors with
                | Thrown _ => failed
                | Returned sorted => Doors 200 sorted
                end
            end
      end
  end.

End DoorsApi.

(* ------------------------------------------------------------------ *)
(** ** Vocabulary: pages and door order *)
(* ------------------------------------------------------------------ *)

(** The server answers the request for page token [tok] with a
    successful reply whose body is [j]. *)
Definition pageAnswered (server : Pagination.Request -> Outcome Pagination.Reply)
    (startUnix endUnix : Z) (tok : option string) (j : option Pagination.Page)
  : Prop :=
  exists resp,
    server (Pagination.mkRequest startUnix endUnix 100 tok) = Returned resp /\
    Pagination.ok resp = true /\ Pagination.json resp = Returned j.

(** From the token [tok] the server hands out the pages [js], each
    naming a next page, and the last of them names the token [tok']. *)
Fixpoint pagesLead (server : Pagination.Request -> Outcome Pagination.Reply)
    (startUnix endUnix : Z) (tok : option string)
    (js : list (option Pagination.Page)) (tok' : option string) : Prop :=
  match js with
  | [] => tok' = tok
  | j :: rest =>
      pageAnswered server startUnix endUnix tok j /\
      exists t, Pagination.pageNext j = Some t /\
                pagesLead server startUnix endUnix (Some t) rest tok'
  end.

(** The request for page token [tok] fails with the message [msg]: the
    fetch rejects, the reply is not ok, or its body does not parse. *)
Definition pageFails (server : Pagination.Request -> Outcome Pagination.Reply)
    (startUnix endUnix : Z) (tok : option string) (msg : string) : Prop :=
  match server (Pagination.mkRequest startUnix endUnix 100 tok) with
  | Thrown m => msg = m
  | Returned resp =>
      if Pagination.ok resp
      then Pagination.json resp = Thrown msg
      else msg = Pagination.failureMessage resp
  end.

(** The name a door is compared by. *)
Definition nameText (d : DoorsApi.Listed) : string :=
  match DoorsApi.name d with
  | Some n => n
  | None => "undefined"
  end.

(** [a] may be listed before [b]: a door with "break" in its name before
    one without, and within a class the collation decides. *)
Definition listedBefore (localeCompare : string -> string -> JS.number)
    (a b : DoorsApi.Listed) : Prop :=
  DoorsApi.breakRank a < DoorsApi.breakRank b \/
  (DoorsApi.breakRank a = DoorsApi.breakRank b /\
   JS.gt (localeCompare (nameText a) (nameText b)) (JS.Num 0) = false).

(** The collation orders strings consistently. *)
Definition consistentCollation (localeCompare : string -> string -> JS.number)
  : Prop :=
  (forall x y, JS.gt (localeCompare x y) (JS.Num 0) = true ->
               JS.gt (localeCompare y x) (JS.Num 0) = false) /\
  (forall x y z, JS.gt (localeCompare x y) (JS.Num 0) = false ->
                 JS.gt (localeCompare y z) (JS.Num 0) = false ->
                 JS.gt (localeCompare x z) (JS.Num 0) = false).

Definition isBreakDoor (d : DoorsApi.Listed) : bool :=
  DoorsApi.containsBreak (DoorsApi.name d).

(** The cache after a series of calls of [getBearerToken], each given by
    its clock reading and by what the POST yields if it is made. *)
Fixpoint tokenCalls (calls : list (Z * Outcome Token.Reply))
    (cache : Token.Cache) : Token.Cache :=
  match calls with
  | [] => cache
  | (dateNow, post) :: rest =>
      tokenCalls rest (snd (Token.getBearerToken dateNow post cache))
  end.

(** A usable cached token is the answer to one of the calls [history],
    and expires 300 seconds after that call. *)
Definition tokenFrom (history : list (Z * Outcome Token.Reply))
    (cache : Token.Cache) : Prop :=
  JS.truthy (Token.token cache) = true ->
  exists t res,
    In (t, Returned res) history /\ Token.ok res = true /\
    Token.json res = Returned (Token.token cache) /\
    Token.expiresAt cache = t / 1000 + 300.

(* ------------------------------------------------------------------ *)
(** ** The dashboard ([frontend/src/App.js])

    The pure parts of the React component: the initial date, the door
    preselection, the request of [handleGenerate] and the file name of
    the PDF export.  A door of the list is the [DoorsApi.Listed] record
    the backend sends; the query string is the [Query] the backend
    reads. *)
(* ------------------------------------------------------------------ *)

Module App.

(** The initial [date] state, from [getFullYear()], [getMonth()] and
    [getDate()] of today. *)
Definition initialDate (fullYear month date : Z) : string :=
  (JS.Z_to_string fullYear ++ "-"
   ++ JSMore.padStart (JS.Z_to_string (month + 1)) 2 "0" ++ "-"
   ++ JSMore.padStart (JS.Z_to_string date) 2 "0")%string.

(** [(d.name || '').toLowerCase().includes('break')]. *)
Definition isBreak (d : DoorsApi.Listed) : bool :=
  JSMore.includes (JS.toLowerCase (JS.or_lit (DoorsApi.name d) "")) "break".

Definition suggestedDoors (doors : list DoorsApi.Listed)
  : list DoorsApi.Listed :=
  filter isBreak doors.

(** [selectedDoorId] after the door list [ds] has loaded. *)
Definition selectedAfterLoad (selectedDoorId : option string)
    (ds : list DoorsApi.Listed) : option string :=
  match find isBreak ds with
  | Some preferred => DoorsApi.door_id preferred
  | None =>
      match ds with
      | d :: _ => DoorsApi.door_id d
      | [] => selectedDoorId
      end
  end.

(** [n || 45]: zero and NaN are falsy. *)
Definition orDefault45 (n : JS.number) : JS.number :=
  match n with
  | JS.Num 0 | JS.NaN => JS.Num 45
  | other => other
  end.

(** The query string [handleGenerate] sends, or [None] when it stops
    with "Please select a door." *)
Definition requestParams (selectedDoorId : option string) (date : string)
    (minMinutes : JS.number) : option Query :=
  if negb (JS.truthy selectedDoorId) then None
  else Some (mkQuery selectedDoorId (Some date)
                     (Some (JS.to_string (orDefault45 minMinutes)))).

(** The character classes [\w] and [\s] on ASCII. *)
Definition isWordChar (c : ascii) : bool :=
  let n := nat_of_ascii c in
  ((48 <=? n) && (n <=? 57) || (65 <=? n) && (n <=? 90)
   || (97 <=? n) && (n <=? 122) || (n =? 95))%nat.

Definition isSpaceChar (c : ascii) : bool :=
  let n := nat_of_ascii c in
  ((n =? 32) || (9 <=? n) && (n <=? 13))%nat.

(** [s.replace(/[^\w\s-]/g, '')]. *)
Fixpoint stripUnsafe (s : string) : string :=
  match s with
  | EmptyString => EmptyString
  | String c r =>
      if isWordChar c || isSpaceChar c || Ascii.eqb c "-"
      then String c (stripUnsafe r)
      else stripUnsafe r
  end.

(** [s.replace(/\s+/g, '-')]: [inRun] tells that the previous character
    was white space. *)
Fixpoint dashSpaces (inRun : bool) (s : string) : string :=
  match s with
  | EmptyString => EmptyString
  | String c r =>
      if isSpaceChar c
      then if inRun then dashSpaces true r else String "-" (dashSpaces true r)
      else String c (dashSpaces false r)
  end.

(** [filenameDoor] of [handleExportPDF], from [report?.door?.name]. *)
Definition filenameDoor (name : option string) : string :=
  dashSpaces false (stripUnsafe (JS.or_lit name "door")).

Definition pdfFilename (name : option string) (date : string) : string :=
  ("break-report_" ++ filenameDoor name ++ "_" ++ date ++ ".pdf")%string.

End App.

(** Every character of a string satisfies a test. *)
Fixpoint allChars (p : ascii -> bool) (s : string) : bool :=
  match s with
  | EmptyString => true
  | String c r => p c && allChars p r
  end.

Definition fileSafeChar (c : ascii) : bool :=
  App.isWordChar c || Ascii.eqb c "-".

(** What the language guarantees of [Number] on the texts [String]
    produces: an integer reads back as itself, and the two infinities as
    themselves. *)
Definition readsBack (StringToNumber : string -> JS.number) : Prop :=
  (forall z, StringToNumber (JS.Z_to_string z) = JS.Num z) /\
  StringToNumber "Infinity" = JS.Inf true /\
  StringToNumber "-Infinity" = JS.Inf false.

(* ------------------------------------------------------------------ *)
(** ** Concrete collaborators for the further examples *)
(* ------------------------------------------------------------------ *)

Module Sample.

(** The parser of [Demo], which also knows 09:08:18 of that day. *)
Definition parseISO (s : string) : option Z :=
  if String.eqb s "2024-05-01T09:08:18Z" then Some 1714554498000
  else Demo.parseISO s.

(** One user is away from 09:00:00 to 09:08:18: 498 seconds, which is
    8.3 minutes. *)
Definition shortBreak : list Raw.Event :=
  [ Demo.raw "door-1" "DOOR_OPENED" "U1" "in" Demo.t0900;
    Demo.raw "door-1" "DOOR_OPENED" "U1" "out" "2024-05-01T09:08:18Z" ].

(** A conversion that reads decimal integers and the two infinities. *)
Definition StringToNumber (s : string) : JS.number :=
  if String.eqb s "Infinity" then JS.Inf true
  else if String.eqb s "-Infinity" then JS.Inf false
  else match NilZero.int_of_string s with
       | Some i => JS.Num (Z.of_int i)
       | None => JS.NaN
       end.

(** A collation that compares the lengths of the names. *)
Definition byLength (x y : string) : JS.number :=
  JS.Num (Z.of_nat (String.length x) - Z.of_nat (String.length y)).

Definition vendorDoors : list DoorsApi.VendorDoor :=
  [ DoorsApi.mkVendorDoor (Some "d1") (Some "Lobby")
      (Some (DoorsApi.mkSite (Some "HQ") (Some "s1"))) (Some "UTC") None;
    DoorsApi.mkVendorDoor (Some "d2") (Some "Warehouse Break Area")
      None None None;
    DoorsApi.mkVendorDoor (Some "d3") (Some "Break Room")
      (Some (DoorsApi.mkSite (Some "HQ") (Some "s1"))) (Some "UTC") None ].

Definition doorsReply : DoorsApi.Reply :=
  DoorsApi.mkReply true (Returned (Some vendorDoors)).

Definition tokenReply (tok : string) : Token.Reply :=
  Token.mkReply true 200 (Returned (Some tok)).

Definition pageOne : Pagination.Page :=
  Pagination.mkPage (Some [Demo.apbEntry]) (Some "p2").
Definition pageTwo : Pagination.Page :=
  Pagination.mkPage (Some [Demo.plainExit]) None.

Definition pageReply (p : Pagination.Page) : Pagination.Reply :=
  Pagination.mkReply true 200 "OK" (Returned "") (Returned (Some p)).

(** A server with two pages. *)
Definition twoPages (r : Pagination.Request) : Outcome Pagination.Reply :=
  match Pagination.page_token r with
  | None => Returned (pageReply pageOne)
  | Some _ => Returned (pageReply pageTwo)
  end.

(** A server whose second page is refused. *)
Definition secondRefused (r : Pagination.Request) : Outcome Pagination.Reply :=
  match Pagination.page_token r with
  | None => Returned (pageReply pageOne)
  | Some _ =>
      Returned (Pagination.mkReply false 429 "Too Many Requests"
                  (Returned "slow down") (Thrown "no body"))
  end.

(** A server that always names a next page. *)
Definition endless (r : Pagination.Request) : Outcome Pagination.Reply :=
  Returned (pageReply pageOne).

End Sample.

(** The comparator of the door sort on doors that have a name. *)
Definition namedCompare (localeCompare : string -> string -> JS.number)
    (a b : DoorsApi.Listed) : JS.number :=
  if negb (DoorsApi.breakRank a =? DoorsApi.breakRank b)
  then JS.Num (DoorsApi.breakRank a - DoorsApi.breakRank b)
  else localeCompare (nameText a) (nameText b).

Definition named (d : DoorsApi.Listed) : Prop := DoorsApi.name d <> None.

(** Two doors of the same class with the same name. *)
Definition sameNameAs (k d : DoorsApi.Listed) : bool :=
  (DoorsApi.breakRank d =? DoorsApi.breakRank k)
  && String.eqb (nameText d) (nameText k).

(** The number a run of decimal digits stands for. *)
Definition readDecimal (s : string) : option Z :=
  option_map Z.of_int (NilZero.int_of_string s).

(* ------------------------------------------------------------------ *)
(** ** Facts about the JavaScript layer *)
(* ------------------------------------------------------------------ *)

Lemma gt_Num (x y : Z) : JS.gt (JS.Num x) (JS.Num y) = (y <? x).
Proof. reflexivity. Qed.

Lemma sub_Num (x y : Z) : JS.sub (JS.Num x) (JS.Num y) = JS.Num (x - y).
Proof. unfold JS.sub; simpl; f_equal; lia. Qed.

Lemma Math_max_0_Num (z : Z) :
  JS.Math_max (JS.Num 0) (JS.Num z) = JS.Num (Z.max 0 z).
Proof.
  unfold JS.Math_max; rewrite gt_Num.
  destruct (0 <? z) eqn:E; f_equal; lia.
Qed.

Lemma round_half_up (ms : Z) :
  (2 * ms + 60000) / (2 * 60000) = (ms + 30000) / 60000.
Proof.
  replace (2 * ms + 60000) with (2 * (ms + 30000)) by lia.
  apply Z.div_mul_cancel_l; lia.
Qed.

Section SortFacts.
Context {A : Type}.
Variable cmp : A -> A -> JS.number.

Lemma insert_perm (x : A) (l : list A) :
  Permutation (x :: l) (JS.insert cmp x l).
Proof.
  induction l as [|y l IH]; simpl.
  - apply Permutation_refl.
  - destruct (JS.after cmp x y).
    + eapply perm_trans; [apply perm_swap|]. now apply perm_skip.
    + apply Permutation_refl.
Qed.

Lemma sort_perm (l : list A) : Permutation l (JS.sort cmp l).
Proof.
  induction l as [|x l IH]; simpl.
  - apply perm_nil.
  - eapply perm_trans; [apply perm_skip, IH | apply insert_perm].
Qed.

Lemma sort_In (l : list A) (x : A) : In x (JS.sort cmp l) <-> In x l.
Proof.
  split; intro H.
  - eapply Permutation_in; [apply Permutation_sym, sort_perm | exact H].
  - eapply Permutation_in; [apply sort_perm | exact H].
Qed.

(** On elements for which "not after" is a total preorder, the sort
    returns a sorted list. *)
Variable dom : A -> Prop.
Hypothesis after_total :
  forall x y, dom x -> dom y ->
    JS.after cmp x y = true -> JS.after cmp y x = false.
Hypothesis after_trans :
  forall x y z, dom x -> dom y -> dom z ->
    JS.after cmp x y = false -> JS.after cmp y z = false ->
    JS.after cmp x z = false.

Lemma insert_sorted (x : A) (l : list A) :
  dom x -> Forall dom l ->
  StronglySorted (JS.precedes cmp) l ->
  StronglySorted (JS.precedes cmp) (JS.insert cmp x l).
Proof.
  intros Hx Hl Hs. induction l as [|y l IH]; simpl.
  - constructor; constructor.
  - inversion Hl as [|? ? Hy Hl']; subst.
    inversion Hs as [|? ? Hs' Hall]; subst.
    destruct (JS.after cmp x y) eqn:E.
    + constructor; [now apply IH|].
      eapply Permutation_Forall; [apply insert_perm|].
      constructor; [now apply after_total | exact Hall].
    + constructor; [exact Hs|].
      constructor; [exact E|].
      rewrite Forall_forall in *. intros z Hz.
      apply (after_trans x y z); auto.
      apply (Hall z Hz).
Qed.

Lemma sort_dom (l : list A) : Forall dom l -> Forall dom (JS.sort cmp l).
Proof. intro H. eapply Permutation_Forall; [apply sort_perm | exact H]. Qed.

Lemma sort_sorted (l : list A) :
  Forall dom l -> StronglySorted (JS.precedes cmp) (JS.sort cmp l).
Proof.
  induction l as [|x l IH]; intro H; simpl.
  - constructor.
  - inversion H; subst. apply insert_sorted; auto using sort_dom.
Qed.

(** Stability: a class of elements none of which goes after another
    keeps its order. *)
Variable cls : A -> bool.
Hypothesis cls_tied :
  forall x y, dom x -> dom y -> cls x = true -> cls y = true ->
    JS.after cmp x y = false.

Lemma insert_stable (x : A) (l : list A) :
  dom x -> Forall dom l ->
  filter cls (JS.insert cmp x l) = filter cls (x :: l).
Proof.
  intros Hx Hl. induction l as [|y l IH]; [reflexivity|].
  inversion Hl; subst. cbn [JS.insert].
  destruct (JS.after cmp x y) eqn:E; [|reflexivity].
  cbn [filter]. rewrite IH by assumption. cbn [filter].
  destruct (cls x) eqn:Cx, (cls y) eqn:Cy; try reflexivity.
  rewrite cls_tied in E by assumption. discriminate.
Qed.

Lemma sort_stable (l : list A) :
  Forall dom l -> filter cls (JS.sort cmp l) = filter cls l.
Proof.
  induction l as [|x l IH]; intro H; [reflexivity|].
  inversion H; subst. cbn [JS.sort].
  rewrite insert_stable by auto using sort_dom.
  cbn [filter]. now rewrite IH.
Qed.

End SortFacts.

(* ------------------------------------------------------------------ *)
(** ** Duration labels *)
(* ------------------------------------------------------------------ *)

(** The label of a non-negative integer duration, computed directly. *)
Lemma msToHMM_Num (ms : Z) :
  0 <= ms ->
  msToHMM (JS.Num ms) =
    let total := (ms + 30000) / 60000 in
    if 0 <? total / 60
    then (JS.Z_to_string (total / 60) ++ "h "
          ++ JS.Z_to_string (total mod 60) ++ "m")%string
    else (JS.Z_to_string (total mod 60) ++ "m")%string.
Proof.
  intro H. unfold msToHMM. cbn [JS.Math_round_div JS.Math_floor_div JS.rem].
  rewrite round_half_up, gt_Num. cbn zeta.
  assert (0 <= (ms + 30000) / 60000) by (apply Z.div_pos; lia).
  rewrite Z.rem_mod_nonneg by lia.
  reflexivity.
Qed.

(** C3 (amended).  [msToHMM] labels a non-negative millisecond duration
    with the nearest whole minute (a half minute rounds up), split into
    hours [h] and remaining minutes [m < 60]; the hour component is
    printed exactly when [h > 0].  So 0ms gives "0m", 59000ms "1m",
    3600000ms "1h 0m", 5400000ms "1h 30m", and 90000ms, a minute and a
    half, gives "2m". *)
Theorem msToHMM_nearest_minute (ms : Z) (Hms : 0 <= ms) :
  (exists h m : Z,
      0 <= h /\ 0 <= m < 60 /\
      (60 * h + m) * 60000 - 30000 <= ms < (60 * h + m) * 60000 + 30000 /\
      msToHMM (JS.Num ms) =
        if 0 <? h
        then (JS.Z_to_string h ++ "h " ++ JS.Z_to_string m ++ "m")%string
        else (JS.Z_to_string m ++ "m")%string) /\
  msToHMM (JS.Num 0) = "0m" /\
  msToHMM (JS.Num 59000) = "1m" /\
  msToHMM (JS.Num 3600000) = "1h 0m" /\
  msToHMM (JS.Num 5400000) = "1h 30m" /\
  msToHMM (JS.Num 90000) = "2m".
Proof.
  split; [|repeat split; reflexivity].
  set (total := (ms + 30000) / 60000).
  assert (Ht : 0 <= total) by (apply Z.div_pos; lia).
  exists (total / 60), (total mod 60).
  split; [apply Z.div_pos; lia|].
  split; [apply Z.mod_pos_bound; lia|].
  split.
  - rewrite <- Z.div_mod by lia.
    pose proof (Z.div_mod (ms + 30000) 60000 ltac:(lia)) as E.
    pose proof (Z.mod_pos_bound (ms + 30000) 60000 ltac:(lia)) as B.
    fold total in E. lia.
  - now rewrite msToHMM_Num.
Qed.

Lemma msToHMM_nearest_minute_witness :
  0 <= 754000 /\
  exists h m : Z,
    0 <= h /\ 0 <= m < 60 /\
    (60 * h + m) * 60000 - 30000 <= 754000 < (60 * h + m) * 60000 + 30000 /\
    msToHMM (JS.Num 754000) =
      if 0 <? h
      then (JS.Z_to_string h ++ "h " ++ JS.Z_to_string m ++ "m")%string
      else (JS.Z_to_string m ++ "m")%string.
Proof.
  assert (H : 0 <= 754000) by lia.
  split; [exact H|].
  exact (proj1 (msToHMM_nearest_minute 754000 H)).
Defined.

Example msToHMM_754000 : msToHMM (JS.Num 754000) = "13m".
Proof. reflexivity. Qed.

(** C3, as stated, fails at its first example: 90000ms is ninety
    seconds, and its label is "2m", not "1h 30m". *)
Lemma msToHMM_90000_is_not_1h30 :
  msToHMM (JS.Num 90000) = "2m" /\ msToHMM (JS.Num 90000) <> "1h 30m".
Proof. split; [reflexivity | discriminate]. Qed.

(* ------------------------------------------------------------------ *)
(** ** The pairing loop *)
(* ------------------------------------------------------------------ *)

Section PairingFacts.
Variable formatIn : string -> string -> Z -> string.
Variable userId : string.

Lemma in_not_out (ev : Ev.t) : isIn ev = true -> isOut ev = false.
Proof.
  unfold isIn, isOut. intro H. apply String.eqb_eq in H. now rewrite H.
Qed.

Lemma out_not_in (ev : Ev.t) : isOut ev = true -> isIn ev = false.
Proof.
  unfold isIn, isOut. intro H. apply String.eqb_eq in H. now rewrite H.
Qed.

Lemma pairLoop_snoc (evs : list Ev.t) (ev : Ev.t) :
  pairLoop formatIn userId (evs ++ [ev]) =
    step formatIn userId (pairLoop formatIn userId evs) ev.
Proof. unfold pairLoop. now rewrite fold_left_app. Qed.

Lemma step_in (st : PairState) (ev : Ev.t) :
  isIn ev = true ->
  lastInbound (step formatIn userId st ev) = Some ev /\
  pairs (step formatIn userId st ev) = pairs st.
Proof.
  unfold isIn, step. intros ->.
  destruct (isAPB ev); split; reflexivity.
Qed.

Lemma step_out_pending (st : PairState) (ev first : Ev.t) :
  isOut ev = true -> lastInbound st = Some first ->
  lastInbound (step formatIn userId st ev) = None /\
  pairs (step formatIn userId st ev) =
    pairs st ++ [mkPair formatIn userId first ev].
Proof.
  intros Ho Hl. pose proof (out_not_in _ Ho) as Hi.
  unfold isIn, isOut in *. unfold step. rewrite Hi, Ho.
  destruct (isAPB ev); cbn [lastInbound pairs]; rewrite Hl; split; reflexivity.
Qed.

Lemma step_out_idle (st : PairState) (ev : Ev.t) :
  isOut ev = true -> lastInbound st = None ->
  step formatIn userId st ev =
    if isAPB ev
    then mkState None (pairs st) (violations st ++ [mkViolation formatIn ev])
    else st.
Proof.
  intros Ho Hl. pose proof (out_not_in _ Ho) as Hi.
  unfold isIn, isOut in *. unfold step. rewrite Hi, Ho.
  destruct (isAPB ev); cbn [lastInbound pairs]; rewrite Hl; reflexivity.
Qed.

Lemma step_other (st : PairState) (ev : Ev.t) :
  isIn ev = false -> isOut ev = false ->
  lastInbound (step formatIn userId st ev) = lastInbound st /\
  pairs (step formatIn userId st ev) = pairs st.
Proof.
  unfold isIn, isOut, step. intros -> ->.
  destruct (isAPB ev); split; reflexivity.
Qed.

Lemma step_violations (st : PairState) (ev : Ev.t) :
  violations (step formatIn userId st ev) =
    violations st ++ (if isAPB ev then [mkViolation formatIn ev] else []).
Proof.
  unfold step.
  destruct (isAPB ev), (String.eqb (Ev.direction ev) "in"),
    (String.eqb (Ev.direction ev) "out"), (lastInbound st);
    cbn [lastInbound pairs violations]; now rewrite ?app_nil_r.
Qed.

(** Every APB-typed event, and no other, leaves one violation record,
    in event order. *)
Lemma fold_step_violations (evs : list Ev.t) (st : PairState) :
  violations (fold_left (step formatIn userId) evs st) =
    violations st ++ map (mkViolation formatIn) (filter isAPB evs).
Proof.
  revert st. induction evs as [|ev evs IH]; intro st; cbn [fold_left].
  - now rewrite app_nil_r.
  - rewrite IH, step_violations. cbn [filter].
    destruct (isAPB ev); cbn [map]; now rewrite <- ?app_assoc, ?app_nil_r.
Qed.

Lemma pairLoop_violations (evs : list Ev.t) :
  violations (pairLoop formatIn userId evs) =
    map (mkViolation formatIn) (filter isAPB evs).
Proof. unfold pairLoop. now rewrite fold_step_violations. Qed.

(** A run of [in] events leaves its last event pending and emits
    nothing. *)
Lemma run_of_ins (ins : list Ev.t) (d : Ev.t) (st : PairState) :
  ins <> [] -> Forall (fun ev => isIn ev = true) ins ->
  lastInbound (fold_left (step formatIn userId) ins st) = Some (last ins d) /\
  pairs (fold_left (step formatIn userId) ins st) = pairs st.
Proof.
  revert st. induction ins as [|ev ins IH]; intros st Hne Hall; [congruence|].
  inversion Hall as [|? ? Hev Hins]; subst. cbn [fold_left].
  destruct (step_in st ev Hev) as [Hl Hp].
  destruct ins as [|ev' ins'].
  - cbn. auto.
  - destruct (IH (step formatIn userId st ev)) as [Hl' Hp'];
      [discriminate | assumption |].
    split; [exact Hl' | congruence].
Qed.

(** C5.  After any prefix, a run of one or more consecutive [in] events
    followed by one [out] event adds exactly one pair and leaves nothing
    pending.  The pair is built from the last [in] of the run and the
    [out]: its in-stamp carries the date, the time and the location of
    that last [in], its out-stamp those of the [out], and its duration
    is the time from the one to the other (0 if negative).  The earlier
    [in] events of the run produce no pair, and no record unless they
    are APB-typed.  On its own such a run yields that single pair. *)
Theorem consecutive_ins_pair_latest
    (pre ins : list Ev.t) (o : Ev.t)
    (Hne : ins <> [])
    (Hins : Forall (fun ev => isIn ev = true) ins)
    (Hout : isOut o = true) :
  (exists p,
     pairs (pairLoop formatIn userId (pre ++ ins ++ [o])) =
       pairs (pairLoop formatIn userId pre) ++ [p] /\
     pairs (pairLoop formatIn userId (ins ++ [o])) = [p] /\
     p = mkPair formatIn userId (last ins o) o /\
     Pair.userId p = userId /\
     Stamp.atLocation (Pair.in_ p)
       = (Ev.doorName (last ins o) ++ " "
          ++ Ev.directionLabel (last ins o))%string /\
     Stamp.atLocation (Pair.out p)
       = (Ev.doorName o ++ " " ++ Ev.directionLabel o)%string /\
     (forall a za,
        Ev.ts (last ins o) = Valid a za ->
        Stamp.date (Pair.in_ p) = formatIn za "yyyy-LL-dd" a /\
        Stamp.time (Pair.in_ p) = formatIn za "HH:mm:ss" a) /\
     (forall b zb,
        Ev.ts o = Valid b zb ->
        Stamp.date (Pair.out p) = formatIn zb "yyyy-LL-dd" b /\
        Stamp.time (Pair.out p) = formatIn zb "HH:mm:ss" b) /\
     (forall a za b zb,
        Ev.ts (last ins o) = Valid a za -> Ev.ts o = Valid b zb ->
        Pair.totalMs p = JS.Num (Z.max 0 (b - a)))) /\
  lastInbound (pairLoop formatIn userId (pre ++ ins ++ [o])) = None /\
  (length (pairs (pairLoop formatIn userId (pre ++ ins ++ [o])))
   = S (length (pairs (pairLoop formatIn userId pre))))%nat /\
  violations (pairLoop formatIn userId (pre ++ ins ++ [o])) =
    violations (pairLoop formatIn userId pre)
      ++ map (mkViolation formatIn) (filter isAPB (ins ++ [o])).
Proof.
  assert (G : forall st,
    pairs (fold_left (step formatIn userId) (ins ++ [o]) st)
      = pairs st ++ [mkPair formatIn userId (last ins o) o]
    /\ lastInbound (fold_left (step formatIn userId) (ins ++ [o]) st) = None).
  { intro st. rewrite fold_left_app. cbn [fold_left].
    destruct (run_of_ins ins o st Hne Hins) as [Hl Hp].
    destruct (step_out_pending _ o _ Hout Hl) as [Hl' Hp'].
    rewrite Hp', Hp. auto. }
  assert (E : pairs (pairLoop formatIn userId (pre ++ ins ++ [o])) =
              pairs (pairLoop formatIn userId pre)
                ++ [mkPair formatIn userId (last ins o) o]
              /\ lastInbound (pairLoop formatIn userId (pre ++ ins ++ [o]))
                 = None).
  { unfold pairLoop. rewrite fold_left_app. apply G. }
  destruct E as [E1 E2]. destruct (G initState) as [G3 _].
  split; [|split; [exact E2|split]].
  - exists (mkPair formatIn userId (last ins o) o).
    split; [exact E1|]. split; [exact G3|].
    split; [reflexivity|]. split; [reflexivity|].
    split; [reflexivity|]. split; [reflexivity|].
    cbn [mkPair Pair.in_ Pair.out Pair.totalMs Stamp.date Stamp.time].
    split; [|split].
    + intros a za ->. split; reflexivity.
    + intros b zb ->. split; reflexivity.
    + intros a za b zb Ha Hb. unfold durationMs. rewrite Ha, Hb.
      cbn [toMillis]. now rewrite sub_Num, Math_max_0_Num.
  - rewrite E1, length_app. cbn. lia.
  - rewrite !pairLoop_violations, filter_app, map_app. reflexivity.
Qed.

(** C9.  An [out] event met while no [in] is pending emits no pair and
    leaves nothing pending; the loop state is unchanged, except that an
    [out] event that is itself APB-typed still leaves its violation
    record.  A sequence made of such an event alone yields no pair. *)
Theorem out_without_pending_in_dropped
    (st : PairState) (ev : Ev.t)
    (Hout : isOut ev = true)
    (Hidle : lastInbound st = None) :
  pairs (step formatIn userId st ev) = pairs st /\
  lastInbound (step formatIn userId st ev) = None /\
  (isAPB ev = false -> step formatIn userId st ev = st) /\
  violations (step formatIn userId st ev) =
    violations st ++ (if isAPB ev then [mkViolation formatIn ev] else []) /\
  pairs (pairLoop formatIn userId [ev]) = [].
Proof.
  rewrite step_violations, (step_out_idle st ev Hout Hidle).
  unfold pairLoop. cbn [fold_left].
  rewrite (step_out_idle initState ev Hout eq_refl).
  destruct (isAPB ev); cbn; repeat split; auto using app_nil_r.
  discriminate.
Qed.

End PairingFacts.

Section PairOrigin.
Variable formatIn : string -> string -> Z -> string.
Variable userId : string.

Lemma occursBefore_snoc (l : list Ev.t) (f s ev : Ev.t) :
  occursBefore l f s -> occursBefore (l ++ [ev]) f s.
Proof.
  intros (l1 & l2 & l3 & ->). exists l1, l2, (l3 ++ [ev]).
  now rewrite <- !app_assoc, <- !app_comm_cons, <- app_assoc.
Qed.

Lemma occursBefore_last (l : list Ev.t) (f ev : Ev.t) :
  In f l -> occursBefore (l ++ [ev]) f ev.
Proof.
  intro H. apply in_split in H as (l1 & l2 & ->).
  exists l1, l2, []. now rewrite <- app_assoc, <- app_comm_cons.
Qed.

Lemma occursBefore_In (l : list Ev.t) (f s : Ev.t) :
  occursBefore l f s -> In f l /\ In s l.
Proof.
  intros (l1 & l2 & l3 & ->). split.
  - apply in_or_app; right; now left.
  - apply in_or_app; right; right. apply in_or_app; right; now left.
Qed.

Lemma pairedFrom_snoc (l : list Ev.t) (ev : Ev.t) (p : Pair.t) :
  pairedFrom formatIn userId l p -> pairedFrom formatIn userId (l ++ [ev]) p.
Proof.
  intros (f & s & Hb & Hf & Hs & ->).
  exists f, s. auto using occursBefore_snoc.
Qed.

(** What the loop holds after the events [pre]: a pending event is an
    [in] event of [pre]; every pair comes from an [in] and a later [out]
    of [pre]. *)
Lemma step_origin (pre : list Ev.t) (st : PairState) (ev : Ev.t) :
  (forall f, lastInbound st = Some f -> In f pre /\ isIn f = true) ->
  Forall (pairedFrom formatIn userId pre) (pairs st) ->
  (forall f, lastInbound (step formatIn userId st ev) = Some f ->
             In f (pre ++ [ev]) /\ isIn f = true) /\
  Forall (pairedFrom formatIn userId (pre ++ [ev]))
         (pairs (step formatIn userId st ev)).
Proof.
  intros Hl Hp.
  assert (Hp' : Forall (pairedFrom formatIn userId (pre ++ [ev])) (pairs st)).
  { eapply Forall_impl; [|exact Hp]. intros p. apply pairedFrom_snoc. }
  destruct (isIn ev) eqn:Ei.
  - destruct (step_in formatIn userId st ev Ei) as [-> ->]. split; [|exact Hp'].
    intros f [= <-]. split; [apply in_or_app; right; now left | exact Ei].
  - destruct (isOut ev) eqn:Eo.
    + destruct (lastInbound st) as [first|] eqn:El.
      * destruct (step_out_pending formatIn userId st ev first Eo El) as [-> ->].
        split; [discriminate|].
        apply Forall_app. split; [exact Hp'|]. constructor; [|constructor].
        destruct (Hl first eq_refl) as [Hin Hfi].
        exists first, ev. auto using occursBefore_last.
      * rewrite (step_out_idle formatIn userId st ev Eo El).
        destruct (isAPB ev); cbn [lastInbound pairs].
        -- split; [discriminate | exact Hp'].
        -- split; [rewrite El; discriminate | exact Hp'].
    + destruct (step_other formatIn userId st ev Ei Eo) as [-> ->].
      split; [|exact Hp'].
      intros f Hf. destruct (Hl f Hf).
      split; [apply in_or_app; now left | assumption].
Qed.

Lemma pairLoop_origin (evs : list Ev.t) :
  (forall f, lastInbound (pairLoop formatIn userId evs) = Some f ->
             In f evs /\ isIn f = true) /\
  Forall (pairedFrom formatIn userId evs) (pairs (pairLoop formatIn userId evs)).
Proof.
  induction evs as [|ev evs IH] using rev_ind.
  - split; [discriminate | constructor].
  - rewrite pairLoop_snoc. destruct IH. now apply step_origin.
Qed.

Lemma step_pairs_length (st : PairState) (ev : Ev.t) :
  (length (pairs (step formatIn userId st ev)) <=
   length (pairs st) + (if isOut ev then 1 else 0))%nat.
Proof.
  destruct (isIn ev) eqn:Ei.
  - destruct (step_in formatIn userId st ev Ei) as [_ ->]. lia.
  - destruct (isOut ev) eqn:Eo.
    + destruct (lastInbound st) as [first|] eqn:El.
      * destruct (step_out_pending formatIn userId st ev first Eo El) as [_ ->].
        rewrite length_app. cbn. lia.
      * rewrite (step_out_idle formatIn userId st ev Eo El).
        destruct (isAPB ev); cbn [pairs]; lia.
    + destruct (step_other formatIn userId st ev Ei Eo) as [_ ->]. lia.
Qed.

(** No more pairs than [out] events, for every sequence. *)
Lemma pairs_at_most_outs (evs : list Ev.t) :
  (length (pairs (pairLoop formatIn userId evs))
   <= length (filter isOut evs))%nat.
Proof.
  induction evs as [|ev evs IH] using rev_ind; [cbn; lia|].
  rewrite pairLoop_snoc, filter_app, length_app.
  pose proof (step_pairs_length (pairLoop formatIn userId evs) ev) as H.
  cbn [filter]. destruct (isOut ev); cbn [length]; lia.
Qed.

Lemma chronological_before (l : list Ev.t) (f s : Ev.t) :
  chronological l -> occursBefore l f s -> ts_le (Ev.ts f) (Ev.ts s).
Proof.
  intros Hc (l1 & l2 & l3 & ->). unfold chronological in Hc.
  induction l1 as [|x l1 IH]; cbn in Hc.
  - inversion Hc as [|? ? _ Hall]; subst.
    rewrite Forall_forall in Hall. apply Hall.
    apply in_or_app; right; now left.
  - inversion Hc; subst. auto.
Qed.

Lemma ts_le_valid (a b : DateTime) :
  ts_le a b -> exists x y za zb, a = Valid x za /\ b = Valid y zb /\ x <= y.
Proof.
  destruct a as [x za|], b as [y zb|]; cbn; try contradiction.
  intro H. now exists x, y, za, zb.
Qed.

(** C6 (amended).  For every chronologically sorted sequence of one
    user's events (timestamps valid and ascending), the loop emits at
    most as many pairs as the sequence has [out] events, and every
    emitted pair is built from an [in] event and a later [out] event of
    the sequence whose timestamp is not before the [in] event's, with
    duration max(0, outTime - inTime). *)
Theorem pairs_of_chronological_sequence
    (evs : list Ev.t) (Hchron : chronological evs) :
  (length (pairs (pairLoop formatIn userId evs))
   <= length (filter isOut evs))%nat /\
  Forall (fun p => exists f s tin tout zin zout,
            occursBefore evs f s /\ isIn f = true /\ isOut s = true /\
            p = mkPair formatIn userId f s /\
            Ev.ts f = Valid tin zin /\ Ev.ts s = Valid tout zout /\
            tin <= tout /\
            Pair.totalMs p = JS.Num (Z.max 0 (tout - tin)))
         (pairs (pairLoop formatIn userId evs)).
Proof.
  split; [apply pairs_at_most_outs|].
  destruct (pairLoop_origin evs) as [_ H].
  eapply Forall_impl; [|exact H].
  intros p (f & s & Hb & Hf & Hs & ->).
  pose proof (chronological_before evs f s Hchron Hb) as Hle.
  apply ts_le_valid in Hle as (x & y & za & zb & Ef & Es & Hxy).
  exists f, s, x, y, za, zb. repeat split; auto.
  cbn [Pair.totalMs mkPair]. unfold durationMs.
  now rewrite Ef, Es; cbn [toMillis]; rewrite sub_Num, Math_max_0_Num.
Qed.

End PairOrigin.

(* ------------------------------------------------------------------ *)
(** ** Grouping by user *)
(* ------------------------------------------------------------------ *)

Section GroupingFacts.

Lemma eventsOf_push (k k' : string) (ev : Ev.t)
    (m : list (string * list Ev.t)) :
  eventsOf k' (push k ev m) =
    if String.eqb k k' then eventsOf k' m ++ [ev] else eventsOf k' m.
Proof.
  induction m as [|[k0 evs] m IH]; cbn [push eventsOf].
  - destruct (String.eqb k k'); reflexivity.
  - destruct (String.eqb k0 k) eqn:E0; cbn [eventsOf].
    + apply String.eqb_eq in E0; subst k0.
      destruct (String.eqb k k'); reflexivity.
    + rewrite IH. destruct (String.eqb k0 k') eqn:E1; [|reflexivity].
      apply String.eqb_eq in E1; subst k0.
      rewrite String.eqb_sym, E0. reflexivity.
Qed.

Lemma keys_push (k : string) (ev : Ev.t) (m : list (string * list Ev.t)) :
  map fst (push k ev m) =
    if in_dec string_dec k (map fst m) then map fst m else map fst m ++ [k].
Proof.
  induction m as [|[k0 evs] m IH]; cbn [push map fst].
  - destruct (in_dec _ _ _) as [[]|]; reflexivity.
  - destruct (String.eqb k0 k) eqn:E0; cbn [map fst].
    + apply String.eqb_eq in E0; subst k0. clear IH.
      destruct (in_dec string_dec k (k :: map fst m)) as [|n]; [reflexivity|].
      exfalso; apply n; now left.
    + apply String.eqb_neq in E0. rewrite IH.
      destruct (in_dec string_dec k (map fst m)) as [i|n],
               (in_dec string_dec k (k0 :: map fst m)) as [i'|n'];
        try reflexivity.
      * exfalso; apply n'; now right.
      * destruct i' as [->|]; [congruence | contradiction].
Qed.

Lemma keys_push_NoDup (k : string) (ev : Ev.t)
    (m : list (string * list Ev.t)) :
  NoDup (map fst m) -> NoDup (map fst (push k ev m)).
Proof.
  intro H. rewrite keys_push.
  destruct (in_dec _ _ _) as [|n]; [exact H|].
  apply NoDup_rev in H. rewrite <- (rev_involutive (_ ++ _)).
  apply NoDup_rev. rewrite rev_app_distr. cbn.
  constructor; [now rewrite <- in_rev | exact H].
Qed.

Lemma fold_push_keys_NoDup (l : list Ev.t) (m : list (string * list Ev.t)) :
  NoDup (map fst m) ->
  NoDup (map fst (fold_left (fun byUser ev => push (Ev.userId ev) ev byUser)
                            l m)).
Proof.
  revert m. induction l as [|ev l IH]; intros m H; [exact H|].
  cbn [fold_left]. apply IH. now apply keys_push_NoDup.
Qed.

Lemma fold_push_eventsOf (k : string) (l : list Ev.t)
    (m : list (string * list Ev.t)) :
  eventsOf k (fold_left (fun byUser ev => push (Ev.userId ev) ev byUser) l m) =
    eventsOf k m ++ filter (ofUser k) l.
Proof.
  revert m. induction l as [|ev l IH]; intro m; cbn [fold_left filter].
  - now rewrite app_nil_r.
  - rewrite IH, eventsOf_push. unfold ofUser at 2.
    destruct (String.eqb (Ev.userId ev) k); [|reflexivity].
    now rewrite <- app_assoc.
Qed.

Lemma fold_push_keys (k : string) (l : list Ev.t)
    (m : list (string * list Ev.t)) :
  In k (map fst (fold_left (fun byUser ev => push (Ev.userId ev) ev byUser) l m))
  <-> In k (map fst m) \/ exists ev, In ev l /\ Ev.userId ev = k.
Proof.
  revert m. induction l as [|ev l IH]; intro m; cbn [fold_left].
  - split; [auto | intros [H|(ev & [] & _)]; exact H].
  - rewrite IH, keys_push. split.
    + intros [H|(e & He & Hk)].
      * destruct (in_dec _ _ _); [now left|].
        apply in_app_or in H as [H|[<-|[]]]; [now left|].
        right; exists ev; split; [now left | reflexivity].
      * right; exists e; split; [now right | exact Hk].
    + intros [H|(e & [<-|He] & Hk)].
      * left. destruct (in_dec _ _ _); [exact H | apply in_or_app; now left].
      * left. subst k. destruct (in_dec _ _ _) as [i|]; [exact i|].
        apply in_or_app; right; now left.
      * right; now exists e.
Qed.

Lemma groupByUser_NoDup (l : list Ev.t) : NoDup (map fst (groupByUser l)).
Proof. apply fold_push_keys_NoDup. constructor. Qed.

Lemma eventsOf_groupByUser (k : string) (l : list Ev.t) :
  eventsOf k (groupByUser l) = filter (ofUser k) l.
Proof. unfold groupByUser. now rewrite fold_push_eventsOf. Qed.

Lemma eventsOf_entry (k : string) (evs : list Ev.t)
    (m : list (string * list Ev.t)) :
  NoDup (map fst m) -> In (k, evs) m -> eventsOf k m = evs.
Proof.
  induction m as [|[k0 evs0] m IH]; intros Hnd Hin; [contradiction|].
  cbn [map fst] in Hnd. inversion Hnd as [|? ? Hk0 Hnd']; subst.
  cbn [eventsOf]. destruct Hin as [[= -> ->]|Hin].
  - now rewrite String.eqb_refl.
  - destruct (String.eqb k0 k) eqn:E; [|now apply IH].
    apply String.eqb_eq in E; subst k0. exfalso; apply Hk0.
    change k with (fst (k, evs)). now apply in_map.
Qed.

Lemma entry_of_key (k : string) (m : list (string * list Ev.t)) :
  In k (map fst m) -> In (k, eventsOf k m) m.
Proof.
  induction m as [|[k0 evs0] m IH]; intro H; [contradiction|].
  cbn [eventsOf]. destruct (String.eqb k0 k) eqn:E.
  - apply String.eqb_eq in E; subst k0. now left.
  - right. apply IH. destruct H as [H|H]; [|exact H].
    cbn in H. subst k0. now rewrite String.eqb_refl in E.
Qed.

(** An entry of [byUser] holds the user's events, in their order. *)
Lemma groupByUser_entry (l : list Ev.t) (k : string) (evs : list Ev.t) :
  In (k, evs) (groupByUser l) -> evs = filter (ofUser k) l.
Proof.
  intro H. rewrite <- eventsOf_groupByUser. symmetry.
  apply eventsOf_entry; [apply groupByUser_NoDup | exact H].
Qed.

(** Every event is in the entry of its user. *)
Lemma groupByUser_covers (l : list Ev.t) (ev : Ev.t) :
  In ev l ->
  In (Ev.userId ev, filter (ofUser (Ev.userId ev)) l) (groupByUser l).
Proof.
  intro H. rewrite <- eventsOf_groupByUser. apply entry_of_key.
  apply fold_push_keys. right. now exists ev.
Qed.

Lemma entries_agree (l : list Ev.t) (k : string) (a b : list Ev.t) :
  In (k, a) (groupByUser l) -> In (k, b) (groupByUser l) -> a = b.
Proof.
  intros Ha Hb. apply groupByUser_entry in Ha, Hb. congruence.
Qed.

End GroupingFacts.

(* ------------------------------------------------------------------ *)
(** ** The filter chain *)
(* ------------------------------------------------------------------ *)

Lemma filter_map_swap {A B : Type} (f : A -> B) (p : B -> bool) (l : list A) :
  filter p (map f l) = map f (filter (fun x => p (f x)) l).
Proof.
  induction l as [|x l IH]; [reflexivity|].
  cbn [map filter]. destruct (p (f x)); cbn [map]; now rewrite IH.
Qed.

Lemma filter_filter {A : Type} (p q : A -> bool) (l : list A) :
  filter q (filter p l) = filter (fun x => p x && q x) l.
Proof.
  induction l as [|x l IH]; [reflexivity|].
  cbn [filter]. destruct (p x); cbn [filter andb]; now rewrite IH.
Qed.

Lemma str_or_empty (s : string) : JS.str_or s "" = s.
Proof.
  unfold JS.str_or. destruct (String.eqb s "") eqn:E; [|reflexivity].
  apply String.eqb_eq in E. now subst.
Qed.

Section FilterFacts.
Variable parseISO : string -> option Z.
Variable door_id tz : string.
Variable door : Door.t.

Lemma keep_normalize (e : Raw.Event) :
  keep (normalize parseISO tz door e) = rawDirectional e || rawAPB e.
Proof.
  unfold keep, isAPB, rawDirectional, rawAPB.
  cbn [Ev.direction Ev.event_type normalize].
  now rewrite str_or_empty.
Qed.

Lemma isAPB_normalize (e : Raw.Event) :
  isAPB (normalize parseISO tz door e) = rawAPB e.
Proof.
  unfold isAPB, rawAPB. cbn [Ev.event_type normalize].
  now rewrite str_or_empty.
Qed.

(** C1 (amended).  The filter stage returns, in the original relative
    order, the normalised form of exactly those raw events whose door
    identifier matches the target door AND whose direction is [in] or
    [out] or whose event type starts with [DOOR_APB_]: the door test
    applies to APB-typed events as well. *)
Theorem filterStage_door_and_relevant (rawEvents : list Raw.Event) :
  filterStage parseISO door_id tz door rawEvents =
    map (normalize parseISO tz door)
        (filter (fun e => doorMatches door_id e && (rawDirectional e || rawAPB e))
                rawEvents).
Proof.
  unfold filterStage. rewrite filter_map_swap, filter_filter.
  f_equal. apply filter_ext. intro e. now rewrite keep_normalize.
Qed.

(** An event of another door contributes nothing, APB-typed or not. *)
Lemma other_door_event_ignored (before after : list Raw.Event) (e : Raw.Event) :
  doorMatches door_id e = false ->
  filterStage parseISO door_id tz door (before ++ e :: after) =
    filterStage parseISO door_id tz door (before ++ after).
Proof.
  intro H. unfold filterStage. rewrite (filter_app _ before (e :: after)).
  cbn [filter]. now rewrite H, <- filter_app.
Qed.

Lemma filterStage_In (rawEvents : list Raw.Event) (e : Raw.Event) :
  In e rawEvents -> doorMatches door_id e = true ->
  rawDirectional e || rawAPB e = true ->
  In (normalize parseISO tz door e)
     (filterStage parseISO door_id tz door rawEvents).
Proof.
  intros Hin Hd Hk. unfold filterStage. apply filter_In. split.
  - apply in_map, filter_In. now split.
  - now rewrite keep_normalize.
Qed.

Lemma filtered_In (rawEvents : list Raw.Event) (ev : Ev.t) :
  In ev (filtered parseISO door_id tz door rawEvents) <->
  In ev (filterStage parseISO door_id tz door rawEvents).
Proof. apply sort_In. Qed.

(** When every fetched timestamp parses, the sorted list and every
    user's entry are chronological. *)
Lemma normalize_valid (e : Raw.Event) :
  parses parseISO e -> validTs (normalize parseISO tz door e).
Proof.
  intros (s & ms & Hs & Hp). exists ms, tz.
  cbn [Ev.ts normalize]. unfold fromISO. now rewrite Hs, Hp.
Qed.

Lemma filterStage_valid (rawEvents : list Raw.Event) :
  Forall (parses parseISO) rawEvents ->
  Forall validTs (filterStage parseISO door_id tz door rawEvents).
Proof.
  intro H. unfold filterStage.
  rewrite Forall_forall in *. intros ev Hev.
  apply filter_In in Hev as [Hev _].
  apply in_map_iff in Hev as (e & <- & He). apply filter_In in He as [He _].
  apply normalize_valid. auto.
Qed.

End FilterFacts.

Lemma after_byTime (a b : Ev.t) (x y : Z) (za zb : string) :
  Ev.ts a = Valid x za -> Ev.ts b = Valid y zb ->
  JS.after byTime a b = (y <? x).
Proof.
  intros Ha Hb. unfold JS.after, byTime. rewrite Ha, Hb. cbn [toMillis].
  rewrite sub_Num, gt_Num. destruct (y <? x) eqn:E1, (0 <? x - y) eqn:E2; lia.
Qed.

Lemma sort_byTime_chronological (l : list Ev.t) :
  Forall validTs l -> chronological (JS.sort byTime l).
Proof.
  intro Hv.
  pose proof (sort_dom byTime validTs l Hv) as Hd.
  assert (Hs : StronglySorted (JS.precedes byTime)
                              (JS.sort byTime l)).
  { apply (sort_sorted byTime validTs); [| |exact Hv].
    - intros a b (x & za & Ha) (y & zb & Hb).
      rewrite (after_byTime a b x y za zb), (after_byTime b a y x zb za)
        by assumption.
      lia.
    - intros a b c (x & za & Ha) (y & zb & Hb) (z & zc & Hc).
      rewrite (after_byTime a b x y za zb), (after_byTime b c y z zb zc),
        (after_byTime a c x z za zc) by assumption.
      lia. }
  unfold chronological.
  induction Hs as [|a l' Hs IH Hall]; constructor.
  - apply IH. now inversion Hd.
  - inversion Hd as [|? ? Ha Hd']; subst.
    rewrite Forall_forall in *. intros b Hb.
    destruct Ha as (x & za & Ha). destruct (Hd' b Hb) as (y & zb & Hb').
    specialize (Hall b Hb). unfold JS.precedes in Hall.
    rewrite (after_byTime a b x y za zb) in Hall by assumption.
    rewrite Ha, Hb'. cbn. lia.
Qed.

Lemma chronological_filter (p : Ev.t -> bool) (l : list Ev.t) :
  chronological l -> chronological (filter p l).
Proof.
  unfold chronological. induction 1 as [|a l Hs IH Hall]; cbn [filter].
  - constructor.
  - destruct (p a); [|exact IH]. constructor; [exact IH|].
    rewrite Forall_forall in *. intros b Hb. apply Hall.
    now apply filter_In in Hb.
Qed.

(** The sequences the pairing loop receives are chronological when the
    fetched timestamps parse. *)
Lemma groups_chronological (parseISO : string -> option Z)
    (door_id tz : string) (door : Door.t) (rawEvents : list Raw.Event)
    (u : string) (evs : list Ev.t) :
  Forall (parses parseISO) rawEvents ->
  In (u, evs) (groupByUser (filtered parseISO door_id tz door rawEvents)) ->
  chronological evs.
Proof.
  intros Hp Hin. apply groupByUser_entry in Hin. subst evs.
  apply chronological_filter, sort_byTime_chronological.
  now apply filterStage_valid.
Qed.

(* ------------------------------------------------------------------ *)
(** ** Totals, inclusion and ordering *)
(* ------------------------------------------------------------------ *)

Lemma durationMs_like (first second : Ev.t) :
  durationLike (durationMs first second).
Proof.
  unfold durationMs.
  destruct (Ev.ts first) as [x zx|], (Ev.ts second) as [y zy|]; cbn [toMillis];
    try (right; reflexivity).
  left. rewrite sub_Num, Math_max_0_Num. exists (Z.max 0 (y - x)).
  split; [reflexivity | lia].
Qed.

Lemma durationMs_valid (first second : Ev.t) :
  validTs first -> validTs second ->
  exists t, durationMs first second = JS.Num t /\ 0 <= t.
Proof.
  intros (x & zx & Hx) (y & zy & Hy). unfold durationMs. rewrite Hx, Hy.
  cbn [toMillis]. rewrite sub_Num, Math_max_0_Num.
  exists (Z.max 0 (y - x)). split; [reflexivity | lia].
Qed.

Lemma fold_add_like (ps : list Pair.t) (acc : JS.number) :
  Forall (fun p => durationLike (Pair.totalMs p)) ps -> durationLike acc ->
  durationLike (fold_left (fun sum p => JS.add sum (Pair.totalMs p)) ps acc).
Proof.
  intro H. revert acc.
  induction H as [|p ps Hp _ IH]; intros acc Hacc; [exact Hacc|].
  cbn [fold_left]. apply IH.
  destruct Hacc as [(a & -> & Ha)| ->], Hp as [(t & -> & Ht)| ->];
    try (right; reflexivity).
  left. exists (a + t). split; [reflexivity | lia].
Qed.

Lemma fold_add_num (ps : list Pair.t) (a : Z) :
  Forall (fun p => exists t, Pair.totalMs p = JS.Num t /\ 0 <= t) ps -> 0 <= a ->
  exists t, fold_left (fun sum p => JS.add sum (Pair.totalMs p)) ps (JS.Num a)
            = JS.Num t /\ 0 <= t.
Proof.
  intro H. revert a. induction H as [|p ps (t & Hp & Ht) _ IH]; intros a Ha.
  - now exists a.
  - cbn [fold_left]. rewrite Hp. cbn [JS.add]. apply IH. lia.
Qed.

Lemma fold_add_durations (ps : list Pair.t) (ds : list Z) (a : Z) :
  map Pair.totalMs ps = map JS.Num ds ->
  fold_left (fun sum p => JS.add sum (Pair.totalMs p)) ps (JS.Num a)
    = JS.Num (a + fold_right Z.add 0 ds).
Proof.
  revert ds a. induction ps as [|p ps IH]; intros [|d ds] a H;
    try discriminate H.
  - cbn. f_equal. lia.
  - cbn [map] in H. injection H as Hp Hps. cbn [fold_left fold_right].
    rewrite Hp. cbn [JS.add]. rewrite (IH ds _ Hps). f_equal. lia.
Qed.

Lemma sum_of_durations (ps : list Pair.t) (ds : list Z) :
  map Pair.totalMs ps = map JS.Num ds ->
  sumTotalMs ps = JS.Num (fold_right Z.add 0 ds).
Proof. intro H. unfold sumTotalMs. now rewrite (fold_add_durations ps ds 0 H). Qed.

Lemma add_NaN_r (a : JS.number) : JS.add a JS.NaN = JS.NaN.
Proof. now destruct a. Qed.

Lemma fold_add_from_NaN (ps : list Pair.t) :
  fold_left (fun sum p => JS.add sum (Pair.totalMs p)) ps JS.NaN = JS.NaN.
Proof. induction ps as [|p ps IH]; [reflexivity | exact IH]. Qed.

Lemma sum_with_NaN (ps : list Pair.t) :
  In JS.NaN (map Pair.totalMs ps) -> sumTotalMs ps = JS.NaN.
Proof.
  unfold sumTotalMs. generalize (JS.Num 0).
  induction ps as [|p ps IH]; intros acc H; [contradiction|].
  cbn [fold_left]. destruct H as [H|H].
  - rewrite H, add_NaN_r. apply fold_add_from_NaN.
  - now apply IH.
Qed.

Lemma durations_numbers_or_NaN (ps : list Pair.t) :
  Forall (fun p => durationLike (Pair.totalMs p)) ps ->
  (exists ds, map Pair.totalMs ps = map JS.Num ds /\ Forall (fun d => 0 <= d) ds)
  \/ In JS.NaN (map Pair.totalMs ps).
Proof.
  induction 1 as [|p ps Hp _ IH].
  - left. exists []. split; [reflexivity | constructor].
  - destruct Hp as [(t & Ht & Hpos)|Hn].
    + destruct IH as [(ds & Hds & Hall)|Hin].
      * left. exists (t :: ds). cbn [map]. rewrite Ht, Hds. split; auto.
      * right. now right.
    + right. left. exact Hn.
Qed.

Section AggregateFacts.
Variable parseISO : string -> option Z.
Variable formatIn : string -> string -> Z -> string.

Lemma total_like (u : string) (evs : list Ev.t) :
  durationLike (sumTotalMs (pairs (pairLoop formatIn u evs))).
Proof.
  apply fold_add_like; [|left; exists 0; split; [reflexivity | lia]].
  destruct (pairLoop_origin formatIn u evs) as [_ H].
  eapply Forall_impl; [|exact H].
  intros p (f & s & _ & _ & _ & ->). apply durationMs_like.
Qed.

Lemma total_numeric (u : string) (evs : list Ev.t) :
  Forall validTs evs ->
  exists t, sumTotalMs (pairs (pairLoop formatIn u evs)) = JS.Num t /\ 0 <= t.
Proof.
  intro Hv. apply fold_add_num; [|lia].
  destruct (pairLoop_origin formatIn u evs) as [_ H].
  eapply Forall_impl; [|exact H].
  intros p (f & s & Hb & _ & _ & ->).
  apply occursBefore_In in Hb as [Hf Hs]. rewrite Forall_forall in Hv.
  apply durationMs_valid; auto.
Qed.

Lemma ge_threshold (total : JS.number) (m : Z) :
  durationLike total ->
  (JS.ge total (thresholdMs (JS.Num m)) = true
   <-> exists t, total = JS.Num t /\ m * 60000 <= t).
Proof.
  unfold thresholdMs, JS.ge, JS.mul_lit.
  intros [(t & -> & Ht)| ->]; cbn [JS.gt JS.strict_eq].
  - split.
    + intro H. exists t. split; [reflexivity|].
      apply orb_true_iff in H as [H|H]; lia.
    + intros (t' & [= <-] & H). apply orb_true_iff.
      destruct (Z.eq_dec t (m * 60 * 1000)); [right | left]; lia.
  - split; [discriminate | intros (t & [=] & _)].
Qed.

Lemma nonempty_length {X : Type} (l : list X) :
  (0 <? length l)%nat = true <-> l <> [].
Proof.
  destruct l; cbn; split; intro H; try congruence; try discriminate; reflexivity.
Qed.

Lemma included_iff (m : Z) (u : string) (evs : list Ev.t) :
  included (JS.Num m) (sumTotalMs (pairs (pairLoop formatIn u evs)))
           (violations (pairLoop formatIn u evs)) = true
  <-> (exists t, sumTotalMs (pairs (pairLoop formatIn u evs)) = JS.Num t
                 /\ m * 60000 <= t)
      \/ violations (pairLoop formatIn u evs) <> [].
Proof.
  unfold included.
  rewrite orb_true_iff, nonempty_length, ge_threshold by apply total_like.
  reflexivity.
Qed.

Lemma collect_In (minMinutes : JS.number) (byUser : list (string * list Ev.t))
    (r : Report.t) :
  In r (collect formatIn minMinutes byUser) <->
  exists u evs, In (u, evs) byUser /\
    included minMinutes (sumTotalMs (pairs (pairLoop formatIn u evs)))
             (violations (pairLoop formatIn u evs)) = true /\
    r = mkReport u evs (pairLoop formatIn u evs).
Proof.
  unfold collect. rewrite in_flat_map. split.
  - intros ([u evs] & Hin & Hr). unfold userReport in Hr. cbn [fst snd] in Hr.
    destruct (included _ _ _) eqn:E; [|contradiction].
    destruct Hr as [<-|[]]. now exists u, evs.
  - intros (u & evs & Hin & Hinc & ->). exists (u, evs). split; [exact Hin|].
    unfold userReport. cbn [fst snd]. rewrite Hinc. now left.
Qed.

Lemma pair_durations_like (u : string) (evs : list Ev.t) :
  Forall (fun p => durationLike (Pair.totalMs p))
         (pairs (pairLoop formatIn u evs)).
Proof.
  destruct (pairLoop_origin formatIn u evs) as [_ H].
  eapply Forall_impl; [|exact H].
  intros p (f & s & _ & _ & _ & ->). apply durationMs_like.
Qed.

(** A total that is a number is the sum of durations that are numbers. *)
Lemma total_by_durations (u : string) (evs : list Ev.t) (t : Z) :
  sumTotalMs (pairs (pairLoop formatIn u evs)) = JS.Num t <->
  exists ds, map Pair.totalMs (pairs (pairLoop formatIn u evs)) = map JS.Num ds
             /\ fold_right Z.add 0 ds = t.
Proof.
  split.
  - intro Ht.
    destruct (durations_numbers_or_NaN _ (pair_durations_like u evs))
      as [(ds & Hds & _)|Hn].
    + exists ds. split; [exact Hds|].
      rewrite (sum_of_durations _ _ Hds) in Ht. now injection Ht.
    + rewrite (sum_with_NaN _ Hn) in Ht. discriminate Ht.
  - intros (ds & Hds & <-). now apply sum_of_durations.
Qed.

Lemma collectAt_In (minMinutes : float) (byUser : list (string * list Ev.t))
    (r : Report.t) :
  In r (collectAt formatIn minMinutes byUser) <->
  exists u evs, In (u, evs) byUser /\
    includedAt minMinutes (sumTotalMs (pairs (pairLoop formatIn u evs)))
               (violations (pairLoop formatIn u evs)) = true /\
    r = mkReport u evs (pairLoop formatIn u evs).
Proof.
  unfold collectAt. rewrite in_flat_map. split.
  - intros ([u evs] & Hin & Hr). unfold userReportAt in Hr. cbn [fst snd] in Hr.
    destruct (includedAt _ _ _) eqn:E; [|contradiction].
    destruct Hr as [<-|[]]. now exists u, evs.
  - intros (u & evs & Hin & Hinc & ->). exists (u, evs). split; [exact Hin|].
    unfold userReportAt. cbn [fst snd]. rewrite Hinc. now left.
Qed.

(** The reports of the final list that belong to a key of [byUser]. *)
Lemma reported_iff_included (minMinutes : JS.number) (door_id tz : string)
    (door : Door.t) (rawEvents : list Raw.Event) (u : string) (evs : list Ev.t) :
  In (u, evs) (groupByUser (filtered parseISO door_id tz door rawEvents)) ->
  forall r,
    (In r (results parseISO formatIn minMinutes door_id tz door rawEvents)
     /\ Report.userId r = u)
    <-> (included minMinutes (sumTotalMs (pairs (pairLoop formatIn u evs)))
                  (violations (pairLoop formatIn u evs)) = true
         /\ r = mkReport u evs (pairLoop formatIn u evs)).
Proof.
  intros Hentry r. unfold results. rewrite sort_In, collect_In. split.
  - intros ((u' & evs' & Hin' & Hinc & ->) & Hu).
    cbn [Report.userId mkReport] in Hu. subst u'.
    rewrite (entries_agree _ _ _ _ Hentry Hin'). auto.
  - intros (Hinc & ->). split; [now exists u, evs | reflexivity].
Qed.

Lemma reportedAt_iff_included (minMinutes : float) (door_id tz : string)
    (door : Door.t) (rawEvents : list Raw.Event) (u : string) (evs : list Ev.t) :
  In (u, evs) (groupByUser (filtered parseISO door_id tz door rawEvents)) ->
  forall r,
    (In r (resultsAt parseISO formatIn minMinutes door_id tz door rawEvents)
     /\ Report.userId r = u)
    <-> (includedAt minMinutes (sumTotalMs (pairs (pairLoop formatIn u evs)))
                    (violations (pairLoop formatIn u evs)) = true
         /\ r = mkReport u evs (pairLoop formatIn u evs)).
Proof.
  intros Hentry r. unfold resultsAt. rewrite sort_In, collectAt_In. split.
  - intros ((u' & evs' & Hin' & Hinc & ->) & Hu).
    cbn [Report.userId mkReport] in Hu. subst u'.
    rewrite (entries_agree _ _ _ _ Hentry Hin'). auto.
  - intros (Hinc & ->). split; [now exists u, evs | reflexivity].
Qed.

(** The inclusion test on a whole number of minutes, read on the
    durations of the pairs. *)
Lemma included_by_durations (m : Z) (u : string) (evs : list Ev.t) :
  included (JS.Num m) (sumTotalMs (pairs (pairLoop formatIn u evs)))
           (violations (pairLoop formatIn u evs)) = true
  <-> (exists ds,
          map Pair.totalMs (pairs (pairLoop formatIn u evs)) = map JS.Num ds
          /\ m * 60000 <= fold_right Z.add 0 ds)
      \/ violations (pairLoop formatIn u evs) <> [].
Proof.
  rewrite included_iff. split; (intros [H|H]; [left | now right]).
  - destruct H as (t & Ht & Hm). apply total_by_durations in Ht
      as (ds & Hds & <-). now exists ds.
  - destruct H as (ds & Hds & Hm). exists (fold_right Z.add 0 ds).
    split; [|exact Hm]. apply total_by_durations. now exists ds.
Qed.

Lemma includedAt_by_durations (f : float) (u : string) (evs : list Ev.t) :
  includedAt f (sumTotalMs (pairs (pairLoop formatIn u evs)))
             (violations (pairLoop formatIn u evs)) = true
  <-> (exists ds,
          map Pair.totalMs (pairs (pairLoop formatIn u evs)) = map JS.Num ds
          /\ (f * 60 * 1000 <=? JS.toDouble (JS.Num (fold_right Z.add 0%Z ds)))%float
             = true)
      \/ violations (pairLoop formatIn u evs) <> [].
Proof.
  unfold includedAt. rewrite orb_true_iff, nonempty_length.
  split; (intros [H|H]; [left | now right]).
  - destruct (total_like u evs) as [(t & Ht & _)|Hn].
    + rewrite Ht in H. apply total_by_durations in Ht as (ds & Hds & <-).
      exists ds. split; [exact Hds | exact H].
    + rewrite Hn in H. discriminate H.
  - destruct H as (ds & Hds & Hle).
    rewrite (sum_of_durations _ _ Hds). exact Hle.
Qed.

(** C7.  A user with an event in the sorted event list, whose events are
    the user's entry in [byUser], has a report in the final list
    if and only if the pair durations are all numbers and their sum
    reaches the threshold, or the user has at least one violation
    record.  For a whole number of minutes the threshold is the minutes
    times 60000; for any other double it is the product
    [minMinutes * 60 * 1000] as binary64 computes it.  The report of the
    user carries the user's pairs and violation records, and as total
    the sum of the pair durations (NaN if one of them is NaN).  A user
    whose total is 0 and who has a violation is reported with total
    label "0m". *)
Theorem inclusion_rule
    (door_id tz : string) (door : Door.t) (rawEvents : list Raw.Event)
    (ev : Ev.t)
    (Hev : In ev (filtered parseISO door_id tz door rawEvents)) :
  let u := Ev.userId ev in
  let evs := filter (ofUser u) (filtered parseISO door_id tz door rawEvents) in
  (forall m : Z,
     (exists r,
         In r (results parseISO formatIn (JS.Num m) door_id tz door rawEvents)
         /\ Report.userId r = u)
     <-> ((exists ds,
             map Pair.totalMs (pairs (pairLoop formatIn u evs)) = map JS.Num ds
             /\ m * 60000 <= fold_right Z.add 0 ds)
          \/ violations (pairLoop formatIn u evs) <> [])) /\
  (forall f : float,
     (exists r,
         In r (resultsAt parseISO formatIn f door_id tz door rawEvents)
         /\ Report.userId r = u)
     <-> ((exists ds,
             map Pair.totalMs (pairs (pairLoop formatIn u evs)) = map JS.Num ds
             /\ (f * 60 * 1000
                 <=? JS.toDouble (JS.Num (fold_right Z.add 0%Z ds)))%float = true)
          \/ violations (pairLoop formatIn u evs) <> [])) /\
  (forall (m : Z) (f : float) (r : Report.t),
     (In r (results parseISO formatIn (JS.Num m) door_id tz door rawEvents)
      \/ In r (resultsAt parseISO formatIn f door_id tz door rawEvents)) ->
     Report.userId r = u ->
     Report.pairs r = pairs (pairLoop formatIn u evs) /\
     Report.violations r = violations (pairLoop formatIn u evs) /\
     Report.totalLabel r = msToHMM (Report.totalMs r) /\
     (forall ds,
        map Pair.totalMs (Report.pairs r) = map JS.Num ds ->
        Report.totalMs r = JS.Num (fold_right Z.add 0 ds)) /\
     (In JS.NaN (map Pair.totalMs (Report.pairs r)) ->
      Report.totalMs r = JS.NaN)) /\
  (forall (m : Z) (ds : list Z),
     map Pair.totalMs (pairs (pairLoop formatIn u evs)) = map JS.Num ds ->
     fold_right Z.add 0 ds = 0 ->
     violations (pairLoop formatIn u evs) <> [] ->
     exists r,
       In r (results parseISO formatIn (JS.Num m) door_id tz door rawEvents)
       /\ Report.userId r = u
       /\ Report.totalMs r = JS.Num 0
       /\ Report.totalLabel r = "0m"
       /\ Report.violations r = violations (pairLoop formatIn u evs)).
Proof.
  intros u evs.
  assert (Hentry : In (u, evs)
            (groupByUser (filtered parseISO door_id tz door rawEvents)))
    by (apply groupByUser_covers; exact Hev).
  split; [|split; [|split]].
  - intro m. rewrite <- included_by_durations. split.
    + intros (r & Hr). now apply (reported_iff_included _ _ _ _ _ _ _ Hentry) in Hr.
    + intro Hinc. exists (mkReport u evs (pairLoop formatIn u evs)).
      now apply (reported_iff_included _ _ _ _ _ _ _ Hentry).
  - intro f. rewrite <- includedAt_by_durations. split.
    + intros (r & Hr).
      now apply (reportedAt_iff_included _ _ _ _ _ _ _ Hentry) in Hr.
    + intro Hinc. exists (mkReport u evs (pairLoop formatIn u evs)).
      now apply (reportedAt_iff_included _ _ _ _ _ _ _ Hentry).
  - intros m f r Hr Hu.
    assert (E : r = mkReport u evs (pairLoop formatIn u evs)).
    { destruct Hr as [Hr|Hr].
      - now apply (reported_iff_included (JS.Num m) _ _ _ _ _ _ Hentry r).
      - now apply (reportedAt_iff_included f _ _ _ _ _ _ Hentry r). }
    subst r. cbn [mkReport Report.pairs Report.violations Report.totalLabel
                  Report.totalMs].
    repeat split.
    + apply sum_of_durations.
    + apply sum_with_NaN.
  - intros m ds Hds H0 Hv.
    exists (mkReport u evs (pairLoop formatIn u evs)). split.
    + apply (reported_iff_included _ _ _ _ _ _ _ Hentry). split; [|reflexivity].
      apply included_by_durations. now right.
    + cbn [mkReport Report.userId Report.totalMs Report.totalLabel
           Report.violations].
      rewrite (sum_of_durations _ _ Hds), H0. repeat split.
Qed.

End AggregateFacts.

Section OrderingFacts.
Variable parseISO : string -> option Z.
Variable formatIn : string -> string -> Z -> string.

Lemma numericTotal_Num (r : Report.t) :
  numericTotal r -> exists t, Report.totalMs r = JS.Num t.
Proof.
  unfold numericTotal. destruct (Report.totalMs r) as [t| |]; try discriminate.
  now exists t.
Qed.

Lemma after_byTotal (a b : Report.t) (x y : Z) :
  Report.totalMs a = JS.Num x -> Report.totalMs b = JS.Num y ->
  JS.after byTotal a b =
    if y =? x then violationCount a <? violationCount b else x <? y.
Proof.
  intros Ha Hb. unfold JS.after, byTotal. rewrite Ha, Hb.
  cbn [JS.strict_eq]. fold (violationCount a) (violationCount b).
  destruct (y =? x) eqn:E; cbn [negb].
  - rewrite gt_Num.
    destruct (0 <? violationCount b - violationCount a) eqn:E1,
             (violationCount a <? violationCount b) eqn:E2; lia.
  - rewrite sub_Num, gt_Num.
    destruct (0 <? y - x) eqn:E1, (x <? y) eqn:E2; lia.
Qed.

Lemma precedes_ranksBefore (a b : Report.t) :
  numericTotal a -> numericTotal b ->
  (JS.precedes byTotal a b <-> ranksBefore a b).
Proof.
  intros Ha Hb. unfold JS.precedes.
  destruct (numericTotal_Num a Ha) as (x & Hx),
           (numericTotal_Num b Hb) as (y & Hy).
  rewrite (after_byTotal a b x y Hx Hy). unfold ranksBefore. rewrite Hx, Hy.
  destruct (y =? x) eqn:E.
  - rewrite Z.ltb_ge. lia.
  - rewrite Z.ltb_ge. lia.
Qed.

(** C8 (amended).  When every collected report has a numeric total (no
    pair was built from an unparsable timestamp), the final list is a
    rearrangement of the collected reports in which every report ranks
    before all later ones: a larger total first and, for equal totals,
    a violation count at least as large; the reports that tie on both
    keys keep their relative (grouping insertion) order.  In
    particular, of two reports with equal totals, the one with fewer
    violations never stands before the one with more. *)
Theorem results_ordered
    (minMinutes : JS.number) (door_id tz : string) (door : Door.t)
    (rawEvents : list Raw.Event)
    (Hnum : Forall numericTotal
              (collect formatIn minMinutes
                 (groupByUser (filtered parseISO door_id tz door rawEvents)))) :
  let unsorted :=
    collect formatIn minMinutes
      (groupByUser (filtered parseISO door_id tz door rawEvents)) in
  let final := results parseISO formatIn minMinutes door_id tz door rawEvents in
  Permutation unsorted final /\
  StronglySorted ranksBefore final /\
  (forall k, filter (sameRank k) final = filter (sameRank k) unsorted) /\
  (forall l1 a l2 b l3,
      final = l1 ++ a :: l2 ++ b :: l3 ->
      Report.totalMs a = Report.totalMs b ->
      violationCount b <= violationCount a).
Proof.
  intros unsorted final. fold unsorted in Hnum.
  assert (Hfinal : final = JS.sort byTotal unsorted) by reflexivity.
  assert (Hdom : Forall numericTotal final)
    by (rewrite Hfinal; now apply sort_dom).
  assert (Hsorted : StronglySorted ranksBefore final).
  { assert (Hs : StronglySorted (JS.precedes byTotal) final).
    { rewrite Hfinal. apply (sort_sorted byTotal numericTotal); [| |exact Hnum].
      - intros a b Ha Hb Hab.
        destruct (numericTotal_Num a Ha) as (x & Hx),
                 (numericTotal_Num b Hb) as (y & Hy).
        rewrite (after_byTotal a b x y Hx Hy) in Hab.
        rewrite (after_byTotal b a y x Hy Hx).
        destruct (y =? x) eqn:E1, (x =? y) eqn:E2; lia.
      - intros a b c Ha Hb Hc.
        destruct (numericTotal_Num a Ha) as (x & Hx),
                 (numericTotal_Num b Hb) as (y & Hy),
                 (numericTotal_Num c Hc) as (z & Hz).
        rewrite (after_byTotal a b x y Hx Hy), (after_byTotal b c y z Hy Hz),
          (after_byTotal a c x z Hx Hz).
        destruct (y =? x) eqn:E1, (z =? y) eqn:E2, (z =? x) eqn:E3; lia. }
    clear Hfinal. induction Hs as [|a l Hs IH Hall]; constructor.
    - apply IH. now inversion Hdom.
    - inversion Hdom as [|? ? Ha Hd]; subst.
      rewrite Forall_forall in *. intros b Hb.
      apply precedes_ranksBefore; auto. }
  split; [rewrite Hfinal; apply sort_perm|].
  split; [exact Hsorted|]. split.
  - intro k. rewrite Hfinal.
    apply (sort_stable byTotal numericTotal); [|exact Hnum].
    intros a b Ha Hb Ca Cb.
    destruct (numericTotal_Num a Ha) as (x & Hx),
             (numericTotal_Num b Hb) as (y & Hy).
    rewrite (after_byTotal a b x y Hx Hy).
    unfold sameRank in Ca, Cb. rewrite Hx in Ca. rewrite Hy in Cb.
    destruct (Report.totalMs k) as [t| |]; cbn [JS.strict_eq] in Ca, Cb;
      try discriminate.
    apply andb_true_iff in Ca as [Ca1 Ca2], Cb as [Cb1 Cb2].
    replace (y =? x) with true by lia. lia.
  - intros l1 a l2 b l3 Hsplit Heq. rewrite Hsplit in Hsorted.
    clear - Hsorted Heq. induction l1 as [|c l1 IH]; cbn in Hsorted.
    + inversion Hsorted as [|? ? _ Hall]; subst.
      rewrite Forall_forall in Hall.
      assert (Hr : ranksBefore a b)
        by (apply Hall, in_or_app; right; now left).
      unfold ranksBefore in Hr. rewrite Heq in Hr.
      destruct (Report.totalMs b); try contradiction. lia.
    + inversion Hsorted; subst. auto.
Qed.

(** Every collected total is numeric when every fetched timestamp
    parses. *)
Lemma parsed_totals_numeric
    (minMinutes : JS.number) (door_id tz : string) (door : Door.t)
    (rawEvents : list Raw.Event) :
  Forall (parses parseISO) rawEvents ->
  Forall numericTotal
    (collect formatIn minMinutes
       (groupByUser (filtered parseISO door_id tz door rawEvents))).
Proof.
  intro Hp. apply Forall_forall. intros r Hr.
  apply collect_In in Hr as (u & evs & Hin & _ & ->).
  apply groupByUser_entry in Hin.
  assert (Hv : Forall validTs evs).
  { subst evs. apply Forall_forall. intros ev Hev.
    apply filter_In in Hev as [Hev _]. apply filtered_In in Hev.
    pose proof (filterStage_valid parseISO door_id tz door rawEvents Hp) as Hall.
    rewrite Forall_forall in Hall. auto. }
  destruct (total_numeric formatIn u evs Hv) as (t & Ht & _).
  unfold numericTotal. cbn [Report.totalMs mkReport]. now rewrite Ht.
Qed.

(** With parsable timestamps, the pairs of every report of the final
    list join an entry with an exit that is not earlier. *)
Lemma reported_pairs_ordered
    (minMinutes : JS.number) (door_id tz : string) (door : Door.t)
    (rawEvents : list Raw.Event) (r : Report.t) :
  Forall (parses parseISO) rawEvents ->
  In r (results parseISO formatIn minMinutes door_id tz door rawEvents) ->
  Forall (fun p => exists f s,
            p = mkPair formatIn (Report.userId r) f s /\
            isIn f = true /\ isOut s = true /\
            ts_le (Ev.ts f) (Ev.ts s))
         (Report.pairs r).
Proof.
  intros Hp Hr. apply sort_In, collect_In in Hr as (u & evs & Hin & _ & ->).
  cbn [Report.userId Report.pairs mkReport].
  pose proof (groups_chronological _ _ _ _ _ _ _ Hp Hin) as Hc.
  destruct (pairLoop_origin formatIn u evs) as [_ H].
  eapply Forall_impl; [|exact H].
  intros p (f & s & Hb & Hf & Hs & ->). exists f, s.
  repeat split; auto. now apply (chronological_before evs).
Qed.

End OrderingFacts.

(* ------------------------------------------------------------------ *)
(** ** Unparsable timestamps *)
(* ------------------------------------------------------------------ *)

Section MalformedFacts.
Variable parseISO : string -> option Z.
Variable formatIn : string -> string -> Z -> string.

Lemma durationMs_invalid_l (first second : Ev.t) :
  Ev.ts first = Invalid -> durationMs first second = JS.NaN.
Proof.
  intro H. unfold durationMs. rewrite H. cbn [toMillis].
  now destruct (toMillis (Ev.ts second)) as [z| |[]].
Qed.

Lemma durationMs_invalid_r (first second : Ev.t) :
  Ev.ts second = Invalid -> durationMs first second = JS.NaN.
Proof. intro H. unfold durationMs. now rewrite H. Qed.

(** C2 (amended).  A raw event whose timestamp does not parse is not
    dropped.  It is normalised with an invalid timestamp and, when its
    door matches and it is directional or APB-typed, it stays in the
    sorted event list like any other event; nothing is raised.  If it
    is APB-typed, its user is reported, whatever the threshold, with a
    violation record whose date and time read "Invalid DateTime"; a
    pair built from it has a NaN duration. *)
Theorem unparsable_timestamp_kept
    (door_id tz : string) (door : Door.t) (rawEvents : list Raw.Event)
    (e : Raw.Event)
    (Hin : In e rawEvents)
    (Hbad : fromISO parseISO (Raw.timestamp e) tz = Invalid)
    (Hdoor : doorMatches door_id e = true)
    (Hkeep : rawDirectional e || rawAPB e = true) :
  let ev := normalize parseISO tz door e in
  Ev.ts ev = Invalid /\
  In ev (filtered parseISO door_id tz door rawEvents) /\
  (forall u other,
      Pair.totalMs (mkPair formatIn u ev other) = JS.NaN /\
      Pair.totalMs (mkPair formatIn u other ev) = JS.NaN /\
      Stamp.date (Pair.in_ (mkPair formatIn u ev other)) = "Invalid DateTime") /\
  (rawAPB e = true ->
   forall minMinutes,
   exists r,
     In r (results parseISO formatIn minMinutes door_id tz door rawEvents) /\
     Report.userId r = Ev.userId ev /\
     In (mkViolation formatIn ev) (Report.violations r) /\
     Violation.date (mkViolation formatIn ev) = "Invalid DateTime" /\
     Violation.time (mkViolation formatIn ev) = "Invalid DateTime").
Proof.
  intro ev.
  assert (Hts : Ev.ts ev = Invalid) by exact Hbad.
  assert (Hev : In ev (filtered parseISO door_id tz door rawEvents)).
  { apply filtered_In. now apply filterStage_In. }
  split; [exact Hts|]. split; [exact Hev|]. split.
  - intros u other. cbn [Pair.totalMs Pair.in_ Stamp.date mkPair].
    rewrite durationMs_invalid_l, durationMs_invalid_r by exact Hts.
    rewrite Hts. repeat split.
  - intros Hapb minMinutes.
    set (l := filtered parseISO door_id tz door rawEvents) in *.
    set (u := Ev.userId ev). set (evs := filter (ofUser u) l).
    assert (Hentry : In (u, evs) (groupByUser l))
      by (apply groupByUser_covers; exact Hev).
    assert (Hv : In (mkViolation formatIn ev)
                    (violations (pairLoop formatIn u evs))).
    { rewrite pairLoop_violations. apply in_map, filter_In. split.
      - apply filter_In. split; [exact Hev|]. apply String.eqb_refl.
      - subst ev. now rewrite isAPB_normalize. }
    exists (mkReport u evs (pairLoop formatIn u evs)).
    split; [|split; [reflexivity|split; [exact Hv|]]].
    + apply sort_In, collect_In. exists u, evs. repeat split; [exact Hentry|].
      unfold included. apply orb_true_iff. right. apply nonempty_length.
      intro Hnil. rewrite Hnil in Hv. contradiction.
    + cbn [Violation.date Violation.time mkViolation]. rewrite Hts.
      split; reflexivity.
Qed.

End MalformedFacts.

(* ------------------------------------------------------------------ *)
(** ** The handler *)
(* ------------------------------------------------------------------ *)

Section HandlerFacts.
Variable parseISO : string -> option Z.
Variable formatIn : string -> string -> Z -> string.
Variable StringToNumber : string -> JS.number.

(** What a 200 response was computed from: the door found in the
    vendor's list, the bounds of the day in that door's zone and the
    events fetched for them. *)
Lemma breakReport_payload (q : Query) (w : World) (p : Payload) :
  body (breakReport parseISO formatIn StringToNumber q w) = Ok p ->
  exists allDoors d startUnix endUnix rawEvents,
    JS.truthy (q_door_id q) = true /\
    fetchDoors w = Some allDoors /\
    find (fun d => JS.opt_eq (Door.door_id d) (JS.or_lit (q_door_id q) ""))
         allDoors = Some d /\
    dayBounds w (JS.or_null (q_date q)) (JS.or_lit (Door.timezone d) "UTC")
      = Some (startUnix, endUnix) /\
    fetchAllAccessEvents w startUnix endUnix = Some rawEvents /\
    p = {| door := {| ds_door_id := Door.door_id d;
                      ds_name := Door.name d;
                      ds_site_name := JS.or_lit (Door.site_name d) "Unknown Site";
                      ds_timezone := JS.or_lit (Door.timezone d) "UTC" |};
           generatedRange :=
             mkRange startUnix endUnix (JS.or_lit (Door.timezone d) "UTC");
           min_minutes := minMinutesOf StringToNumber q;
           users := results parseISO formatIn (minMinutesOf StringToNumber q)
                      (JS.or_lit (q_door_id q) "")
                      (JS.or_lit (Door.timezone d) "UTC") d rawEvents |}.
Proof.
  unfold breakReport.
  destruct (JS.truthy (q_door_id q)) eqn:Et; cbn [negb]; [|discriminate].
  destruct (getBearerToken w); [|discriminate].
  destruct (fetchDoors w) as [allDoors|]; [|discriminate].
  destruct (find _ allDoors) as [d|] eqn:Ef; [|discriminate].
  destruct (dayBounds w _ _) as [[startUnix endUnix]|] eqn:Ed; [|discriminate].
  destruct (fetchAllAccessEvents w startUnix endUnix) as [rawEvents|] eqn:Ee;
    [|discriminate].
  cbn [body]. intros [= <-].
  exists allDoors, d, startUnix, endUnix, rawEvents. auto 10.
Qed.

(** C10.  When [min_minutes] is absent, or does not convert to a finite
    number, the threshold is 45 minutes: every successful response
    echoes 45 in its [min_minutes] field, and its [users] are the
    reports computed with the threshold 45 from the events fetched for
    the day of the door found in the vendor's list: a user with an
    event in the sorted event list is listed if and only if the pair durations sum to at least
    2700000 milliseconds or the user has a violation record. *)
Theorem default_threshold_45 (q : Query) (w : World)
    (Hdefault : q_min_minutes q = None
                \/ JS.isFinite (Number StringToNumber (q_min_minutes q)) = false) :
  minMinutesOf StringToNumber q = JS.Num 45 /\
  forall p,
    breakReport parseISO formatIn StringToNumber q w = mkResponse 200 (Ok p) ->
    min_minutes p = JS.Num 45 /\
    exists allDoors d startUnix endUnix rawEvents,
      fetchDoors w = Some allDoors /\
      find (fun d => JS.opt_eq (Door.door_id d) (JS.or_lit (q_door_id q) ""))
           allDoors = Some d /\
      dayBounds w (JS.or_null (q_date q)) (JS.or_lit (Door.timezone d) "UTC")
        = Some (startUnix, endUnix) /\
      fetchAllAccessEvents w startUnix endUnix = Some rawEvents /\
      users p = results parseISO formatIn (JS.Num 45) (JS.or_lit (q_door_id q) "")
                        (JS.or_lit (Door.timezone d) "UTC") d rawEvents /\
      forall ev,
        In ev (filtered parseISO (JS.or_lit (q_door_id q) "")
                        (JS.or_lit (Door.timezone d) "UTC") d rawEvents) ->
        let u := Ev.userId ev in
        let evs :=
          filter (ofUser u)
                 (filtered parseISO (JS.or_lit (q_door_id q) "")
                           (JS.or_lit (Door.timezone d) "UTC") d rawEvents) in
        ((exists r, In r (users p) /\ Report.userId r = u)
         <-> ((exists ds,
                 map Pair.totalMs (pairs (pairLoop formatIn u evs))
                   = map JS.Num ds
                 /\ 2700000 <= fold_right Z.add 0 ds)
              \/ violations (pairLoop formatIn u evs) <> [])).
Proof.
  assert (H45 : (minMinutesOf StringToNumber) q = JS.Num 45).
  { unfold minMinutesOf.
    destruct Hdefault as [H|H]; rewrite H; reflexivity. }
  split; [exact H45|]. intros p Hp.
  assert (Hb : body (breakReport parseISO formatIn StringToNumber q w) = Ok p)
    by now rewrite Hp.
  apply breakReport_payload in Hb
    as (allDoors & d & s & e & rawEvents & _ & Hd & Hf & Hday & He & ->).
  cbn [min_minutes users]. rewrite H45. split; [reflexivity|].
  exists allDoors, d, s, e, rawEvents. repeat (split; [assumption || reflexivity|]).
  intros ev Hev. cbv zeta.
  pose proof (groupByUser_covers _ _ Hev) as Hentry.
  change 2700000 with (45 * 60000). rewrite <- included_by_durations. split.
  - intros (r & Hr).
    now apply (reported_iff_included _ _ _ _ _ _ _ _ _ Hentry) in Hr.
  - intro Hinc. eexists.
    apply (reported_iff_included _ _ _ _ _ _ _ _ _ Hentry).
    split; [exact Hinc | reflexivity].
Qed.

End HandlerFacts.

(* ------------------------------------------------------------------ *)
(** ** Concrete runs *)
(* ------------------------------------------------------------------ *)

Section Runs.

Local Abbreviation results := (results Demo.parseISO Demo.formatIn).
Local Abbreviation filtered := (filtered Demo.parseISO).
Local Abbreviation filterStage := (filterStage Demo.parseISO).
Local Abbreviation normalize := (normalize Demo.parseISO "UTC" Demo.theDoor).
Local Abbreviation pairLoop := (pairLoop Demo.formatIn).
Local Abbreviation mkPair := (mkPair Demo.formatIn).
Local Abbreviation mkViolation := (mkViolation Demo.formatIn).
Local Abbreviation breakReport :=
  (breakReport Demo.parseISO Demo.formatIn Demo.StringToNumber).

(** C1, as stated, fails: an APB-typed event whose door identifier
    differs from the target door is not retained. *)
Lemma apb_event_of_other_door_dropped :
  rawAPB Demo.apbElsewhere = true /\
  doorMatches "door-1" Demo.apbElsewhere = false /\
  filterStage "door-1" "UTC" Demo.theDoor [Demo.apbElsewhere] = [] /\
  results (JS.Num 0) "door-1" "UTC" Demo.theDoor [Demo.apbElsewhere] = [].
Proof. repeat split. Qed.

(** C2, as stated, fails: an APB event with an unparsable timestamp is
    kept, and its user is reported with a violation record built from
    it; an entry with an unparsable timestamp is paired. *)
Lemma unparsable_event_reported :
  fromISO Demo.parseISO (Raw.timestamp Demo.apbGarbled) "UTC" = Invalid /\
  filtered "door-1" "UTC" Demo.theDoor [Demo.apbGarbled]
    = [normalize Demo.apbGarbled] /\
  map Report.violations
      (results (JS.Num 45) "door-1" "UTC" Demo.theDoor [Demo.apbGarbled])
    = [[Violation.mk "Invalid DateTime" "Invalid DateTime" "DOUBLE ENTRY"
                     "DOOR_APB_DOUBLE_ENTRY"]] /\
  pairs (pairLoop "u1"
           (filtered "door-1" "UTC" Demo.theDoor
                     [Demo.entryGarbled; Demo.plainExit]))
    = [mkPair "u1" (normalize Demo.entryGarbled) (normalize Demo.plainExit)].
Proof. repeat split. Qed.

Lemma unparsable_timestamp_kept_witness :
  In Demo.apbGarbled [Demo.apbGarbled] /\
  fromISO Demo.parseISO (Raw.timestamp Demo.apbGarbled) "UTC" = Invalid /\
  doorMatches "door-1" Demo.apbGarbled = true /\
  rawDirectional Demo.apbGarbled || rawAPB Demo.apbGarbled = true /\
  In (normalize Demo.apbGarbled)
     (filtered "door-1" "UTC" Demo.theDoor [Demo.apbGarbled]).
Proof.
  assert (H1 : In Demo.apbGarbled [Demo.apbGarbled]) by (simpl; auto).
  assert (H2 : fromISO Demo.parseISO (Raw.timestamp Demo.apbGarbled) "UTC"
               = Invalid) by reflexivity.
  assert (H3 : doorMatches "door-1" Demo.apbGarbled = true) by reflexivity.
  assert (H4 : rawDirectional Demo.apbGarbled || rawAPB Demo.apbGarbled = true)
    by reflexivity.
  repeat (split; [assumption|]).
  exact (proj1 (proj2 (unparsable_timestamp_kept Demo.parseISO Demo.formatIn
                         "door-1" "UTC" Demo.theDoor [Demo.apbGarbled]
                         Demo.apbGarbled H1 H2 H3 H4))).
Defined.

(** C4: an APB-typed entry followed by an exit of the same user.  The
    APB event leaves its violation record and is also the in-event of
    the emitted pair. *)
Lemma apb_entry_is_paired :
  isAPB (normalize Demo.apbEntry) = true /\
  exists r,
    results (JS.Num 45) "door-1" "UTC" Demo.theDoor
            [Demo.apbEntry; Demo.plainExit] = [r] /\
    Report.violations r = [mkViolation (normalize Demo.apbEntry)] /\
    Report.pairs r =
      [mkPair "u1" (normalize Demo.apbEntry) (normalize Demo.plainExit)].
Proof. split; [reflexivity|]. eexists. repeat split. Qed.

Lemma consecutive_ins_pair_latest_witness :
  [Demo.in0900; Demo.in0950] <> [] /\
  Forall (fun ev => isIn ev = true) [Demo.in0900; Demo.in0950] /\
  isOut Demo.out1000 = true /\
  exists p,
    pairs (pairLoop "u1" ([Demo.in0900; Demo.in0950] ++ [Demo.out1000])) = [p] /\
    Stamp.time (Pair.in_ p) = Demo.formatIn "UTC" "HH:mm:ss" 1714557000000 /\
    Stamp.time (Pair.out p) = Demo.formatIn "UTC" "HH:mm:ss" 1714557600000 /\
    Pair.totalMs p = JS.Num 600000.
Proof.
  assert (H1 : [Demo.in0900; Demo.in0950] <> []) by discriminate.
  assert (H2 : Forall (fun ev => isIn ev = true) [Demo.in0900; Demo.in0950])
    by (repeat constructor).
  assert (H3 : isOut Demo.out1000 = true) by reflexivity.
  repeat (split; [assumption|]).
  destruct (proj1 (consecutive_ins_pair_latest Demo.formatIn "u1" []
                     [Demo.in0900; Demo.in0950] Demo.out1000 H1 H2 H3))
    as (p & _ & Hp & _ & _ & _ & _ & Hin & Hout & Hdur).
  exists p. split; [exact Hp|]. split; [|split].
  - exact (proj2 (Hin _ _ eq_refl)).
  - exact (proj2 (Hout _ _ eq_refl)).
  - exact (Hdur _ _ _ _ eq_refl eq_refl).
Defined.

Lemma out_without_pending_in_dropped_witness :
  isOut Demo.out0900 = true /\
  lastInbound initState = None /\
  step Demo.formatIn "u1" initState Demo.out0900 = initState.
Proof.
  assert (H1 : isOut Demo.out0900 = true) by reflexivity.
  assert (H2 : lastInbound initState = None) by reflexivity.
  repeat (split; [assumption|]).
  apply (out_without_pending_in_dropped Demo.formatIn "u1" initState
           Demo.out0900 H1 H2).
  reflexivity.
Defined.

(** C6, as stated, fails.  On a sequence that is not chronological the
    loop pairs an entry with an earlier exit; and the handler itself
    feeds the loop an entry with an invalid timestamp, which is paired
    with the exit that follows it. *)
Lemma pair_out_not_after_in :
  (pairs (pairLoop "u1" [Demo.in0950; Demo.out0900])
     = [mkPair "u1" Demo.in0950 Demo.out0900]
   /\ ~ ts_le (Ev.ts Demo.in0950) (Ev.ts Demo.out0900)) /\
  (groupByUser (filtered "door-1" "UTC" Demo.theDoor
                         [Demo.entryGarbled; Demo.plainExit])
     = [("u1", [normalize Demo.entryGarbled; normalize Demo.plainExit])]
   /\ pairs (pairLoop "u1" [normalize Demo.entryGarbled;
                            normalize Demo.plainExit])
     = [mkPair "u1" (normalize Demo.entryGarbled) (normalize Demo.plainExit)]
   /\ ~ ts_le (Ev.ts (normalize Demo.entryGarbled))
              (Ev.ts (normalize Demo.plainExit))
   /\ Pair.totalMs
        (mkPair "u1" (normalize Demo.entryGarbled) (normalize Demo.plainExit))
      = JS.NaN).
Proof.
  repeat split.
  - cbn. lia.
  - cbn. auto.
Qed.

Lemma pairs_of_chronological_sequence_witness :
  chronological [Demo.in0900; Demo.out1000] /\
  (length (pairs (pairLoop "u1" [Demo.in0900; Demo.out1000]))
   <= length (filter isOut [Demo.in0900; Demo.out1000]))%nat.
Proof.
  assert (H : chronological [Demo.in0900; Demo.out1000]).
  { repeat constructor. cbn. lia. }
  split; [exact H|].
  exact (proj1 (pairs_of_chronological_sequence Demo.formatIn "u1"
                  [Demo.in0900; Demo.out1000] H)).
Defined.

Lemma inclusion_rule_witness :
  In (normalize Demo.plainExit)
     (filtered "door-1" "UTC" Demo.theDoor [Demo.apbEntry; Demo.plainExit]) /\
  exists r,
    In r (results (JS.Num 45) "door-1" "UTC" Demo.theDoor
                  [Demo.apbEntry; Demo.plainExit]) /\
    Report.userId r = "u1".
Proof.
  assert (H : In (normalize Demo.plainExit)
                 (filtered "door-1" "UTC" Demo.theDoor
                           [Demo.apbEntry; Demo.plainExit]))
    by (right; left; reflexivity).
  split; [exact H|].
  apply (proj1 (inclusion_rule Demo.parseISO Demo.formatIn "door-1" "UTC"
                  Demo.theDoor [Demo.apbEntry; Demo.plainExit] _ H) 45).
  left. exists [3000000]. split; [reflexivity | cbn; lia].
Defined.

(** Two breaks of 50 minutes and 1 minute: 51 minutes in total, above
    the threshold of 45. *)
Example two_breaks_total_51m :
  map (fun r => (Report.userId r, Report.totalLabel r,
                 map Pair.totalLabel (Report.pairs r)))
      (results (JS.Num 45) "door-1" "UTC" Demo.theDoor Demo.twoBreaks)
  = [("U1", "51m", ["50m"; "1m"])].
Proof. reflexivity. Qed.

(** A user with no paired time and one violation, under the default
    threshold. *)
Example zero_total_with_violation :
  map (fun r => (Report.userId r, Report.totalMs r, Report.totalLabel r,
                 length (Report.violations r)))
      (results (JS.Num 45) "door-1" "UTC" Demo.theDoor [Demo.apbEntry])
  = [("u1", JS.Num 0, "0m", 1%nat)].
Proof. reflexivity. Qed.

(** C8, as stated, fails once a total is NaN: the comparator answers NaN
    against A, nothing moves, and B (50 minutes) stays before C (60
    minutes). *)
Lemma nan_total_breaks_ordering :
  map (fun r => (Report.userId r, Report.totalMs r))
      (results (JS.Num 45) "door-1" "UTC" Demo.theDoor Demo.mixedDay)
  = [("B", JS.Num 3000000); ("A", JS.NaN); ("C", JS.Num 3600000)] /\
  ~ StronglySorted ranksBefore
      (results (JS.Num 45) "door-1" "UTC" Demo.theDoor Demo.mixedDay) /\
  ~ (forall l1 a l2 b l3 x y,
        results (JS.Num 45) "door-1" "UTC" Demo.theDoor Demo.mixedDay
          = l1 ++ a :: l2 ++ b :: l3 ->
        Report.totalMs a = JS.Num x -> Report.totalMs b = JS.Num y ->
        y <= x).
Proof.
  split; [reflexivity|]. split.
  - intro H. inversion H as [|? ? _ Hall]; subst.
    inversion Hall as [|? ? Hr _]; subst. exact Hr.
  - intro H.
    remember (results (JS.Num 45) "door-1" "UTC" Demo.theDoor Demo.mixedDay)
      as final eqn:E.
    vm_compute in E. subst final.
    match type of H with
    | context [ [?b; ?a; ?c] ] =>
        specialize (H [] b [a] c [] 3000000 3600000 eq_refl eq_refl eq_refl)
    end.
    lia.
Qed.

Lemma results_ordered_witness :
  Forall numericTotal
    (collect Demo.formatIn (JS.Num 45)
       (groupByUser (filtered "door-1" "UTC" Demo.theDoor Demo.tiedDay))) /\
  StronglySorted ranksBefore
    (results (JS.Num 45) "door-1" "UTC" Demo.theDoor Demo.tiedDay).
Proof.
  assert (H : Forall numericTotal
    (collect Demo.formatIn (JS.Num 45)
       (groupByUser (filtered "door-1" "UTC" Demo.theDoor Demo.tiedDay))))
    by (repeat constructor).
  split; [exact H|].
  exact (proj1 (proj2 (results_ordered Demo.parseISO Demo.formatIn (JS.Num 45)
                         "door-1" "UTC" Demo.theDoor Demo.tiedDay H))).
Defined.

(** Equal totals: B, with two violations, is listed before A, with
    none, although A was grouped first. *)
Example tie_broken_by_violations :
  map (fun r => Report.userId r)
      (collect Demo.formatIn (JS.Num 45)
         (groupByUser (filtered "door-1" "UTC" Demo.theDoor Demo.tiedDay)))
  = ["A"; "B"] /\
  map (fun r => (Report.userId r, Report.totalMs r, length (Report.violations r)))
      (results (JS.Num 45) "door-1" "UTC" Demo.theDoor Demo.tiedDay)
  = [("B", JS.Num 3600000, 2%nat); ("A", JS.Num 3600000, 0%nat)].
Proof. split; reflexivity. Qed.

Lemma default_threshold_45_witness :
  (q_min_minutes (Demo.query None) = None
   \/ JS.isFinite (Number Demo.StringToNumber (q_min_minutes (Demo.query None)))
      = false) /\
  exists p,
    breakReport (Demo.query None) (Demo.world [Demo.apbEntry; Demo.plainExit])
      = mkResponse 200 (Ok p) /\
    min_minutes p = JS.Num 45.
Proof.
  assert (H : q_min_minutes (Demo.query None) = None
              \/ JS.isFinite (Number Demo.StringToNumber
                                (q_min_minutes (Demo.query None))) = false)
    by (left; reflexivity).
  split; [exact H|].
  eexists. split; [reflexivity|].
  exact (proj1 (proj2 (default_threshold_45 Demo.parseISO Demo.formatIn
                         Demo.StringToNumber (Demo.query None)
                         (Demo.world [Demo.apbEntry; Demo.plainExit]) H)
                      _ eq_refl)).
Defined.

(** A value that does not convert to a number falls back to 45 as well;
    a numeric value is used as it is. *)
Example threshold_of_query :
  minMinutesOf Demo.StringToNumber (Demo.query (Some "soon")) = JS.Num 45 /\
  minMinutesOf Demo.StringToNumber (Demo.query (Some "30")) = JS.Num 30.
Proof. split; reflexivity. Qed.

End Runs.

(** C7, as stated, fails for a threshold that is not a whole number of
    minutes.  A user away for 498 seconds has a total of 498000
    milliseconds, which is 8.3 minutes times 60000; with
    [min_minutes=8.3] the code compares with the binary64 product
    [8.3 * 60 * 1000], which lies above 498000, and leaves the user
    out.  With 8.25, whose product is exact, a total of 498000 is
    enough. *)
Lemma fractional_threshold_rounds_up :
  map (fun r => (Report.userId r, Report.totalMs r))
      (results Sample.parseISO Demo.formatIn (JS.Num 0) "door-1" "UTC"
               Demo.theDoor Sample.shortBreak)
    = [("U1", JS.Num 498000)] /\
  10 * 498000 = 83 * 60000 /\
  (498000 <? 8.3 * 60 * 1000)%float = true /\
  resultsAt Sample.parseISO Demo.formatIn 8.3%float "door-1" "UTC"
            Demo.theDoor Sample.shortBreak = [] /\
  map Report.userId
      (resultsAt Sample.parseISO Demo.formatIn 8.25%float "door-1" "UTC"
                 Demo.theDoor Sample.shortBreak) = ["U1"].
Proof. repeat split. Qed.

(** On a whole number of minutes the two forms of the inclusion test
    agree: the binary64 product is the exact one (here for every
    threshold up to a day), and the reports are the same. *)
Example whole_minutes_agree :
  forallb (fun m => (JS.toDouble (JS.Num m) * 60 * 1000
                     =? JS.toDouble (JS.Num (m * 60000)))%float)
          (map Z.of_nat (seq 0 1441)) = true /\
  resultsAt Demo.parseISO Demo.formatIn 45%float "door-1" "UTC" Demo.theDoor
            Demo.twoBreaks
    = results Demo.parseISO Demo.formatIn (JS.Num 45) "door-1" "UTC"
              Demo.theDoor Demo.twoBreaks /\
  resultsAt Demo.parseISO Demo.formatIn 51%float "door-1" "UTC" Demo.theDoor
            Demo.twoBreaks
    = results Demo.parseISO Demo.formatIn (JS.Num 51) "door-1" "UTC"
              Demo.theDoor Demo.twoBreaks /\
  resultsAt Demo.parseISO Demo.formatIn 52%float "door-1" "UTC" Demo.theDoor
            Demo.twoBreaks
    = results Demo.parseISO Demo.formatIn (JS.Num 52) "door-1" "UTC"
              Demo.theDoor Demo.twoBreaks /\
  resultsAt Demo.parseISO Demo.formatIn 45%float "door-1" "UTC" Demo.theDoor
            Demo.mixedDay
    = results Demo.parseISO Demo.formatIn (JS.Num 45) "door-1" "UTC"
              Demo.theDoor Demo.mixedDay.
Proof. repeat split; vm_compute; reflexivity. Qed.

(* ------------------------------------------------------------------ *)
(** ** Direction synonyms and the fields of a normalised event *)
(* ------------------------------------------------------------------ *)

Lemma lower_ascii_idem (c : ascii) :
  JS.lower_ascii (JS.lower_ascii c) = JS.lower_ascii c.
Proof. destruct c as [[] [] [] [] [] [] [] []]; reflexivity. Qed.

Lemma toLowerCase_idem (s : string) :
  JS.toLowerCase (JS.toLowerCase s) = JS.toLowerCase s.
Proof.
  induction s as [|c s IH]; [reflexivity|].
  cbn [JS.toLowerCase]. now rewrite lower_ascii_idem, IH.
Qed.

Lemma toLowerCase_empty (s : string) :
  String.eqb (JS.toLowerCase s) "" = String.eqb s "".
Proof. destruct s; reflexivity. Qed.

Lemma existsb_eqb_In (r : string) (l : list string) :
  existsb (String.eqb r) l = true <-> In r l.
Proof.
  rewrite existsb_exists. split.
  - intros (x & Hx & E). apply String.eqb_eq in E. now subst.
  - intro H. exists r. split; [exact H | apply String.eqb_refl].
Qed.

(** X1.  [normalizeDirection] reads its argument case-insensitively.
    The normalised direction is "in" exactly for the synonyms in, entry
    and entrance, and "out" exactly for out, exit and egress; any other
    non-empty value passes through in lower case, with its first letter
    capitalised as the label. *)
Theorem normalizeDirection_synonyms (s : string) :
  normalizeDirection (Some s) = normalizeDirection (Some (JS.toLowerCase s)) /\
  (fst (normalizeDirection (Some s)) = "in"
   <-> In (JS.toLowerCase s) ["in"; "entry"; "entrance"]) /\
  (fst (normalizeDirection (Some s)) = "out"
   <-> In (JS.toLowerCase s) ["out"; "exit"; "egress"]) /\
  (s <> "" ->
   ~ In (JS.toLowerCase s) ["in"; "entry"; "entrance"; "out"; "exit"; "egress"] ->
   normalizeDirection (Some s)
     = (JS.toLowerCase s, JS.capitalize (JS.toLowerCase s))).
Proof.
  assert (Hcase : normalizeDirection (Some s)
                  = normalizeDirection (Some (JS.toLowerCase s))).
  { unfold normalizeDirection.
    now rewrite toLowerCase_empty, toLowerCase_idem. }
  set (r := JS.toLowerCase s) in *.
  assert (Hdef : normalizeDirection (Some s) =
            if String.eqb s "" then ("unknown", "Unknown")
            else if existsb (String.eqb r) ["in"; "entry"; "entrance"]
                 then ("in", "Inbound")
                 else if existsb (String.eqb r) ["out"; "exit"; "egress"]
                      then ("out", "Outbound")
                      else (r, JS.capitalize r)) by reflexivity.
  split; [exact Hcase|]. clear Hcase.
  { rewrite Hdef. destruct (String.eqb s "") eqn:Es.
    + apply String.eqb_eq in Es. subst s. cbn.
      repeat split; try discriminate; try tauto;
        intro H; repeat (destruct H as [H|H]; try discriminate H); try contradiction.
    + destruct (existsb (String.eqb r) ["in"; "entry"; "entrance"]) eqn:E1.
      * apply existsb_eqb_In in E1. cbn [fst]. repeat split; auto.
        -- discriminate.
        -- intro H. exfalso.
           destruct E1 as [E1|[E1|[E1|[]]]]; rewrite <- E1 in H;
             repeat (destruct H as [H|H]; try discriminate H); contradiction.
        -- intros _ H. exfalso. apply H. cbn in *. tauto.
      * assert (N1 : ~ In r ["in"; "entry"; "entrance"]).
        { intro H. apply existsb_eqb_In in H. congruence. }
        destruct (existsb (String.eqb r) ["out"; "exit"; "egress"]) eqn:E2.
        -- apply existsb_eqb_In in E2. cbn [fst]. repeat split; auto.
           ++ discriminate.
           ++ intro H. contradiction.
           ++ intros _ H. exfalso. apply H. cbn in *. tauto.
        -- assert (N2 : ~ In r ["out"; "exit"; "egress"]).
           { intro H. apply existsb_eqb_In in H. congruence. }
           cbn [fst]. repeat split; auto.
           ++ intro H. exfalso. apply N1. rewrite H. now left.
           ++ intro H. contradiction.
           ++ intro H. exfalso. apply N2. rewrite H. now left.
           ++ intro H. contradiction. }
Qed.

Lemma normalizeDirection_synonyms_witness :
  "Side" <> "" /\
  ~ In (JS.toLowerCase "Side")
       ["in"; "entry"; "entrance"; "out"; "exit"; "egress"] /\
  normalizeDirection (Some "Side") = ("side", "Side").
Proof.
  assert (H1 : "Side" <> "") by discriminate.
  assert (H2 : ~ In (JS.toLowerCase "Side")
                    ["in"; "entry"; "entrance"; "out"; "exit"; "egress"]).
  { cbn. intro H. repeat (destruct H as [H|H]; try discriminate H). exact H. }
  repeat (split; [assumption|]).
  exact (proj2 (proj2 (proj2 (normalizeDirection_synonyms "Side"))) H1 H2).
Defined.

Lemma or_lit_nonempty (a : option string) (d : string) :
  d <> "" -> JS.or_lit a d <> "".
Proof.
  intro Hd. unfold JS.or_lit. destruct a as [s|]; [|exact Hd].
  destruct (String.eqb s "") eqn:E; [exact Hd|].
  now apply String.eqb_neq in E.
Qed.

Lemma str_or_nonempty (a d : string) : d <> "" -> JS.str_or a d <> "".
Proof.
  intro Hd. unfold JS.str_or.
  destruct (String.eqb a "") eqn:E; [exact Hd|].
  now apply String.eqb_neq in E.
Qed.

Lemma normalizeDirection_nonempty (raw : option string) :
  fst (normalizeDirection raw) <> "" /\ snd (normalizeDirection raw) <> "".
Proof.
  unfold normalizeDirection. destruct raw as [s|]; [|split; discriminate].
  destruct (String.eqb s "") eqn:Es; [split; discriminate|].
  destruct (existsb _ _); [split; discriminate|].
  destruct (existsb _ _); [split; discriminate|].
  destruct s as [|c s]; [discriminate|]. split; discriminate.
Qed.

Section FieldFacts.
Variable parseISO : string -> option Z.
Variable formatIn : string -> string -> Z -> string.

(** X2.  No field a report displays is ever blank.  A normalised event
    always has a non-empty user id, user name, site name, door name,
    direction and direction label (the fallbacks "unknown", "Unknown
    User", "Unknown Site", "Door" and "Unknown" fill the gaps), and every
    report of the final list has a non-empty user id, user name and
    site name. *)
Theorem displayed_fields_never_blank
    (minMinutes : JS.number) (door_id tz : string) (door : Door.t)
    (rawEvents : list Raw.Event) :
  (forall e,
      let ev := normalize parseISO tz door e in
      Ev.userId ev <> "" /\ Ev.userName ev <> "" /\ Ev.siteName ev <> "" /\
      Ev.doorName ev <> "" /\ Ev.direction ev <> "" /\
      Ev.directionLabel ev <> "") /\
  Forall (fun r => Report.userId r <> "" /\ Report.userName r <> "" /\
                   Report.siteName r <> "")
         (results parseISO formatIn minMinutes door_id tz door rawEvents).
Proof.
  assert (Hev : forall e,
      let ev := normalize parseISO tz door e in
      Ev.userId ev <> "" /\ Ev.userName ev <> "" /\ Ev.siteName ev <> "" /\
      Ev.doorName ev <> "" /\ Ev.direction ev <> "" /\
      Ev.directionLabel ev <> "").
  { intro e. cbn.
    destruct (normalizeDirection_nonempty (Raw.direction (Raw.info e))).
    repeat split; try (apply or_lit_nonempty; discriminate); assumption. }
  split; [exact Hev|].
  apply Forall_forall. intros r Hr.
  apply sort_In, collect_In in Hr as (u & evs & Hin & _ & ->).
  cbn [Report.userId Report.userName Report.siteName mkReport].
  split; [|split; apply str_or_nonempty, str_or_nonempty; discriminate].
  (* the key of an entry is the user id of one of its events *)
  assert (Hkey : In u (map fst (groupByUser
                   (filtered parseISO door_id tz door rawEvents)))).
  { change u with (fst (u, evs)). now apply in_map. }
  apply fold_push_keys in Hkey as [[]|(ev & Hev' & <-)].
  apply filtered_In in Hev'. unfold filterStage in Hev'.
  apply filter_In in Hev' as [Hev' _].
  apply in_map_iff in Hev' as (e & <- & _). apply Hev.
Qed.

End FieldFacts.

(* ------------------------------------------------------------------ *)
(** ** Violation records *)
(* ------------------------------------------------------------------ *)

Lemma substring_all (s : string) : String.substring 0 (String.length s) s = s.
Proof. induction s as [|c s IH]; [reflexivity|]. cbn. now rewrite IH. Qed.

Lemma replace_first_APB_prefix (rest : string) :
  JS.replace_first "DOOR_APB_" "" ("DOOR_APB_" ++ rest) = rest.
Proof.
  unfold JS.replace_first. cbn.
  rewrite Nat.sub_0_r, substring_all. now destruct rest.
Qed.

Lemma underscores_to_spaces_length (s : string) :
  String.length (JS.underscores_to_spaces s) = String.length s.
Proof. induction s as [|c s IH]; [reflexivity|]. cbn. now rewrite IH. Qed.

Lemma underscores_to_spaces_clean (s : string) (n : nat) :
  String.get n (JS.underscores_to_spaces s) <> Some "_"%char.
Proof.
  revert n. induction s as [|c s IH]; intro n; [discriminate|].
  cbn [JS.underscores_to_spaces]. destruct n as [|n]; cbn [String.get].
  - destruct (Ascii.eqb c "_") eqn:E; [discriminate|].
    apply Ascii.eqb_neq in E. congruence.
  - apply IH.
Qed.

Section ViolationFacts.
Variable parseISO : string -> option Z.
Variable formatIn : string -> string -> Z -> string.

(** X3.  The violation records of a reported user are exactly the
    APB-typed events of that user in the sorted event list, one record
    per event and in the same order. *)
Theorem violations_one_per_apb_event
    (minMinutes : JS.number) (door_id tz : string) (door : Door.t)
    (rawEvents : list Raw.Event) :
  Forall (fun r =>
            Report.violations r =
              map (mkViolation formatIn)
                  (filter isAPB
                     (filter (ofUser (Report.userId r))
                        (filtered parseISO door_id tz door rawEvents))))
         (results parseISO formatIn minMinutes door_id tz door rawEvents).
Proof.
  apply Forall_forall. intros r Hr.
  apply sort_In, collect_In in Hr as (u & evs & Hin & _ & ->).
  cbn [Report.userId Report.violations mkReport].
  apply groupByUser_entry in Hin. subst evs.
  apply pairLoop_violations.
Qed.

(** X4.  A user with an APB-typed event among the retained events is
    always reported, whatever the threshold and the paired time, and the
    report carries the record of that event. *)
Theorem apb_user_always_reported
    (minMinutes : JS.number) (door_id tz : string) (door : Door.t)
    (rawEvents : list Raw.Event) (ev : Ev.t)
    (Hev : In ev (filtered parseISO door_id tz door rawEvents))
    (Hapb : isAPB ev = true) :
  exists r,
    In r (results parseISO formatIn minMinutes door_id tz door rawEvents) /\
    Report.userId r = Ev.userId ev /\
    In (mkViolation formatIn ev) (Report.violations r).
Proof.
  set (l := filtered parseISO door_id tz door rawEvents) in *.
  set (u := Ev.userId ev). set (evs := filter (ofUser u) l).
  assert (Hv : In (mkViolation formatIn ev)
                  (violations (pairLoop formatIn u evs))).
  { rewrite pairLoop_violations. apply in_map, filter_In. split; [|exact Hapb].
    apply filter_In. split; [exact Hev | apply String.eqb_refl]. }
  exists (mkReport u evs (pairLoop formatIn u evs)).
  split; [|split; [reflexivity | exact Hv]].
  apply sort_In, collect_In. exists u, evs.
  split; [now apply groupByUser_covers|]. split; [|reflexivity].
  unfold included. apply orb_true_iff. right. apply nonempty_length.
  intro Hnil. rewrite Hnil in Hv. contradiction.
Qed.

(** X5.  When an APB-typed event carries no message of its own, the
    label of its violation record is its event type without the prefix
    [DOOR_APB_] and with every underscore turned into a space: it has
    the length of the remainder and holds no underscore (for the bare
    type [DOOR_APB_] it is empty). *)
Theorem fallback_violation_label
    (ev : Ev.t) (rest : string)
    (Htype : Ev.event_type ev = ("DOOR_APB_" ++ rest)%string)
    (Hmsg : JS.truthy (Ev.violationMessage ev) = false) :
  Violation.message (mkViolation formatIn ev) = JS.underscores_to_spaces rest /\
  String.length (Violation.message (mkViolation formatIn ev))
    = String.length rest /\
  forall n, String.get n (Violation.message (mkViolation formatIn ev))
            <> Some "_"%char.
Proof.
  assert (E : Violation.message (mkViolation formatIn ev)
              = JS.underscores_to_spaces rest).
  { cbn [Violation.message mkViolation]. rewrite Htype, replace_first_APB_prefix.
    destruct (Ev.violationMessage ev) as [m|]; [|reflexivity].
    cbn in Hmsg. apply negb_false_iff in Hmsg. now rewrite Hmsg. }
  rewrite E. split; [reflexivity|]. split.
  - apply underscores_to_spaces_length.
  - apply underscores_to_spaces_clean.
Qed.

End ViolationFacts.

(* ------------------------------------------------------------------ *)
(** ** Shape of the pairs *)
(* ------------------------------------------------------------------ *)

Section PairShape.
Variable formatIn : string -> string -> Z -> string.
Variable userId : string.

Lemma fold_step_snoc (evs : list Ev.t) (ev : Ev.t) (st : PairState) :
  fold_left (step formatIn userId) (evs ++ [ev]) st =
    step formatIn userId (fold_left (step formatIn userId) evs st) ev.
Proof. now rewrite fold_left_app. Qed.

(** The loop only ever appends to its list of pairs. *)
Lemma step_pairs_grow (st : PairState) (ev : Ev.t) :
  exists more, pairs (step formatIn userId st ev) = pairs st ++ more.
Proof.
  destruct (isIn ev) eqn:Ei.
  - destruct (step_in formatIn userId st ev Ei) as [_ ->].
    exists []. now rewrite app_nil_r.
  - destruct (isOut ev) eqn:Eo.
    + destruct (lastInbound st) as [first|] eqn:El.
      * destruct (step_out_pending formatIn userId st ev first Eo El) as [_ ->].
        now exists [mkPair formatIn userId first ev].
      * rewrite (step_out_idle formatIn userId st ev Eo El).
        exists []. rewrite app_nil_r. now destruct (isAPB ev).
    + destruct (step_other formatIn userId st ev Ei Eo) as [_ ->].
      exists []. now rewrite app_nil_r.
Qed.

Lemma fold_pairs_grow (evs : list Ev.t) (st : PairState) :
  exists more,
    pairs (fold_left (step formatIn userId) evs st) = pairs st ++ more.
Proof.
  revert st. induction evs as [|ev evs IH]; intro st; cbn [fold_left].
  - exists []. now rewrite app_nil_r.
  - destruct (IH (step formatIn userId st ev)) as (m2 & ->).
    destruct (step_pairs_grow st ev) as (m1 & ->).
    exists (m1 ++ m2). now rewrite app_assoc.
Qed.

(** Events that are not exits leave the pairs as they are. *)
Lemma fold_no_out (evs : list Ev.t) (st : PairState) :
  Forall (fun ev => isOut ev = false) evs ->
  pairs (fold_left (step formatIn userId) evs st) = pairs st.
Proof.
  intro H. revert st. induction H as [|ev evs Hev _ IH]; intro st; [reflexivity|].
  cbn [fold_left]. rewrite IH.
  destruct (isIn ev) eqn:Ei.
  - now destruct (step_in formatIn userId st ev Ei).
  - now destruct (step_other formatIn userId st ev Ei Hev).
Qed.

(** Events that are neither entries nor exits leave the pending entry
    and the pairs as they are. *)
Lemma fold_nonDirectional (evs : list Ev.t) (st : PairState) :
  Forall nonDirectional evs ->
  lastInbound (fold_left (step formatIn userId) evs st) = lastInbound st /\
  pairs (fold_left (step formatIn userId) evs st) = pairs st.
Proof.
  intro H. revert st.
  induction H as [|ev evs [Ei Eo] _ IH]; intro st; [split; reflexivity|].
  cbn [fold_left]. destruct (IH (step formatIn userId st ev)) as [-> ->].
  apply step_other; assumption.
Qed.

Lemma step_adjacent (pre : list Ev.t) (st : PairState) (ev : Ev.t) :
  (forall f, lastInbound st = Some f ->
     isIn f = true /\
     exists l1 l2, pre = l1 ++ f :: l2 /\ Forall nonDirectional l2) ->
  Forall (fun p => exists f s, nextDirectional pre f s /\ isIn f = true /\
                               isOut s = true /\ p = mkPair formatIn userId f s)
         (pairs st) ->
  (forall f, lastInbound (step formatIn userId st ev) = Some f ->
     isIn f = true /\
     exists l1 l2, pre ++ [ev] = l1 ++ f :: l2 /\ Forall nonDirectional l2) /\
  Forall (fun p => exists f s, nextDirectional (pre ++ [ev]) f s /\
                               isIn f = true /\ isOut s = true /\
                               p = mkPair formatIn userId f s)
         (pairs (step formatIn userId st ev)).
Proof.
  intros Hl Hp.
  assert (Hp' : Forall (fun p => exists f s,
                  nextDirectional (pre ++ [ev]) f s /\ isIn f = true /\
                  isOut s = true /\ p = mkPair formatIn userId f s) (pairs st)).
  { eapply Forall_impl; [|exact Hp].
    intros p (f & s & (l1 & l2 & l3 & -> & Hnd) & Hf & Hs & ->).
    exists f, s. repeat split; auto.
    exists l1, l2, (l3 ++ [ev]). split; [|exact Hnd].
    now rewrite <- !app_assoc, <- !app_comm_cons, <- app_assoc. }
  destruct (isIn ev) eqn:Ei.
  - destruct (step_in formatIn userId st ev Ei) as [-> ->]. split; [|exact Hp'].
    intros f [= <-]. split; [exact Ei|]. exists pre, []. split; [reflexivity | constructor].
  - destruct (isOut ev) eqn:Eo.
    + destruct (lastInbound st) as [first|] eqn:El.
      * destruct (step_out_pending formatIn userId st ev first Eo El) as [-> ->].
        split; [discriminate|].
        apply Forall_app. split; [exact Hp'|]. constructor; [|constructor].
        destruct (Hl first eq_refl) as (Hfi & l1 & l2 & -> & Hnd).
        exists first, ev. repeat split; auto.
        exists l1, l2, []. split; [|exact Hnd].
        now rewrite <- app_assoc, <- app_comm_cons.
      * rewrite (step_out_idle formatIn userId st ev Eo El).
        destruct (isAPB ev); cbn [lastInbound pairs];
          (split; [try rewrite El; discriminate | exact Hp']).
    + destruct (step_other formatIn userId st ev Ei Eo) as [-> ->].
      split; [|exact Hp'].
      intros f Hf. destruct (Hl f Hf) as (Hfi & l1 & l2 & -> & Hnd).
      split; [exact Hfi|]. exists l1, (l2 ++ [ev]). split.
      * now rewrite <- app_assoc, <- app_comm_cons.
      * apply Forall_app. split; [exact Hnd|]. constructor; [|constructor].
        now split.
Qed.

(** X6.  The pairs of a sequence are exactly its entry-to-exit
    adjacencies: every emitted pair joins an [in] event with the first
    directional event after it, which is an [out] (events that are
    neither entries nor exits may stand between them); and every [in]
    event whose next directional event is an [out] gives a pair. *)
Theorem pairs_are_in_out_adjacencies (evs : list Ev.t) :
  Forall (fun p => exists f s, nextDirectional evs f s /\ isIn f = true /\
                               isOut s = true /\ p = mkPair formatIn userId f s)
         (pairs (pairLoop formatIn userId evs)) /\
  (forall f s, nextDirectional evs f s -> isIn f = true -> isOut s = true ->
               In (mkPair formatIn userId f s)
                  (pairs (pairLoop formatIn userId evs))).
Proof.
  split.
  - assert (G : (forall f, lastInbound (pairLoop formatIn userId evs) = Some f ->
                   isIn f = true /\
                   exists l1 l2, evs = l1 ++ f :: l2 /\ Forall nonDirectional l2)
                /\ Forall (fun p => exists f s, nextDirectional evs f s /\
                             isIn f = true /\ isOut s = true /\
                             p = mkPair formatIn userId f s)
                          (pairs (pairLoop formatIn userId evs))).
    { induction evs as [|ev evs IH] using rev_ind.
      - split; [discriminate | constructor].
      - rewrite pairLoop_snoc. destruct IH. now apply step_adjacent. }
    apply G.
  - intros f s (l1 & l2 & l3 & -> & Hnd) Hf Hs.
    unfold pairLoop.
    replace (l1 ++ f :: l2 ++ s :: l3)
      with ((l1 ++ [f]) ++ l2 ++ s :: l3)
      by (now rewrite <- app_assoc).
    rewrite fold_left_app.
    set (st1 := fold_left (step formatIn userId) (l1 ++ [f]) initState).
    rewrite fold_left_app.
    assert (H1 : lastInbound st1 = Some f).
    { unfold st1. rewrite fold_step_snoc. now apply step_in. }
    destruct (fold_nonDirectional l2 st1 Hnd) as [H2 _]. rewrite H1 in H2.
    cbn [fold_left].
    destruct (step_out_pending formatIn userId _ s f Hs H2) as [_ H3].
    match goal with |- In _ (pairs (fold_left _ l3 ?st)) =>
      destruct (fold_pairs_grow l3 st) as (more & ->) end.
    rewrite H3. apply in_or_app. left. apply in_or_app. right. now left.
Qed.

(** The number of pairs and of pending entries never exceeds the number
    of entries seen. *)
Lemma pairs_pending_at_most_ins (evs : list Ev.t) :
  (length (pairs (pairLoop formatIn userId evs))
   + match lastInbound (pairLoop formatIn userId evs) with
     | Some _ => 1
     | None => 0
     end
   <= length (filter isIn evs))%nat.
Proof.
  induction evs as [|ev evs IH] using rev_ind; [cbn; lia|].
  rewrite pairLoop_snoc, filter_app, length_app. cbn [filter].
  set (st := pairLoop formatIn userId evs) in *.
  destruct (isIn ev) eqn:Ei.
  - destruct (step_in formatIn userId st ev Ei) as [-> ->]. cbn [length].
    destruct (lastInbound st); lia.
  - destruct (isOut ev) eqn:Eo.
    + destruct (lastInbound st) as [first|] eqn:El.
      * destruct (step_out_pending formatIn userId st ev first Eo El) as [-> ->].
        rewrite length_app. cbn. lia.
      * rewrite (step_out_idle formatIn userId st ev Eo El).
        destruct (isAPB ev); cbn [pairs lastInbound length]; rewrite ?El; lia.
    + destruct (step_other formatIn userId st ev Ei Eo) as [-> ->].
      cbn [length]. lia.
Qed.

(** X7.  An entry that is never followed by an exit is dropped: events
    after which no [out] event comes add no pair, so the pairs of a
    sequence are those of its part up to the last [out].  The number of
    pairs is at most the number of [in] events. *)
Theorem unmatched_entries_dropped
    (evs tail : list Ev.t)
    (Htail : Forall (fun ev => isOut ev = false) tail) :
  pairs (pairLoop formatIn userId (evs ++ tail))
    = pairs (pairLoop formatIn userId evs) /\
  (length (pairs (pairLoop formatIn userId (evs ++ tail)))
   <= length (filter isIn evs))%nat.
Proof.
  assert (E : pairs (pairLoop formatIn userId (evs ++ tail))
              = pairs (pairLoop formatIn userId evs)).
  { unfold pairLoop. rewrite fold_left_app. now apply fold_no_out. }
  split; [exact E|]. rewrite E.
  pose proof (pairs_pending_at_most_ins evs). lia.
Qed.

End PairShape.

Section TypeBlind.
Variable formatIn : string -> string -> Z -> string.
Variable userId : string.

Lemma mkPair_sameForPairing (f f' s s' : Ev.t) :
  sameForPairing f f' -> sameForPairing s s' ->
  mkPair formatIn userId f s = mkPair formatIn userId f' s'.
Proof.
  intros (A1 & A2 & A3 & A4 & A5 & A6) (B1 & B2 & B3 & B4 & B5 & B6).
  unfold mkPair, durationMs.
  now rewrite A1, A3, A4, A5, A6, B1, B3, B4, B5, B6.
Qed.

Lemma step_type_blind (st st' : PairState) (ev ev' : Ev.t) :
  sameForPairing ev ev' ->
  match lastInbound st, lastInbound st' with
  | Some f, Some f' => sameForPairing f f'
  | None, None => True
  | _, _ => False
  end ->
  pairs st = pairs st' ->
  match lastInbound (step formatIn userId st ev),
        lastInbound (step formatIn userId st' ev') with
  | Some f, Some f' => sameForPairing f f'
  | None, None => True
  | _, _ => False
  end /\
  pairs (step formatIn userId st ev) = pairs (step formatIn userId st' ev').
Proof.
  intros Hev Hl Hp. pose proof Hev as (_ & Hdir & _).
  unfold step. rewrite <- Hdir.
  destruct (String.eqb (Ev.direction ev) "in").
  - destruct (isAPB ev), (isAPB ev'); cbn [lastInbound pairs]; auto.
  - destruct (String.eqb (Ev.direction ev) "out").
    + destruct (lastInbound st) as [f|] eqn:E, (lastInbound st') as [f'|] eqn:E';
        try contradiction;
        destruct (isAPB ev), (isAPB ev'); cbn [lastInbound pairs];
        rewrite ?E, ?E'; cbn [lastInbound pairs];
        rewrite ?E, ?E'; (split; [exact I || exact Hl || auto|]);
        rewrite ?Hp, ?(mkPair_sameForPairing f f' ev ev' Hl Hev); auto.
    + destruct (isAPB ev), (isAPB ev'); cbn [lastInbound pairs]; auto.
Qed.

(** X8.  Pairing is blind to event types.  Two sequences whose events
    agree position by position on time, direction, names and labels
    give the same pairs and the same total, whatever their event types
    and violation messages: an APB classification adds a violation
    record and changes nothing in the paired time. *)
Theorem pairing_ignores_event_type
    (evs evs' : list Ev.t)
    (Hsame : Forall2 sameForPairing evs evs') :
  pairs (pairLoop formatIn userId evs) = pairs (pairLoop formatIn userId evs') /\
  sumTotalMs (pairs (pairLoop formatIn userId evs))
    = sumTotalMs (pairs (pairLoop formatIn userId evs')).
Proof.
  assert (G : forall st st',
    match lastInbound st, lastInbound st' with
    | Some f, Some f' => sameForPairing f f'
    | None, None => True
    | _, _ => False
    end ->
    pairs st = pairs st' ->
    pairs (fold_left (step formatIn userId) evs st)
      = pairs (fold_left (step formatIn userId) evs' st')).
  { induction Hsame as [|ev ev' evs evs' Hev _ IH]; intros st st' Hl Hp.
    - exact Hp.
    - cbn [fold_left].
      destruct (step_type_blind st st' ev ev' Hev Hl Hp) as [Hl' Hp'].
      now apply IH. }
  assert (E : pairs (pairLoop formatIn userId evs)
              = pairs (pairLoop formatIn userId evs'))
    by (apply G; [exact I | reflexivity]).
  split; [exact E | now rewrite E].
Qed.

End TypeBlind.

(* ------------------------------------------------------------------ *)
(** ** The total and the span of the day *)
(* ------------------------------------------------------------------ *)

Lemma sumTotalMs_snoc (ps : list Pair.t) (p : Pair.t) :
  sumTotalMs (ps ++ [p]) = JS.add (sumTotalMs ps) (Pair.totalMs p).
Proof. unfold sumTotalMs. now rewrite fold_left_app. Qed.

Section Span.
Variable formatIn : string -> string -> Z -> string.
Variable userId : string.
Variable t0 : Z.

Lemma step_within (st : PairState) (c : Z) (ev : Ev.t) (x : Z) (z : string) :
  totalWithin t0 st c -> Ev.ts ev = Valid x z -> c <= x ->
  totalWithin t0 (step formatIn userId st ev) x.
Proof.
  intros (T & HT & H0 & Hl) Hx Hc. unfold totalWithin.
  destruct (isIn ev) eqn:Ei.
  - destruct (step_in formatIn userId st ev Ei) as [-> ->].
    exists T. repeat split; auto. exists x, z. repeat split; auto; try lia.
    destruct (lastInbound st); [destruct Hl as (fx & ? & _ & ? & ?)|]; lia.
  - destruct (isOut ev) eqn:Eo.
    + destruct (lastInbound st) as [f|] eqn:El.
      * destruct (step_out_pending formatIn userId st ev f Eo El) as [-> ->].
        destruct Hl as (fx & zf & Hf & H1 & H2).
        exists (T + (x - fx)). rewrite sumTotalMs_snoc, HT.
        cbn [Pair.totalMs mkPair]. unfold durationMs. rewrite Hf, Hx.
        cbn [toMillis]. rewrite sub_Num, Math_max_0_Num.
        cbn [JS.add]. repeat split; try lia. f_equal. lia.
      * rewrite (step_out_idle formatIn userId st ev Eo El).
        exists T. destruct (isAPB ev); cbn [pairs lastInbound]; rewrite ?El;
          repeat split; auto; lia.
    + destruct (step_other formatIn userId st ev Ei Eo) as [-> ->].
      exists T. repeat split; auto.
      destruct (lastInbound st); [|lia].
      destruct Hl as (fx & zf & Hf & H1 & H2). exists fx, zf.
      repeat split; auto; lia.
Qed.

Lemma fold_within (l : list Ev.t) (d : Ev.t) (st : PairState) (c : Z) :
  totalWithin t0 st c -> chronological l ->
  Forall (fun e => exists x z, Ev.ts e = Valid x z /\ c <= x) l ->
  exists c', totalWithin t0 (fold_left (step formatIn userId) l st) c' /\
             ((l = [] /\ c' = c) \/
              (l <> [] /\ exists z, Ev.ts (last l d) = Valid c' z)).
Proof.
  revert st c. induction l as [|ev l IH]; intros st c Hw Hc Hall.
  - exists c. split; [exact Hw | now left].
  - inversion Hall as [|? ? (x & z & Hx & Hcx) Hall']; subst.
    inversion Hc as [|? ? Hc' Hle]; subst.
    cbn [fold_left].
    destruct (IH (step formatIn userId st ev) x) as (c' & Hw' & Hlast).
    + now apply (step_within st c ev x z).
    + exact Hc'.
    + rewrite Forall_forall in *. intros e He.
      specialize (Hle e He). rewrite Hx in Hle.
      destruct (Ev.ts e) as [y zy|]; [|contradiction].
      now exists y, zy.
    + exists c'. split; [exact Hw'|]. right. split; [discriminate|].
      destruct Hlast as [[-> ->]|[Hne (z' & Hl)]].
      * now exists z.
      * exists z'. destruct l; [congruence | exact Hl].
Qed.

End Span.

Section SpanTheorem.
Variable formatIn : string -> string -> Z -> string.
Variable userId : string.

(** X9.  For a chronological sequence of one user's events, the total
    paired time is a number between 0 and the time from the first event
    to the last: paired intervals never overlap, so the total on a day
    cannot exceed the span of that user's events. *)
Theorem total_within_span
    (first : Ev.t) (rest : list Ev.t) (t0 t1 : Z) (z0 z1 : string)
    (Hchron : chronological (first :: rest))
    (Hfirst : Ev.ts first = Valid t0 z0)
    (Hlast : Ev.ts (last rest first) = Valid t1 z1) :
  exists T,
    sumTotalMs (pairs (pairLoop formatIn userId (first :: rest))) = JS.Num T /\
    0 <= T <= t1 - t0.
Proof.
  inversion Hchron as [|? ? Hc Hle]; subst.
  assert (W0 : totalWithin t0 initState t0).
  { exists 0. cbn. repeat split; lia. }
  pose proof (step_within formatIn userId t0 initState t0 first t0 z0 W0 Hfirst
                (Z.le_refl t0)) as W1.
  destruct (fold_within formatIn userId t0 rest first
              (step formatIn userId initState first) t0 W1 Hc)
    as (c' & (T & HT & H0 & Hl) & Hc').
  { rewrite Forall_forall in *. intros e He.
    specialize (Hle e He). rewrite Hfirst in Hle.
    destruct (Ev.ts e) as [y zy|]; [|contradiction]. now exists y, zy. }
  assert (E : c' = t1).
  { destruct Hc' as [[-> ->]|[_ (z & Hz)]].
    - cbn in Hlast. congruence.
    - congruence. }
  subst c'. exists T. split; [exact HT|]. split; [exact H0|].
  unfold pairLoop. cbn [fold_left].
  destruct (lastInbound _); [|lia].
  destruct Hl as (fx & z & _ & ? & ?). lia.
Qed.

End SpanTheorem.

(* ------------------------------------------------------------------ *)
(** ** Grouping and the reports *)
(* ------------------------------------------------------------------ *)

Lemma push_concat (k : string) (ev : Ev.t) (m : list (string * list Ev.t)) :
  Permutation (concat (map snd (push k ev m))) (concat (map snd m) ++ [ev]).
Proof.
  induction m as [|[k0 evs] m IH]; cbn [push map snd concat].
  - apply Permutation_refl.
  - destruct (String.eqb k0 k); cbn [map snd concat].
    + rewrite <- !app_assoc. apply Permutation_app_head.
      apply Permutation_app_comm.
    + rewrite <- app_assoc. now apply Permutation_app_head.
Qed.

Lemma fold_push_concat (l : list Ev.t) (m : list (string * list Ev.t)) :
  Permutation
    (concat (map snd
       (fold_left (fun byUser ev => push (Ev.userId ev) ev byUser) l m)))
    (concat (map snd m) ++ l).
Proof.
  revert m. induction l as [|ev l IH]; intro m; cbn [fold_left].
  - now rewrite app_nil_r.
  - eapply perm_trans; [apply IH|].
    eapply perm_trans; [apply Permutation_app_tail, push_concat|].
    now rewrite <- app_assoc.
Qed.

(** X10.  Grouping by user splits the events without losing, copying or
    reordering any: the keys of [byUser] are pairwise distinct, the
    entry of a key holds exactly the events of that user in their
    original order and is never empty, and all entries together are a
    rearrangement of the input. *)
Theorem groupByUser_partitions (events : list Ev.t) :
  NoDup (map fst (groupByUser events)) /\
  Forall (fun entry => snd entry = filter (ofUser (fst entry)) events /\
                       snd entry <> [])
         (groupByUser events) /\
  Permutation (concat (map snd (groupByUser events))) events.
Proof.
  split; [apply groupByUser_NoDup|]. split.
  - apply Forall_forall. intros [k evs] Hin. cbn [fst snd].
    assert (E : evs = filter (ofUser k) events)
      by now apply groupByUser_entry.
    split; [exact E|].
    assert (Hk : In k (map fst (groupByUser events)))
      by (change k with (fst (k, evs)); now apply in_map).
    apply fold_push_keys in Hk as [[]|(ev & Hev & Hu)].
    intro Hnil. rewrite Hnil in E.
    assert (Hf : In ev (filter (ofUser k) events)).
    { apply filter_In. split; [exact Hev|]. unfold ofUser. rewrite Hu.
      apply String.eqb_refl. }
    now rewrite <- E in Hf.
  - apply (fold_push_concat events []).
Qed.

Section ReportFacts.
Variable parseISO : string -> option Z.
Variable formatIn : string -> string -> Z -> string.

(** X11.  A report never mixes users: each of its pairs carries the
    report's user id and is built from an entry and an exit of the
    sorted event list that both belong to that user. *)
Theorem report_pairs_of_one_user
    (minMinutes : JS.number) (door_id tz : string) (door : Door.t)
    (rawEvents : list Raw.Event) :
  Forall (fun r =>
     Forall (fun p =>
        Pair.userId p = Report.userId r /\
        exists f s,
          In f (filtered parseISO door_id tz door rawEvents) /\
          In s (filtered parseISO door_id tz door rawEvents) /\
          Ev.userId f = Report.userId r /\ Ev.userId s = Report.userId r /\
          p = mkPair formatIn (Report.userId r) f s)
       (Report.pairs r))
    (results parseISO formatIn minMinutes door_id tz door rawEvents).
Proof.
  apply Forall_forall. intros r Hr.
  apply sort_In, collect_In in Hr as (u & evs & Hin & _ & ->).
  cbn [Report.userId Report.pairs mkReport].
  apply groupByUser_entry in Hin.
  destruct (pairLoop_origin formatIn u evs) as [_ H].
  eapply Forall_impl; [|exact H].
  intros p (f & s & Hb & _ & _ & ->). split; [reflexivity|].
  apply occursBefore_In in Hb as [Hf Hs]. rewrite Hin in Hf, Hs.
  apply filter_In in Hf as [Hf Uf], Hs as [Hs Us].
  apply String.eqb_eq in Uf, Us. now exists f, s.
Qed.

Lemma collect_userIds (minMinutes : JS.number)
    (byUser : list (string * list Ev.t)) :
  NoDup (map fst byUser) ->
  NoDup (map Report.userId (collect formatIn minMinutes byUser)) /\
  incl (map Report.userId (collect formatIn minMinutes byUser)) (map fst byUser).
Proof.
  induction byUser as [|[k evs] m IH]; intro Hnd; cbn [collect flat_map map fst].
  - split; [constructor | apply incl_nil_l].
  - inversion Hnd as [|? ? Hk Hnd']; subst.
    destruct (IH Hnd') as [IH1 IH2]. unfold collect in *.
    unfold userReport at 1 3. cbn [fst snd].
    destruct (included _ _ _); cbn [app map Report.userId mkReport].
    + split.
      * constructor; [|exact IH1]. intro H. apply Hk. now apply IH2.
      * apply incl_cons; [now left | now apply incl_tl].
    + split; [exact IH1 | now apply incl_tl].
Qed.

(** X12.  The final list holds at most one report per user: the user ids
    of the reports are pairwise distinct. *)
Theorem one_report_per_user
    (minMinutes : JS.number) (door_id tz : string) (door : Door.t)
    (rawEvents : list Raw.Event) :
  NoDup (map Report.userId
           (results parseISO formatIn minMinutes door_id tz door rawEvents)).
Proof.
  eapply Permutation_NoDup.
  - apply Permutation_map. unfold results. apply sort_perm.
  - apply collect_userIds, groupByUser_NoDup.
Qed.

(** X13.  With a threshold of zero minutes or less, every user with a
    retained event is reported, provided the fetched timestamps parse:
    the total is then a non-negative number and reaches the threshold. *)
Theorem nonpositive_threshold_reports_everyone
    (m : Z) (door_id tz : string) (door : Door.t)
    (rawEvents : list Raw.Event) (ev : Ev.t)
    (Hm : m <= 0)
    (Hparse : Forall (parses parseISO) rawEvents)
    (Hev : In ev (filtered parseISO door_id tz door rawEvents)) :
  exists r,
    In r (results parseISO formatIn (JS.Num m) door_id tz door rawEvents) /\
    Report.userId r = Ev.userId ev.
Proof.
  set (l := filtered parseISO door_id tz door rawEvents) in *.
  set (u := Ev.userId ev). set (evs := filter (ofUser u) l).
  assert (Hentry : In (u, evs) (groupByUser l)) by now apply groupByUser_covers.
  assert (Hv : Forall validTs evs).
  { apply Forall_forall. intros e He. apply filter_In in He as [He _].
    apply filtered_In in He.
    pose proof (filterStage_valid parseISO door_id tz door rawEvents Hparse) as Hall.
    rewrite Forall_forall in Hall. auto. }
  destruct (total_numeric formatIn u evs Hv) as (t & Ht & Ht0).
  exists (mkReport u evs (pairLoop formatIn u evs)). split; [|reflexivity].
  apply sort_In, collect_In. exists u, evs.
  split; [exact Hentry|]. split; [|reflexivity].
  apply included_iff. left. exists t. split; [exact Ht | lia].
Qed.

Lemma filterStage_relevant (door_id tz : string) (door : Door.t)
    (rawEvents : list Raw.Event) :
  filterStage parseISO door_id tz door rawEvents =
    map (normalize parseISO tz door) (filter (relevant door_id) rawEvents).
Proof.
  unfold filterStage. rewrite filter_map_swap, filter_filter.
  f_equal. apply filter_ext. intro e. unfold relevant.
  now rewrite keep_normalize.
Qed.

(** X14.  Only the events that pass the two filters count: dropping
    every other event from the fetched list (events of other doors, and
    events of the door that are neither directional nor APB-typed)
    leaves the report unchanged, and a fetch without any such event
    gives an empty report. *)
Theorem report_depends_on_relevant_events
    (minMinutes : JS.number) (door_id tz : string) (door : Door.t)
    (rawEvents : list Raw.Event) :
  results parseISO formatIn minMinutes door_id tz door
          (filter (relevant door_id) rawEvents)
    = results parseISO formatIn minMinutes door_id tz door rawEvents /\
  (filter (relevant door_id) rawEvents = [] ->
   results parseISO formatIn minMinutes door_id tz door rawEvents = []).
Proof.
  assert (E : filterStage parseISO door_id tz door
                (filter (relevant door_id) rawEvents)
              = filterStage parseISO door_id tz door rawEvents).
  { rewrite !filterStage_relevant, filter_filter. f_equal.
    apply filter_ext. intro e. now rewrite andb_diag. }
  split.
  - unfold results, filtered. now rewrite E.
  - intro Hnil. unfold results, filtered.
    now rewrite filterStage_relevant, Hnil.
Qed.

End ReportFacts.

(* ------------------------------------------------------------------ *)
(** ** Independence of the fetch order *)
(* ------------------------------------------------------------------ *)

Lemma filter_Permutation {A : Type} (p : A -> bool) (l l' : list A) :
  Permutation l l' -> Permutation (filter p l) (filter p l').
Proof.
  induction 1 as [|x l l' _ IH|x y l|l l' l'' _ IH1 _ IH2]; cbn [filter].
  - apply perm_nil.
  - destruct (p x); [now apply perm_skip | exact IH].
  - destruct (p x), (p y); try apply Permutation_refl. apply perm_swap.
  - now apply perm_trans with (filter p l').
Qed.

Lemma distinct_keys_survive_filter {X K : Type} (key : X -> K)
    (test : X -> bool) (xs : list X) (Hxs : NoDup (map key xs)) :
  NoDup (map key (filter test xs)).
Proof.
  induction xs as [|x xs IH]; cbn [filter map] in *; [exact Hxs|].
  inversion Hxs as [|? ? Hx Hrest]; subst.
  destruct (test x); cbn [map]; [|now apply IH].
  constructor; [|now apply IH].
  intro Hin. apply Hx. apply in_map_iff in Hin as (y & Hy & Hin).
  apply filter_In in Hin as [Hin _]. rewrite <- Hy. now apply in_map.
Qed.

Lemma NoDup_map_injective {A B : Type} (g : A -> B) (l : list A) :
  (forall x y, g x = g y -> x = y) -> NoDup l -> NoDup (map g l).
Proof.
  intros Hg H. induction H as [|x l Hx _ IH]; cbn [map]; constructor; [|exact IH].
  intro Hin. apply in_map_iff in Hin as (y & Hy & Hin).
  apply Hg in Hy. now subst.
Qed.

(** Two chronological arrangements of the same events, with pairwise
    distinct times, are the same list. *)
Lemma chronological_unique (l l' : list Ev.t) :
  chronological l -> chronological l' ->
  NoDup (map (fun ev => toMillis (Ev.ts ev)) l) ->
  Permutation l l' -> l = l'.
Proof.
  revert l'. induction l as [|a t IH]; intros l' Hc Hc' Hnd Hp.
  - now apply Permutation_nil in Hp.
  - destruct l' as [|b t'].
    + apply Permutation_sym, Permutation_nil in Hp. discriminate.
    + inversion Hc as [|? ? Hct Hat]; subst.
      inversion Hc' as [|? ? Hct' Hbt]; subst.
      cbn [map] in Hnd. inversion Hnd as [|? ? Ha Hndt]; subst.
      assert (E : a = b).
      { assert (Ha' : In a (b :: t'))
          by (eapply Permutation_in; [exact Hp | now left]).
        assert (Hb' : In b (a :: t))
          by (eapply Permutation_in; [apply Permutation_sym, Hp | now left]).
        destruct Ha' as [->|Ha']; [reflexivity|].
        destruct Hb' as [->|Hb']; [reflexivity|].
        exfalso. apply Ha.
        rewrite Forall_forall in Hat, Hbt.
        specialize (Hat b Hb'). specialize (Hbt a Ha').
        apply in_map_iff. exists b. split; [|exact Hb'].
        destruct (Ev.ts a) as [x zx|], (Ev.ts b) as [y zy|];
          cbn in *; try contradiction.
        f_equal. lia. }
      subst b. f_equal. apply IH; auto.
      now apply Permutation_cons_inv in Hp.
Qed.

Section FetchOrder.
Variable parseISO : string -> option Z.
Variable formatIn : string -> string -> Z -> string.

Lemma millis_normalize (tz : string) (door : Door.t) (e : Raw.Event) :
  toMillis (Ev.ts (normalize parseISO tz door e)) =
    match stampOf parseISO e with
    | Some ms => JS.Num ms
    | None => JS.NaN
    end.
Proof.
  cbn [Ev.ts normalize]. unfold fromISO, stampOf.
  destruct (Raw.timestamp e) as [s|]; [|reflexivity].
  now destruct (parseISO s).
Qed.

(** X15.  The order in which the events are fetched does not matter
    when their timestamps parse and are pairwise distinct: any
    rearrangement of the fetched list gives the same sorted events and
    the same report.  (Events with equal timestamps keep their fetch
    order, so there the order can matter.) *)
Theorem report_independent_of_fetch_order
    (minMinutes : JS.number) (door_id tz : string) (door : Door.t)
    (rawEvents rawEvents' : list Raw.Event)
    (Hperm : Permutation rawEvents rawEvents')
    (Hparse : Forall (parses parseISO) rawEvents)
    (Hdistinct : NoDup (map (stampOf parseISO) rawEvents)) :
  filtered parseISO door_id tz door rawEvents'
    = filtered parseISO door_id tz door rawEvents /\
  results parseISO formatIn minMinutes door_id tz door rawEvents'
    = results parseISO formatIn minMinutes door_id tz door rawEvents.
Proof.
  assert (Hparse' : Forall (parses parseISO) rawEvents')
    by (eapply Permutation_Forall; eassumption).
  assert (Hstage : Permutation (filterStage parseISO door_id tz door rawEvents)
                               (filterStage parseISO door_id tz door rawEvents')).
  { unfold filterStage.
    now apply filter_Permutation, Permutation_map, filter_Permutation. }
  assert (Hkeys : NoDup (map (fun ev => toMillis (Ev.ts ev))
                           (filterStage parseISO door_id tz door rawEvents))).
  { rewrite filterStage_relevant, map_map.
    erewrite map_ext; [|intro e; apply millis_normalize].
    rewrite <- (map_map (stampOf parseISO)
                  (fun o => match o with Some ms => JS.Num ms | None => JS.NaN end)).
    apply NoDup_map_injective.
    - intros [x|] [y|]; congruence.
    - now apply distinct_keys_survive_filter. }
  assert (E : filtered parseISO door_id tz door rawEvents'
              = filtered parseISO door_id tz door rawEvents).
  { symmetry. apply chronological_unique.
    - now apply sort_byTime_chronological, filterStage_valid.
    - now apply sort_byTime_chronological, filterStage_valid.
    - eapply Permutation_NoDup; [|exact Hkeys].
      apply Permutation_map. unfold filtered. apply sort_perm.
    - unfold filtered.
      eapply perm_trans; [apply Permutation_sym, sort_perm|].
      eapply perm_trans; [exact Hstage | apply sort_perm]. }
  split; [exact E|]. unfold results. now rewrite E.
Qed.

End FetchOrder.

(* ------------------------------------------------------------------ *)
(** ** Responses of the break-report handler *)
(* ------------------------------------------------------------------ *)

Section ResponseFacts.
Variable parseISO : string -> option Z.
Variable formatIn : string -> string -> Z -> string.
Variable StringToNumber : string -> JS.number.

(** X16.  The handler answers a missing or empty [door_id] with 400
    "Missing door_id" whatever the collaborators would return; it sends
    a report payload with status 200 and with no other status; and the
    door of a payload is the door of the vendor's list with the
    requested id, shown with its name, its site name (or "Unknown
    Site") and its time zone (or "UTC"), and that zone is the zone of
    the reported range, whose bounds are those of the requested day in
    that zone. *)
Theorem breakReport_responses (q : Query) (w : World) :
  (JS.truthy (q_door_id q) = false ->
   forall w', breakReport parseISO formatIn StringToNumber q w'
              = mkResponse 400 (Error "Missing door_id")) /\
  (status (breakReport parseISO formatIn StringToNumber q w) = 200
   <-> exists p, body (breakReport parseISO formatIn StringToNumber q w) = Ok p) /\
  (forall p,
     body (breakReport parseISO formatIn StringToNumber q w) = Ok p ->
     exists allDoors d,
       fetchDoors w = Some allDoors /\
       find (fun d => JS.opt_eq (Door.door_id d) (JS.or_lit (q_door_id q) ""))
            allDoors = Some d /\
       ds_door_id (door p) = q_door_id q /\
       ds_door_id (door p) = Door.door_id d /\
       ds_name (door p) = Door.name d /\
       ds_site_name (door p)
         = match Door.site_name d with
           | Some n => if String.eqb n "" then "Unknown Site" else n
           | None => "Unknown Site"
           end /\
       ds_timezone (door p)
         = match Door.timezone d with
           | Some z => if String.eqb z "" then "UTC" else z
           | None => "UTC"
           end /\
       range_tz (generatedRange p) = ds_timezone (door p) /\
       dayBounds w (match q_date q with
                    | Some t => if String.eqb t "" then None else Some t
                    | None => None
                    end)
                 (ds_timezone (door p))
         = Some (start_unix (generatedRange p), end_unix (generatedRange p))).
Proof.
  split; [|split].
  - intros H w'. unfold breakReport. now rewrite H.
  - unfold breakReport.
    destruct (negb (JS.truthy (q_door_id q)));
      [split; [discriminate | intros (p & [=])]|].
    destruct (getBearerToken w); [|split; [discriminate | intros (p & [=])]].
    destruct (fetchDoors w) as [allDoors|];
      [|split; [discriminate | intros (p & [=])]].
    destruct (find _ allDoors) as [d|];
      [|split; [discriminate | intros (p & [=])]].
    destruct (dayBounds w _ _) as [[sU eU]|];
      [|split; [discriminate | intros (p & [=])]].
    destruct (fetchAllAccessEvents w sU eU);
      [|split; [discriminate | intros (p & [=])]].
    split; [eexists; reflexivity | reflexivity].
  - intros p Hp.
    apply breakReport_payload in Hp
      as (allDoors & d & sU & eU & rawEvents & Et & Hd & Hf & Hday & _ & ->).
    exists allDoors, d. cbn.
    split; [exact Hd|]. split; [exact Hf|]. split.
    { apply find_some in Hf as [_ Hf].
      destruct (Door.door_id d) as [i|]; [|discriminate Hf].
      cbn in Hf. apply String.eqb_eq in Hf.
      destruct (q_door_id q) as [qd|]; [|discriminate Et].
      cbn in Et, Hf. apply negb_true_iff in Et. rewrite Et in Hf. now subst. }
    repeat (split; [reflexivity|]).
    unfold JS.or_null, JS.truthy in Hday.
    destruct (q_date q) as [t|]; [|exact Hday].
    destruct (String.eqb t ""); exact Hday.
Qed.

End ResponseFacts.

(* ------------------------------------------------------------------ *)
(** ** The token cache *)
(* ------------------------------------------------------------------ *)

Lemma token_hit (dateNow : Z) (post : Outcome Token.Reply) (cache : Token.Cache) :
  JS.truthy (Token.token cache) = true ->
  dateNow / 1000 < Token.expiresAt cache ->
  Token.getBearerToken dateNow post cache
    = (Returned (Token.token cache), cache).
Proof.
  intros Ht He. unfold Token.getBearerToken. rewrite Ht.
  apply Z.ltb_lt in He. now rewrite He.
Qed.

(** X17.  A token fetched at clock reading [t0] is served from the cache,
    with no request made and the cache left as it is, by every call
    made before second [t0/1000 + 300]: five minutes of reuse, whatever
    the network would answer. *)
Theorem token_reused_for_five_minutes
    (t0 : Z) (res : Token.Reply) (tok : string) (cache : Token.Cache)
    (Hmiss : JS.truthy (Token.token cache)
             && (t0 / 1000 <? Token.expiresAt cache) = false)
    (Hok : Token.ok res = true)
    (Hjson : Token.json res = Returned (Some tok))
    (Htok : tok <> "") :
  let cache1 := snd (Token.getBearerToken t0 (Returned res) cache) in
  fst (Token.getBearerToken t0 (Returned res) cache) = Returned (Some tok) /\
  cache1 = Token.mkCache (Some tok) (t0 / 1000 + 300) /\
  forall t1 post,
    t1 / 1000 < t0 / 1000 + 300 ->
    Token.getBearerToken t1 post cache1 = (Returned (Some tok), cache1).
Proof.
  assert (E : Token.getBearerToken t0 (Returned res) cache
              = (Returned (Some tok), Token.mkCache (Some tok) (t0 / 1000 + 300))).
  { unfold Token.getBearerToken. now rewrite Hmiss, Hok, Hjson. }
  rewrite E. cbn [fst snd]. split; [reflexivity|]. split; [reflexivity|].
  intros t1 post Ht. apply token_hit; [|exact Ht].
  cbn. apply negb_true_iff. now apply String.eqb_neq.
Qed.

Lemma token_miss (dateNow : Z) (post : Outcome Token.Reply)
    (cache : Token.Cache) (v : option string) :
  JS.truthy (Token.token cache) = false
  \/ Token.expiresAt cache <= dateNow / 1000 ->
  fst (Token.getBearerToken dateNow post cache) = Returned v ->
  exists res,
    post = Returned res /\ Token.ok res = true /\
    Token.json res = Returned v /\
    snd (Token.getBearerToken dateNow post cache)
      = Token.mkCache v (dateNow / 1000 + 300).
Proof.
  intros Hmiss.
  assert (E : JS.truthy (Token.token cache)
              && (dateNow / 1000 <? Token.expiresAt cache) = false).
  { destruct Hmiss as [H|H]; [now rewrite H|].
    apply andb_false_iff. right. now apply Z.ltb_ge. }
  unfold Token.getBearerToken. rewrite E.
  destruct post as [res|m]; [|discriminate].
  destruct (Token.ok res) eqn:Hok; cbn [negb]; [|discriminate].
  destruct (Token.json res) as [tok|m] eqn:Hj; [|discriminate].
  cbn [fst snd]. intros [= <-]. now exists res.
Qed.

(** X18.  A stale token is never served.  Once the cached token has
    expired (or when there is none, or the cached value is empty), a
    call returns a value only if its own request succeeds, and that
    value is then cached for 300 seconds from now; a call that throws
    leaves the cache as it was, and every later call goes to the
    network again in the same way. *)
Theorem stale_token_never_served
    (dateNow : Z) (post : Outcome Token.Reply) (cache : Token.Cache)
    (Hmiss : JS.truthy (Token.token cache) = false
             \/ Token.expiresAt cache <= dateNow / 1000) :
  (forall v,
     fst (Token.getBearerToken dateNow post cache) = Returned v ->
     exists res,
       post = Returned res /\ Token.ok res = true /\
       Token.json res = Returned v /\
       snd (Token.getBearerToken dateNow post cache)
         = Token.mkCache v (dateNow / 1000 + 300)) /\
  (forall m,
     fst (Token.getBearerToken dateNow post cache) = Thrown m ->
     snd (Token.getBearerToken dateNow post cache) = cache /\
     forall later post' v,
       dateNow <= later ->
       fst (Token.getBearerToken later post' cache) = Returned v ->
       exists res,
         post' = Returned res /\ Token.ok res = true /\
         Token.json res = Returned v).
Proof.
  split.
  - intros v. now apply token_miss.
  - intros m Hm. split.
    + revert Hm. unfold Token.getBearerToken.
      destruct (JS.truthy (Token.token cache)
                && (dateNow / 1000 <? Token.expiresAt cache)); [discriminate|].
      destruct post as [res|m']; [|reflexivity].
      destruct (Token.ok res); cbn [negb]; [|reflexivity].
      now destruct (Token.json res).
    + intros later post' v Hlater Hv.
      assert (Hmiss' : JS.truthy (Token.token cache) = false
                       \/ Token.expiresAt cache <= later / 1000).
      { destruct Hmiss as [H|H]; [now left | right].
        pose proof (Z.div_le_mono dateNow later 1000 ltac:(lia) Hlater). lia. }
      destruct (token_miss later post' cache v Hmiss' Hv) as (res & ? & ? & ? & _).
      now exists res.
Qed.

(* ------------------------------------------------------------------ *)
(** ** The paginated fetch *)
(* ------------------------------------------------------------------ *)

Section PaginationFacts.
Variable server : Pagination.Request -> Outcome Pagination.Reply.
Variable startUnix endUnix : Z.

(** Following pages that name a next page costs one unit of fuel each
    and appends their events. *)
Lemma loop_follows (js : list (option Pagination.Page))
    (tok tok' : option string) (all : list Raw.Event) (fuel : nat) :
  pagesLead server startUnix endUnix tok js tok' ->
  Pagination.loop (length js + fuel) server startUnix endUnix all tok =
  Pagination.loop fuel server startUnix endUnix
    (all ++ concat (map Pagination.pageEvents js)) tok'.
Proof.
  revert tok all. induction js as [|j js IH]; intros tok all H.
  - cbn in H. subst tok'. cbn. now rewrite app_nil_r.
  - destruct H as ((resp & Hs & Hok & Hj) & t & Ht & Hrest).
    cbn [length Nat.add Pagination.loop]. rewrite Hs, Hok, Hj. cbn [negb].
    rewrite Ht, (IH (Some t) _ Hrest). cbn [map concat].
    now rewrite app_assoc.
Qed.

(** X19.  When the server hands out a chain of pages, each naming the
    next and the last naming none, the fetch returns the events of all
    pages in page order, as soon as the fuel covers one request per
    page; the first request carries no page token, and every request
    asks for 100 events of the same window. *)
Theorem pagination_collects_all_pages
    (js : list (option Pagination.Page)) (tok : option string)
    (last : option Pagination.Page) (fuel : nat)
    (Hlead : pagesLead server startUnix endUnix None js tok)
    (Hlast : pageAnswered server startUnix endUnix tok last)
    (Hend : Pagination.pageNext last = None)
    (Hfuel : (length js < fuel)%nat) :
  Pagination.fetchAllAccessEvents fuel server startUnix endUnix =
    Some (Returned (concat (map Pagination.pageEvents js)
                    ++ Pagination.pageEvents last)).
Proof.
  unfold Pagination.fetchAllAccessEvents.
  replace fuel with (length js + S (fuel - length js - 1))%nat by lia.
  rewrite (loop_follows js None tok [] _ Hlead).
  destruct Hlast as (resp & Hs & Hok & Hj).
  cbn [Pagination.loop]. rewrite Hs, Hok, Hj. cbn [negb]. now rewrite Hend.
Qed.

(** X20.  A failure on any page aborts the whole fetch: after any number
    of good pages, a rejected request, a reply that is not ok or a body
    that does not parse makes the fetch throw with the message of that
    failure, and none of the events collected so far is returned. *)
Theorem pagination_failure_aborts
    (js : list (option Pagination.Page)) (tok : option string)
    (msg : string) (fuel : nat)
    (Hlead : pagesLead server startUnix endUnix None js tok)
    (Hfail : pageFails server startUnix endUnix tok msg)
    (Hfuel : (length js < fuel)%nat) :
  Pagination.fetchAllAccessEvents fuel server startUnix endUnix
    = Some (Thrown msg).
Proof.
  unfold Pagination.fetchAllAccessEvents.
  replace fuel with (length js + S (fuel - length js - 1))%nat by lia.
  rewrite (loop_follows js None tok [] _ Hlead).
  unfold pageFails in Hfail. cbn [Pagination.loop].
  destruct (server _) as [resp|m]; [|now subst].
  destruct (Pagination.ok resp); cbn [negb]; [|now subst].
  now rewrite Hfail.
Qed.

(** X21.  The loop has no bound of its own: against a server that names
    a next page in every reply the fetch never ends, whatever fuel it is
    given. *)
Theorem pagination_never_ends_on_endless_pages
    (Hendless : forall tok, exists j,
        pageAnswered server startUnix endUnix tok j /\
        Pagination.pageNext j <> None)
    (fuel : nat) :
  Pagination.fetchAllAccessEvents fuel server startUnix endUnix = None.
Proof.
  unfold Pagination.fetchAllAccessEvents.
  generalize (@nil Raw.Event) (@None string).
  induction fuel as [|fuel IH]; intros all tok; [reflexivity|].
  destruct (Hendless tok) as (j & (resp & Hs & Hok & Hj) & Hn).
  cbn [Pagination.loop]. rewrite Hs, Hok, Hj. cbn [negb].
  destruct (Pagination.pageNext j) as [t|]; [apply IH | congruence].
Qed.

End PaginationFacts.

Lemma tokenFrom_more (h h' : list (Z * Outcome Token.Reply))
    (cache : Token.Cache) :
  tokenFrom h cache -> tokenFrom (h ++ h') cache.
Proof.
  intros H Ht. destruct (H Ht) as (t & res & Hin & ?).
  exists t, res. split; [apply in_or_app; now left | assumption].
Qed.

Lemma getBearerToken_tokenFrom (h : list (Z * Outcome Token.Reply))
    (dateNow : Z) (post : Outcome Token.Reply) (cache : Token.Cache) :
  tokenFrom h cache ->
  tokenFrom (h ++ [(dateNow, post)])
            (snd (Token.getBearerToken dateNow post cache)).
Proof.
  intro H. unfold Token.getBearerToken.
  destruct (JS.truthy (Token.token cache)
            && (dateNow / 1000 <? Token.expiresAt cache));
    [now apply tokenFrom_more|].
  destruct post as [res|m]; [|now apply tokenFrom_more].
  destruct (Token.ok res) eqn:Hok; cbn [negb]; [|now apply tokenFrom_more].
  destruct (Token.json res) as [tok|m] eqn:Hj; [|now apply tokenFrom_more].
  cbn [snd]. intros _. exists dateNow, res. cbn.
  split; [apply in_or_app; right; now left | auto].
Qed.

Lemma tokenCalls_tokenFrom (calls h : list (Z * Outcome Token.Reply))
    (cache : Token.Cache) :
  tokenFrom h cache -> tokenFrom (h ++ calls) (tokenCalls calls cache).
Proof.
  revert h cache. induction calls as [|[t post] calls IH]; intros h cache H.
  - now rewrite app_nil_r.
  - cbn [tokenCalls].
    replace (h ++ (t, post) :: calls) with ((h ++ [(t, post)]) ++ calls)
      by now rewrite <- app_assoc.
    now apply IH, getBearerToken_tokenFrom.
Qed.

(** X22.  Whatever calls were made since the server started, a token
    that [getBearerToken] serves from its cache is one the vendor gave
    in a successful reply to an earlier call, made less than 300 seconds
    of clock reading before: the cache never invents a token and never
    serves one past its five minutes. *)
Theorem served_token_is_fresh
    (calls : list (Z * Outcome Token.Reply)) (t1 : Z)
    (post : Outcome Token.Reply)
    (Hhit : JS.truthy (Token.token (tokenCalls calls Token.initial))
            && (t1 / 1000 <? Token.expiresAt (tokenCalls calls Token.initial))
            = true) :
  let cache := tokenCalls calls Token.initial in
  Token.getBearerToken t1 post cache = (Returned (Token.token cache), cache) /\
  exists t res,
    In (t, Returned res) calls /\ Token.ok res = true /\
    Token.json res = Returned (Token.token cache) /\
    t1 / 1000 < t / 1000 + 300.
Proof.
  intro cache. fold cache in Hhit.
  apply andb_true_iff in Hhit as [Ht He]. apply Z.ltb_lt in He.
  split; [now apply token_hit|].
  assert (H : tokenFrom ([] ++ calls) cache).
  { apply tokenCalls_tokenFrom. intro H. discriminate H. }
  destruct (H Ht) as (t & res & Hin & Hok & Hj & Hexp).
  exists t, res. repeat split; auto. lia.
Qed.

(* ------------------------------------------------------------------ *)
(** ** The door list *)
(* ------------------------------------------------------------------ *)

Section SortMFacts.
Context {A : Type}.
Variable cmp : A -> A -> Outcome JS.number.

Lemma insertM_perm (x : A) (l r : list A) :
  JSMore.insertM cmp x l = Returned r -> Permutation (x :: l) r.
Proof.
  revert r. induction l as [|y l IH]; intros r; cbn [JSMore.insertM].
  - intros [= <-]. apply Permutation_refl.
  - destruct (cmp x y) as [v|m]; [|discriminate].
    destruct (JS.gt v (JS.Num 0)).
    + destruct (JSMore.insertM cmp x l) as [r'|m]; [|discriminate].
      intros [= <-]. eapply perm_trans; [apply perm_swap|].
      now apply perm_skip, IH.
    + intros [= <-]. apply Permutation_refl.
Qed.

Lemma sortM_perm (l r : list A) :
  JSMore.sortM cmp l = Returned r -> Permutation l r.
Proof.
  revert r. induction l as [|x l IH]; intros r; cbn [JSMore.sortM].
  - intros [= <-]. apply perm_nil.
  - destruct (JSMore.sortM cmp l) as [r'|m]; [|discriminate].
    intro H. apply insertM_perm in H.
    eapply perm_trans; [apply perm_skip, IH; reflexivity | exact H].
Qed.

(** A comparator that does not throw on the elements of the array gives
    the sort of [JS.sort]. *)
Variable total : A -> A -> JS.number.
Variable safe : A -> Prop.
Hypothesis cmp_safe : forall x y, safe x -> cmp x y = Returned (total x y).

Lemma insertM_sort (x : A) (l : list A) :
  safe x -> JSMore.insertM cmp x l = Returned (JS.insert total x l).
Proof.
  intro Hx. induction l as [|y l IH]; cbn [JSMore.insertM JS.insert]; [reflexivity|].
  rewrite (cmp_safe x y Hx). unfold JS.after.
  destruct (JS.gt (total x y) (JS.Num 0)); [now rewrite IH | reflexivity].
Qed.

Lemma sortM_sort (l : list A) :
  Forall safe l -> JSMore.sortM cmp l = Returned (JS.sort total l).
Proof.
  induction 1 as [|x l Hx _ IH]; cbn [JSMore.sortM JS.sort]; [reflexivity|].
  rewrite IH. now apply insertM_sort.
Qed.

End SortMFacts.

Section DoorFacts.
Variable localeCompare : string -> string -> JS.number.

Lemma breakRank_cases (d : DoorsApi.Listed) :
  (DoorsApi.breakRank d = 0 /\ isBreakDoor d = true) \/
  (DoorsApi.breakRank d = 1 /\ isBreakDoor d = false).
Proof.
  unfold DoorsApi.breakRank, isBreakDoor.
  destruct (DoorsApi.containsBreak (DoorsApi.name d)); auto.
Qed.

Lemma compareDoors_named (a b : DoorsApi.Listed) :
  named a ->
  DoorsApi.compareDoors localeCompare a b
    = Returned (namedCompare localeCompare a b).
Proof.
  unfold named, DoorsApi.compareDoors, namedCompare, nameText.
  intro Ha. destruct (negb _); [reflexivity|].
  destruct (DoorsApi.name a); [reflexivity | contradiction].
Qed.

Lemma precedes_listedBefore (a b : DoorsApi.Listed) :
  JS.precedes (namedCompare localeCompare) a b
  <-> listedBefore localeCompare a b.
Proof.
  unfold JS.precedes, JS.after, namedCompare, listedBefore.
  destruct (breakRank_cases a) as [[Ha _]|[Ha _]],
           (breakRank_cases b) as [[Hb _]|[Hb _]];
    rewrite Ha, Hb; cbn; split; intro H;
    try (right; split; [reflexivity | exact H]);
    try (left; lia); try reflexivity;
    try (destruct H as [H|[_ H]]; [lia | exact H]);
    try (destruct H as [H|[H _]]; lia); try discriminate.
Qed.

(** X23.  When the vendor's doors all have a name and the collation is
    consistent, [/api/doors] answers 200 with every door of the vendor
    exactly once, the doors whose name contains "break" (in any case)
    before all others, each of the two classes in collation order, and
    doors of the same class and name in the vendor's order. *)
Theorem doors_listed_break_first
    (tok : option string) (r : DoorsApi.Reply)
    (vendor : list DoorsApi.VendorDoor)
    (Hok : DoorsApi.ok r = true)
    (Hjson : DoorsApi.json r = Returned (Some vendor))
    (Hnamed : Forall (fun d => DoorsApi.v_name d <> None) vendor)
    (Hcoll : consistentCollation localeCompare) :
  exists ds,
    DoorsApi.listDoors localeCompare (Returned tok) (Returned r)
      = DoorsApi.Doors 200 ds /\
    Permutation (map DoorsApi.shape vendor) ds /\
    StronglySorted (listedBefore localeCompare) ds /\
    (forall l1 a l2 b l3,
        ds = l1 ++ a :: l2 ++ b :: l3 ->
        isBreakDoor b = true -> isBreakDoor a = true) /\
    (forall k, filter (sameNameAs k) ds
               = filter (sameNameAs k) (map DoorsApi.shape vendor)).
Proof.
  destruct Hcoll as [Htot Htrans].
  set (doors := map DoorsApi.shape vendor).
  assert (Hsafe : Forall named doors).
  { unfold doors. apply Forall_forall. intros d Hd.
    apply in_map_iff in Hd as (v & <- & Hv).
    rewrite Forall_forall in Hnamed. now apply Hnamed. }
  assert (Hsort : JSMore.sortM (DoorsApi.compareDoors localeCompare) doors
                  = Returned (JS.sort (namedCompare localeCompare) doors)).
  { apply (sortM_sort _ _ named); [|exact Hsafe].
    intros x y Hx. now apply compareDoors_named. }
  exists (JS.sort (namedCompare localeCompare) doors).
  assert (Hall : Forall (fun _ : DoorsApi.Listed => True) doors)
    by (apply Forall_forall; auto).
  assert (Hsorted : StronglySorted (listedBefore localeCompare)
                      (JS.sort (namedCompare localeCompare) doors)).
  { assert (Hs : StronglySorted (JS.precedes (namedCompare localeCompare))
                   (JS.sort (namedCompare localeCompare) doors)).
    { apply (sort_sorted _ (fun _ => True)); [| |exact Hall].
      - intros x y _ _ H. apply precedes_listedBefore.
        assert (Hn : ~ listedBefore localeCompare x y).
        { intro Hb. apply precedes_listedBefore in Hb.
          unfold JS.precedes in Hb. congruence. }
        unfold listedBefore in *.
        destruct (breakRank_cases x) as [[Hx _]|[Hx _]],
                 (breakRank_cases y) as [[Hy _]|[Hy _]];
          rewrite Hx, Hy in *; try (left; lia);
          try (exfalso; apply Hn; left; lia);
          right; (split; [reflexivity|]); apply Htot;
          destruct (JS.gt (localeCompare (nameText x) (nameText y)) (JS.Num 0));
          try reflexivity; exfalso; apply Hn; right; now split.
      - intros x y z _ _ _ Hxy Hyz.
        apply precedes_listedBefore. apply precedes_listedBefore in Hxy, Hyz.
        unfold listedBefore in *.
        destruct Hxy as [Hxy|[Exy Hxy]], Hyz as [Hyz|[Eyz Hyz]];
          try (left; lia).
        right. split; [lia|]. now apply (Htrans _ (nameText y)). }
    eapply StronglySorted_ind with
      (P := fun l => StronglySorted (listedBefore localeCompare) l);
      [constructor | | exact Hs].
    intros a l _ IH Hfa. constructor; [exact IH|].
    eapply Forall_impl; [|exact Hfa]. intros b. apply precedes_listedBefore. }
  split.
  - unfold DoorsApi.listDoors. rewrite Hok, Hjson. cbn [negb].
    fold doors. now rewrite Hsort.
  - split; [apply sort_perm|]. split; [exact Hsorted|]. split.
    + intros l1 a l2 b l3 Hsplit Hb. rewrite Hsplit in Hsorted.
      clear - Hsorted Hb. induction l1 as [|c l1 IH]; cbn in Hsorted.
      * inversion Hsorted as [|? ? _ Hfa]; subst.
        rewrite Forall_forall in Hfa.
        assert (Hab : listedBefore localeCompare a b)
          by (apply Hfa, in_or_app; right; now left).
        unfold listedBefore in Hab.
        destruct (breakRank_cases a) as [[Ha Ha']|[Ha Ha']],
                 (breakRank_cases b) as [[Hb0 Hb']|[Hb0 Hb']];
          rewrite ?Ha, ?Hb0 in Hab; try assumption; try congruence.
        destruct Hab as [Hab|[Hab _]]; lia.
      * inversion Hsorted; subst. auto.
    + intro k. apply (sort_stable _ (fun _ => True)); [|exact Hall].
      intros x y _ _ Cx Cy. unfold sameNameAs in Cx, Cy.
      apply andb_true_iff in Cx as [Rx Nx], Cy as [Ry Ny].
      apply String.eqb_eq in Nx, Ny. apply Z.eqb_eq in Rx, Ry.
      unfold JS.after, namedCompare. rewrite Rx, Ry, Z.eqb_refl. cbn [negb].
      rewrite Nx, Ny.
      destruct (JS.gt (localeCompare (nameText k) (nameText k)) (JS.Num 0)) eqn:E;
        [|reflexivity].
      now rewrite (Htot _ _ E) in E.
Qed.

(** X24.  When every door the vendor sends has a name (or it sends
    none), [/api/doors] answers 200 whatever the collation does, with
    exactly the vendor's doors in their listed shape, each once, and
    with no blank site name or time zone: "Unknown Site" and "UTC" stand
    in for missing values.  A failed token call, a rejected fetch, a
    reply that is not ok and a body that does not parse are answered
    500 "Failed to fetch doors". *)
Theorem doors_response_complete
    (tok : option string) (r : DoorsApi.Reply)
    (data : option (list DoorsApi.VendorDoor))
    (Hok : DoorsApi.ok r = true)
    (Hjson : DoorsApi.json r = Returned data)
    (Hnamed : Forall (fun d => DoorsApi.v_name d <> None)
                     (match data with Some v => v | None => [] end)) :
  (exists ds,
      DoorsApi.listDoors localeCompare (Returned tok) (Returned r)
        = DoorsApi.Doors 200 ds /\
      Permutation
        (map DoorsApi.shape (match data with Some v => v | None => [] end)) ds /\
      Forall (fun d => DoorsApi.site_name d <> "" /\ DoorsApi.timezone d <> "")
             ds) /\
  (forall reply m,
      DoorsApi.listDoors localeCompare (Thrown m) reply
        = DoorsApi.Failure 500 "Failed to fetch doors") /\
  (forall token m,
      DoorsApi.listDoors localeCompare token (Thrown m)
        = DoorsApi.Failure 500 "Failed to fetch doors") /\
  (forall token r',
      DoorsApi.ok r' = false \/ (exists m, DoorsApi.json r' = Thrown m) ->
      DoorsApi.listDoors localeCompare token (Returned r')
        = DoorsApi.Failure 500 "Failed to fetch doors").
Proof.
  split; [|split; [|split]].
  - set (doors := map DoorsApi.shape (match data with Some v => v | None => [] end)).
    assert (Hsafe : Forall named doors).
    { unfold doors. apply Forall_forall. intros d Hd.
      apply in_map_iff in Hd as (v & <- & Hv).
      rewrite Forall_forall in Hnamed. now apply Hnamed. }
    assert (Hsort : JSMore.sortM (DoorsApi.compareDoors localeCompare) doors
                    = Returned (JS.sort (namedCompare localeCompare) doors)).
    { apply (sortM_sort _ _ named); [|exact Hsafe].
      intros x y Hx. now apply compareDoors_named. }
    exists (JS.sort (namedCompare localeCompare) doors). split; [|split].
    + unfold DoorsApi.listDoors. rewrite Hok, Hjson. cbn [negb].
      fold doors. now rewrite Hsort.
    + apply sort_perm.
    + eapply Permutation_Forall; [apply sort_perm|].
      apply Forall_forall. intros d Hd. apply in_map_iff in Hd as (v & <- & _).
      cbn. split; apply or_lit_nonempty; discriminate.
  - reflexivity.
  - intros [t|m'] m; reflexivity.
  - intros [t|m'] r' H; [|reflexivity]. unfold DoorsApi.listDoors.
    destruct H as [H|(m & H)].
    + now rewrite H.
    + rewrite H. now destruct (negb (DoorsApi.ok r')).
Qed.

End DoorFacts.

(* ------------------------------------------------------------------ *)
(** ** The dashboard *)
(* ------------------------------------------------------------------ *)

Lemma sorted_tail_not_break (localeCompare : string -> string -> JS.number)
    (d : DoorsApi.Listed) (t : list DoorsApi.Listed) :
  StronglySorted (listedBefore localeCompare) (d :: t) ->
  App.isBreak d = false ->
  Forall (fun b => App.isBreak b = false) t.
Proof.
  intros Hs Hd. inversion Hs as [|? ? _ Hfa]; subst.
  eapply Forall_impl; [|exact Hfa]. intros b Hb.
  unfold listedBefore in Hb.
  destruct (breakRank_cases d) as [[Rd Bd]|[Rd Bd]],
           (breakRank_cases b) as [[Rb Bb]|[Rb Bb]];
    try exact Bb;
    try (unfold isBreakDoor, App.isBreak, DoorsApi.containsBreak in *; congruence).
  rewrite Rd, Rb in Hb. destruct Hb as [Hb|[Hb _]]; lia.
Qed.

Lemma find_none_all_false {A : Type} (p : A -> bool) (l : list A) :
  Forall (fun x => p x = false) l -> find p l = None /\ filter p l = [].
Proof.
  induction 1 as [|x l Hx _ [IH1 IH2]]; [split; reflexivity|].
  cbn. now rewrite Hx.
Qed.

Lemma filter_all_true {A : Type} (p : A -> bool) (l : list A) :
  Forall (fun x => p x = true) l -> filter p l = l.
Proof.
  induction 1 as [|x l Hx _ IH]; [reflexivity|]. cbn. now rewrite Hx, IH.
Qed.

(** X25.  On a door list in the order of the backend (doors with
    "break" in their name first), the dashboard preselects the first
    door of the list, whether or not any door has "break" in its name,
    and the "Suggested (Break)" group is the initial part of the list:
    the list is the suggested doors followed by the others. *)
Theorem dashboard_preselects_first_door
    (localeCompare : string -> string -> JS.number)
    (selectedDoorId : option string) (ds : list DoorsApi.Listed)
    (Hsorted : StronglySorted (listedBefore localeCompare) ds) :
  App.selectedAfterLoad selectedDoorId ds
    = match ds with
      | d :: _ => DoorsApi.door_id d
      | [] => selectedDoorId
      end /\
  ds = App.suggestedDoors ds ++ filter (fun d => negb (App.isBreak d)) ds.
Proof.
  split.
  - unfold App.selectedAfterLoad. destruct ds as [|d t]; [reflexivity|].
    cbn [find]. destruct (App.isBreak d) eqn:Ed; [reflexivity|].
    destruct (find_none_all_false App.isBreak t
                (sorted_tail_not_break _ d t Hsorted Ed)) as [-> _].
    reflexivity.
  - unfold App.suggestedDoors.
    induction ds as [|d t IH]; [reflexivity|].
    cbn [filter]. destruct (App.isBreak d) eqn:Ed; cbn [negb app].
    + f_equal. apply IH. now inversion Hsorted.
    + pose proof (sorted_tail_not_break _ d t Hsorted Ed) as Ht.
      destruct (find_none_all_false App.isBreak t Ht) as [_ ->].
      cbn [app]. f_equal. symmetry. apply filter_all_true.
      eapply Forall_impl; [|exact Ht]. intros b Hb. now rewrite Hb.
Qed.

Section RequestFacts.
Variable parseISO : string -> option Z.
Variable formatIn : string -> string -> Z -> string.
Variable StringToNumber : string -> JS.number.

(** X26.  A request built by [handleGenerate] is never answered
    "Missing door_id", and the threshold the backend applies to it is
    the number in the threshold field when that is a non-zero integer,
    and 45 when the field holds 0, NaN or an infinity. *)
Theorem dashboard_request_threshold
    (selectedDoorId : option string) (date : string) (n : JS.number)
    (q : Query)
    (Hreads : readsBack StringToNumber)
    (Hq : App.requestParams selectedDoorId date n = Some q) :
  JS.truthy (q_door_id q) = true /\
  (forall w, breakReport parseISO formatIn StringToNumber q w
             <> mkResponse 400 (Error "Missing door_id")) /\
  minMinutesOf StringToNumber q =
    match n with
    | JS.Num z => if z =? 0 then JS.Num 45 else JS.Num z
    | _ => JS.Num 45
    end.
Proof.
  destruct Hreads as (Hint & Hpos & Hneg).
  unfold App.requestParams in Hq.
  destruct (JS.truthy selectedDoorId) eqn:Et; cbn [negb] in Hq; [|discriminate].
  injection Hq as <-. cbn [q_door_id q_min_minutes].
  split; [exact Et|]. split.
  - intros w. unfold breakReport. cbn [q_door_id]. rewrite Et. cbn [negb].
    destruct (getBearerToken w); [|discriminate].
    destruct (fetchDoors w) as [allDoors|]; [|discriminate].
    destruct (find _ allDoors) as [d|]; [|discriminate].
    destruct (dayBounds w _ _) as [[sU eU]|]; [|discriminate].
    destruct (fetchAllAccessEvents w sU eU); discriminate.
  - unfold minMinutesOf, Number. cbn [q_min_minutes].
    destruct n as [z| |[]]; cbn [App.orDefault45 JS.to_string].
    + destruct (Z.eqb_spec z 0) as [->|Hz].
      * cbn. change "45" with (JS.Z_to_string 45). now rewrite Hint.
      * assert (E : App.orDefault45 (JS.Num z) = JS.Num z)
          by (destruct z; [contradiction | reflexivity | reflexivity]).
        cbn [App.orDefault45] in E. 
        replace (match z with 0 => JS.Num 45 | _ => JS.Num z end)
          with (JS.Num z) by (now destruct z).
        cbn [JS.to_string]. now rewrite Hint.
    + change "45" with (JS.Z_to_string 45). now rewrite Hint.
    + now rewrite Hpos.
    + now rewrite Hneg.
Qed.

End RequestFacts.

(* File names of the export *)

Lemma safe_not_space (c : ascii) :
  fileSafeChar c = true -> App.isSpaceChar c = false.
Proof. destruct c as [[] [] [] [] [] [] [] []]; vm_compute; congruence. Qed.

Lemma safe_kept (c : ascii) :
  fileSafeChar c = true ->
  App.isWordChar c || App.isSpaceChar c || Ascii.eqb c "-" = true.
Proof. destruct c as [[] [] [] [] [] [] [] []]; vm_compute; congruence. Qed.

Lemma kept_not_space_safe (c : ascii) :
  App.isWordChar c || App.isSpaceChar c || Ascii.eqb c "-" = true ->
  App.isSpaceChar c = false -> fileSafeChar c = true.
Proof. destruct c as [[] [] [] [] [] [] [] []]; vm_compute; congruence. Qed.

Lemma stripUnsafe_kept (s : string) :
  allChars (fun c => App.isWordChar c || App.isSpaceChar c || Ascii.eqb c "-")
           (App.stripUnsafe s) = true.
Proof.
  induction s as [|c s IH]; [reflexivity|]. cbn [App.stripUnsafe].
  destruct (App.isWordChar c || App.isSpaceChar c || Ascii.eqb c "-") eqn:E;
    [|exact IH].
  cbn [allChars]. now rewrite E, IH.
Qed.

Lemma dashSpaces_safe (s : string) (inRun : bool) :
  allChars (fun c => App.isWordChar c || App.isSpaceChar c || Ascii.eqb c "-") s
    = true ->
  allChars fileSafeChar (App.dashSpaces inRun s) = true.
Proof.
  revert inRun. induction s as [|c s IH]; intros inRun H; [reflexivity|].
  cbn [allChars] in H. apply andb_true_iff in H as [Hc Hs].
  pose proof (kept_not_space_safe c Hc) as K.
  cbn [App.dashSpaces]. destruct (App.isSpaceChar c) eqn:Es.
  - destruct inRun; cbn [allChars]; rewrite ?IH; auto.
  - cbn [allChars]. rewrite IH by exact Hs.
    now rewrite (K eq_refl).
Qed.

Lemma safe_name_unchanged (s : string) (inRun : bool) :
  allChars fileSafeChar s = true ->
  App.dashSpaces inRun (App.stripUnsafe s) = s.
Proof.
  revert inRun. induction s as [|c s IH]; intros inRun H; [reflexivity|].
  cbn [allChars] in H. apply andb_true_iff in H as [Hc Hs].
  cbn [App.stripUnsafe]. rewrite (safe_kept c Hc).
  cbn [App.dashSpaces]. rewrite (safe_not_space c Hc). now rewrite IH.
Qed.

(** X27.  The door part of the PDF file name holds nothing but letters,
    digits, underscores and hyphens: no white space, no dot and no path
    separator, whatever the door is called; a name that is already made
    of such characters is used as it is. *)
Theorem pdf_filename_door_is_safe (name : option string) :
  allChars fileSafeChar (App.filenameDoor name) = true /\
  (forall n, name = Some n -> n <> "" -> allChars fileSafeChar n = true ->
             App.filenameDoor name = n).
Proof.
  split.
  - unfold App.filenameDoor. apply dashSpaces_safe, stripUnsafe_kept.
  - intros n -> Hn Hs. unfold App.filenameDoor.
    replace (JS.or_lit (Some n) "door") with n.
    + now apply safe_name_unchanged.
    + cbn. destruct (String.eqb n "") eqn:E; [|reflexivity].
      now apply String.eqb_eq in E.
Qed.

Lemma in_range_nat (lo len : nat) (z : Z) (P : nat -> bool) :
  forallb P (seq lo len) = true ->
  Z.of_nat lo <= z < Z.of_nat (lo + len) ->
  P (Z.to_nat z) = true.
Proof.
  intros H Hz. rewrite forallb_forall in H. apply H, in_seq. lia.
Qed.

Lemma four_digit_year (y : Z) :
  1000 <= y <= 9999 -> String.length (JS.Z_to_string y) = 4%nat.
Proof.
  intro H.
  assert (C : forallb (fun a => forallb (fun b => Nat.eqb (String.length
                         (JS.Z_to_string (100 * Z.of_nat a + Z.of_nat b))) 4)
                         (seq 0 100))
                      (seq 10 90) = true) by (vm_compute; reflexivity).
  pose proof (in_range_nat 10 90 (y / 100) _ C) as E.
  cbv beta in E.
  assert (Ha : 10 <= y / 100 < 100).
  { split; [apply Z.div_le_lower_bound | apply Z.div_lt_upper_bound]; lia. }
  specialize (E ltac:(lia)).
  pose proof (Z.mod_pos_bound y 100 ltac:(lia)) as Hb.
  pose proof (in_range_nat 0 100 (y mod 100) _ E ltac:(lia)) as E'.
  cbv beta in E'. rewrite !Z2Nat.id in E' by lia.
  rewrite <- Z.div_mod in E' by lia. now apply Nat.eqb_eq in E'.
Qed.

Lemma two_digit_field (d : Z) :
  0 <= d <= 99 ->
  String.length (JSMore.padStart (JS.Z_to_string d) 2 "0") = 2%nat /\
  readDecimal (JSMore.padStart (JS.Z_to_string d) 2 "0") = Some d.
Proof.
  intro H.
  assert (C : forallb (fun n =>
                 Nat.eqb (String.length
                   (JSMore.padStart (JS.Z_to_string (Z.of_nat n)) 2 "0")) 2
                 && match readDecimal
                          (JSMore.padStart (JS.Z_to_string (Z.of_nat n)) 2 "0")
                    with
                    | Some r => r =? Z.of_nat n
                    | None => false
                    end)
              (seq 0 100) = true) by (vm_compute; reflexivity).
  pose proof (in_range_nat 0 100 d _ C ltac:(lia)) as E.
  cbv beta in E. rewrite Z2Nat.id in E by lia.
  apply andb_true_iff in E as [E1 E2]. apply Nat.eqb_eq in E1.
  split; [exact E1|].
  destruct (readDecimal _) as [r|]; [|discriminate].
  apply Z.eqb_eq in E2. now subst.
Qed.

Lemma length_append (s1 s2 : string) :
  String.length (s1 ++ s2)%string
    = (String.length s1 + String.length s2)%nat.
Proof.
  induction s1 as [|c s1 IH]; cbn; [reflexivity | now rewrite IH].
Qed.

(** X28.  For a year of four digits the initial date of the dashboard
    has the form YYYY-MM-DD that the backend asks for: ten characters,
    the year as it is, then the month counted from 1 and the day, each
    written with two digits. *)
Theorem initial_date_is_iso
    (fullYear month date : Z)
    (Hy : 1000 <= fullYear <= 9999)
    (Hm : 0 <= month <= 11)
    (Hd : 1 <= date <= 31) :
  String.length (App.initialDate fullYear month date) = 10%nat /\
  exists mm dd,
    App.initialDate fullYear month date
      = (JS.Z_to_string fullYear ++ "-" ++ mm ++ "-" ++ dd)%string /\
    String.length (JS.Z_to_string fullYear) = 4%nat /\
    String.length mm = 2%nat /\ String.length dd = 2%nat /\
    readDecimal mm = Some (month + 1) /\ readDecimal dd = Some date.
Proof.
  pose proof (four_digit_year fullYear Hy) as Ey.
  destruct (two_digit_field (month + 1) ltac:(lia)) as [Em Rm].
  destruct (two_digit_field date ltac:(lia)) as [Ed Rd].
  split.
  - unfold App.initialDate.
    rewrite !length_append, Ey, Em, Ed. reflexivity.
  - eexists _, _. split; [reflexivity|]. auto.
Qed.

(* ------------------------------------------------------------------ *)
(** ** Further concrete runs

    The facts above, applied to the events of [Demo] and to the
    collaborators of [Sample]. *)
(* ------------------------------------------------------------------ *)

Lemma byLength_consistent : consistentCollation Sample.byLength.
Proof.
  split.
  - intros x y. unfold Sample.byLength. rewrite !gt_Num.
    intro H. apply Z.ltb_lt in H. apply Z.ltb_ge. lia.
  - intros x y z. unfold Sample.byLength. rewrite !gt_Num.
    intros H1 H2. apply Z.ltb_ge in H1, H2. apply Z.ltb_ge. lia.
Qed.

Lemma to_uint_not_nil (p : positive) : Pos.to_uint p <> Decimal.Nil.
Proof.
  apply DecimalPos.Unsigned.to_uint_nonnil.
Qed.

Lemma to_int_proper (z : Z) :
  Z.to_int z <> Decimal.Pos Decimal.Nil /\
  Z.to_int z <> Decimal.Neg Decimal.Nil.
Proof.
  destruct z as [|p|p]; cbn; split; intro H; try discriminate H;
    injection H as H; exact (to_uint_not_nil p H).
Qed.

Lemma Z_to_string_reads (z : Z) :
  NilZero.int_of_string (JS.Z_to_string z) = Some (Z.to_int z).
Proof.
  unfold JS.Z_to_string.
  destruct (to_int_proper z) as [H1 H2]. now apply NilZero.isi.
Qed.

Lemma Sample_reads_back : readsBack Sample.StringToNumber.
Proof.
  split; [|split; reflexivity].
  intro z. unfold Sample.StringToNumber.
  pose proof (Z_to_string_reads z) as R.
  destruct (String.eqb (JS.Z_to_string z) "Infinity") eqn:E1.
  { apply String.eqb_eq in E1. rewrite E1 in R. discriminate R. }
  destruct (String.eqb (JS.Z_to_string z) "-Infinity") eqn:E2.
  { apply String.eqb_eq in E2. rewrite E2 in R. discriminate R. }
  rewrite R. now rewrite DecimalZ.of_to.
Qed.

Lemma apb_user_always_reported_witness :
  In (normalize Demo.parseISO "UTC" Demo.theDoor Demo.apbEntry)
     (filtered Demo.parseISO "door-1" "UTC" Demo.theDoor [Demo.apbEntry]) /\
  isAPB (normalize Demo.parseISO "UTC" Demo.theDoor Demo.apbEntry) = true /\
  exists r,
    In r (results Demo.parseISO Demo.formatIn (JS.Num 45) "door-1" "UTC"
                  Demo.theDoor [Demo.apbEntry]) /\
    Report.userId r = "u1" /\
    In (mkViolation Demo.formatIn
          (normalize Demo.parseISO "UTC" Demo.theDoor Demo.apbEntry))
       (Report.violations r).
Proof.
  assert (H1 : In (normalize Demo.parseISO "UTC" Demo.theDoor Demo.apbEntry)
                  (filtered Demo.parseISO "door-1" "UTC" Demo.theDoor
                            [Demo.apbEntry])) by (left; reflexivity).
  assert (H2 : isAPB (normalize Demo.parseISO "UTC" Demo.theDoor Demo.apbEntry)
               = true) by reflexivity.
  repeat (split; [assumption|]).
  exact (apb_user_always_reported Demo.parseISO Demo.formatIn (JS.Num 45)
           "door-1" "UTC" Demo.theDoor [Demo.apbEntry] _ H1 H2).
Defined.

Lemma fallback_violation_label_witness :
  Ev.event_type (normalize Demo.parseISO "UTC" Demo.theDoor Demo.apbEntry)
    = ("DOOR_APB_" ++ "DOUBLE_ENTRY")%string /\
  JS.truthy (Ev.violationMessage
               (normalize Demo.parseISO "UTC" Demo.theDoor Demo.apbEntry))
    = false /\
  Violation.message
    (mkViolation Demo.formatIn
       (normalize Demo.parseISO "UTC" Demo.theDoor Demo.apbEntry))
    = JS.underscores_to_spaces "DOUBLE_ENTRY".
Proof.
  assert (H1 : Ev.event_type
                 (normalize Demo.parseISO "UTC" Demo.theDoor Demo.apbEntry)
               = ("DOOR_APB_" ++ "DOUBLE_ENTRY")%string) by reflexivity.
  assert (H2 : JS.truthy (Ev.violationMessage
                 (normalize Demo.parseISO "UTC" Demo.theDoor Demo.apbEntry))
               = false) by reflexivity.
  repeat (split; [assumption|]).
  exact (proj1 (fallback_violation_label Demo.formatIn _ "DOUBLE_ENTRY" H1 H2)).
Defined.

Lemma pairs_are_in_out_adjacencies_witness :
  nextDirectional [Demo.in0900; Demo.in0950; Demo.out1000]
                  Demo.in0950 Demo.out1000 /\
  isIn Demo.in0950 = true /\ isOut Demo.out1000 = true /\
  In (mkPair Demo.formatIn "u1" Demo.in0950 Demo.out1000)
     (pairs (pairLoop Demo.formatIn "u1"
               [Demo.in0900; Demo.in0950; Demo.out1000])).
Proof.
  assert (H1 : nextDirectional [Demo.in0900; Demo.in0950; Demo.out1000]
                               Demo.in0950 Demo.out1000).
  { exists [Demo.in0900], [], []. split; [reflexivity | constructor]. }
  assert (H2 : isIn Demo.in0950 = true) by reflexivity.
  assert (H3 : isOut Demo.out1000 = true) by reflexivity.
  repeat (split; [assumption|]).
  exact (proj2 (pairs_are_in_out_adjacencies Demo.formatIn "u1"
                  [Demo.in0900; Demo.in0950; Demo.out1000])
               Demo.in0950 Demo.out1000 H1 H2 H3).
Defined.

Lemma unmatched_entries_dropped_witness :
  Forall (fun ev => isOut ev = false) [Demo.in0950] /\
  pairs (pairLoop Demo.formatIn "u1"
           ([Demo.in0900; Demo.out0900] ++ [Demo.in0950]))
    = pairs (pairLoop Demo.formatIn "u1" [Demo.in0900; Demo.out0900]).
Proof.
  assert (H : Forall (fun ev => isOut ev = false) [Demo.in0950])
    by (repeat constructor).
  split; [exact H|].
  exact (proj1 (unmatched_entries_dropped Demo.formatIn "u1"
                  [Demo.in0900; Demo.out0900] [Demo.in0950] H)).
Defined.

Lemma pairing_ignores_event_type_witness :
  Forall2 sameForPairing
    [Demo.in0900; Demo.out1000]
    [Demo.ev "DOOR_APB_DOUBLE_ENTRY" "u1" "in" (Valid 1714554000000 "UTC");
     Demo.out1000] /\
  pairs (pairLoop Demo.formatIn "u1" [Demo.in0900; Demo.out1000])
    = pairs (pairLoop Demo.formatIn "u1"
        [Demo.ev "DOOR_APB_DOUBLE_ENTRY" "u1" "in" (Valid 1714554000000 "UTC");
         Demo.out1000]).
Proof.
  assert (H : Forall2 sameForPairing
    [Demo.in0900; Demo.out1000]
    [Demo.ev "DOOR_APB_DOUBLE_ENTRY" "u1" "in" (Valid 1714554000000 "UTC");
     Demo.out1000]).
  { repeat constructor. }
  split; [exact H|].
  exact (proj1 (pairing_ignores_event_type Demo.formatIn "u1" _ _ H)).
Defined.

Lemma total_within_span_witness :
  chronological (Demo.in0900 :: [Demo.in0950; Demo.out1000]) /\
  Ev.ts Demo.in0900 = Valid 1714554000000 "UTC" /\
  Ev.ts (last [Demo.in0950; Demo.out1000] Demo.in0900)
    = Valid 1714557600000 "UTC" /\
  exists T,
    sumTotalMs (pairs (pairLoop Demo.formatIn "u1"
                         (Demo.in0900 :: [Demo.in0950; Demo.out1000])))
      = JS.Num T /\
    0 <= T <= 1714557600000 - 1714554000000.
Proof.
  assert (H1 : chronological (Demo.in0900 :: [Demo.in0950; Demo.out1000])).
  { repeat constructor; cbn; lia. }
  assert (H2 : Ev.ts Demo.in0900 = Valid 1714554000000 "UTC") by reflexivity.
  assert (H3 : Ev.ts (last [Demo.in0950; Demo.out1000] Demo.in0900)
               = Valid 1714557600000 "UTC") by reflexivity.
  repeat (split; [assumption|]).
  exact (total_within_span Demo.formatIn "u1" Demo.in0900
           [Demo.in0950; Demo.out1000] _ _ _ _ H1 H2 H3).
Defined.

Lemma nonpositive_threshold_reports_everyone_witness :
  0 <= 0 /\
  Forall (parses Demo.parseISO) Demo.twoBreaks /\
  In (normalize Demo.parseISO "UTC" Demo.theDoor
        (Demo.raw "door-1" "DOOR_OPENED" "U1" "in" Demo.t0900))
     (filtered Demo.parseISO "door-1" "UTC" Demo.theDoor Demo.twoBreaks) /\
  exists r,
    In r (results Demo.parseISO Demo.formatIn (JS.Num 0) "door-1" "UTC"
                  Demo.theDoor Demo.twoBreaks) /\
    Report.userId r = "U1".
Proof.
  assert (H1 : 0 <= 0) by lia.
  assert (H2 : Forall (parses Demo.parseISO) Demo.twoBreaks).
  { repeat constructor; eexists _, _; split; reflexivity. }
  assert (H3 : In (normalize Demo.parseISO "UTC" Demo.theDoor
                     (Demo.raw "door-1" "DOOR_OPENED" "U1" "in" Demo.t0900))
                  (filtered Demo.parseISO "door-1" "UTC" Demo.theDoor
                            Demo.twoBreaks)) by (left; reflexivity).
  repeat (split; [assumption|]).
  exact (nonpositive_threshold_reports_everyone Demo.parseISO Demo.formatIn 0
           "door-1" "UTC" Demo.theDoor Demo.twoBreaks _ H1 H2 H3).
Defined.

Lemma report_depends_on_relevant_events_witness :
  filter (relevant "door-1") [Demo.apbElsewhere] = [] /\
  results Demo.parseISO Demo.formatIn (JS.Num 0) "door-1" "UTC" Demo.theDoor
          [Demo.apbElsewhere] = [].
Proof.
  assert (H : filter (relevant "door-1") [Demo.apbElsewhere] = [])
    by reflexivity.
  split; [exact H|].
  exact (proj2 (report_depends_on_relevant_events Demo.parseISO Demo.formatIn
                  (JS.Num 0) "door-1" "UTC" Demo.theDoor [Demo.apbElsewhere])
               H).
Defined.

Lemma report_independent_of_fetch_order_witness :
  Permutation [Demo.apbEntry; Demo.plainExit] [Demo.plainExit; Demo.apbEntry] /\
  Forall (parses Demo.parseISO) [Demo.apbEntry; Demo.plainExit] /\
  NoDup (map (stampOf Demo.parseISO) [Demo.apbEntry; Demo.plainExit]) /\
  results Demo.parseISO Demo.formatIn (JS.Num 45) "door-1" "UTC" Demo.theDoor
          [Demo.plainExit; Demo.apbEntry]
    = results Demo.parseISO Demo.formatIn (JS.Num 45) "door-1" "UTC"
              Demo.theDoor [Demo.apbEntry; Demo.plainExit].
Proof.
  assert (H1 : Permutation [Demo.apbEntry; Demo.plainExit]
                           [Demo.plainExit; Demo.apbEntry])
    by apply perm_swap.
  assert (H2 : Forall (parses Demo.parseISO) [Demo.apbEntry; Demo.plainExit]).
  { repeat constructor; eexists _, _; split; reflexivity. }
  assert (H3 : NoDup (map (stampOf Demo.parseISO)
                          [Demo.apbEntry; Demo.plainExit])).
  { repeat constructor; cbn; intuition discriminate. }
  repeat (split; [assumption|]).
  exact (proj2 (report_independent_of_fetch_order Demo.parseISO Demo.formatIn
                  (JS.Num 45) "door-1" "UTC" Demo.theDoor _ _ H1 H2 H3)).
Defined.

Lemma breakReport_responses_witness :
  JS.truthy (q_door_id (mkQuery (Some "") (Some "2024-05-01") None)) = false /\
  breakReport Demo.parseISO Demo.formatIn Demo.StringToNumber
              (mkQuery (Some "") (Some "2024-05-01") None)
              (Demo.world Demo.twoBreaks)
    = mkResponse 400 (Error "Missing door_id") /\
  exists p,
    body (breakReport Demo.parseISO Demo.formatIn Demo.StringToNumber
                      (Demo.query None) (Demo.world Demo.twoBreaks)) = Ok p /\
    ds_name (door p) = Some "Break Room" /\
    ds_timezone (door p) = "UTC" /\
    range_tz (generatedRange p) = "UTC".
Proof.
  assert (H : JS.truthy (q_door_id (mkQuery (Some "") (Some "2024-05-01") None))
              = false) by reflexivity.
  split; [exact H|]. split.
  - exact (proj1 (breakReport_responses Demo.parseISO Demo.formatIn
                    Demo.StringToNumber
                    (mkQuery (Some "") (Some "2024-05-01") None)
                    (Demo.world [])) H (Demo.world Demo.twoBreaks)).
  - eexists. split; [reflexivity|].
    destruct (proj2 (proj2 (breakReport_responses Demo.parseISO Demo.formatIn
                              Demo.StringToNumber (Demo.query None)
                              (Demo.world Demo.twoBreaks))) _ eq_refl)
      as (allDoors & d & Hd & Hf & _ & _ & Hname & _ & Hzone & Hrange & _).
    injection Hd as <-. injection Hf as <-.
    rewrite Hrange, Hzone, Hname. repeat split.
Defined.

Lemma token_reused_for_five_minutes_witness :
  JS.truthy (Token.token Token.initial)
  && (1000000 / 1000 <? Token.expiresAt Token.initial) = false /\
  Token.ok (Sample.tokenReply "abc") = true /\
  Token.json (Sample.tokenReply "abc") = Returned (Some "abc") /\
  "abc" <> "" /\
  1299999 / 1000 < 1000000 / 1000 + 300 /\
  Token.getBearerToken 1299999 (Thrown "offline")
    (snd (Token.getBearerToken 1000000 (Returned (Sample.tokenReply "abc"))
            Token.initial))
  = (Returned (Some "abc"),
     snd (Token.getBearerToken 1000000 (Returned (Sample.tokenReply "abc"))
            Token.initial)).
Proof.
  assert (H1 : JS.truthy (Token.token Token.initial)
               && (1000000 / 1000 <? Token.expiresAt Token.initial) = false)
    by reflexivity.
  assert (H2 : Token.ok (Sample.tokenReply "abc") = true) by reflexivity.
  assert (H3 : Token.json (Sample.tokenReply "abc") = Returned (Some "abc"))
    by reflexivity.
  assert (H4 : "abc" <> "") by discriminate.
  assert (H5 : 1299999 / 1000 < 1000000 / 1000 + 300) by (vm_compute; reflexivity).
  repeat (split; [assumption|]).
  exact (proj2 (proj2 (token_reused_for_five_minutes 1000000
                         (Sample.tokenReply "abc") "abc" Token.initial
                         H1 H2 H3 H4))
               1299999 (Thrown "offline") H5).
Defined.

Lemma stale_token_never_served_witness :
  (JS.truthy (Token.token (Token.mkCache (Some "abc") 1300)) = false
   \/ Token.expiresAt (Token.mkCache (Some "abc") 1300) <= 1300000 / 1000) /\
  fst (Token.getBearerToken 1300000 (Returned (Sample.tokenReply "xyz"))
         (Token.mkCache (Some "abc") 1300)) = Returned (Some "xyz") /\
  exists res,
    Returned (Sample.tokenReply "xyz") = Returned res /\ Token.ok res = true /\
    Token.json res = Returned (Some "xyz") /\
    snd (Token.getBearerToken 1300000 (Returned (Sample.tokenReply "xyz"))
           (Token.mkCache (Some "abc") 1300))
      = Token.mkCache (Some "xyz") (1300000 / 1000 + 300).
Proof.
  assert (H1 : JS.truthy (Token.token (Token.mkCache (Some "abc") 1300)) = false
               \/ Token.expiresAt (Token.mkCache (Some "abc") 1300)
                  <= 1300000 / 1000)
    by (right; vm_compute; discriminate).
  assert (H2 : fst (Token.getBearerToken 1300000
                      (Returned (Sample.tokenReply "xyz"))
                      (Token.mkCache (Some "abc") 1300))
               = Returned (Some "xyz")) by reflexivity.
  repeat (split; [assumption|]).
  exact (proj1 (stale_token_never_served 1300000
                  (Returned (Sample.tokenReply "xyz"))
                  (Token.mkCache (Some "abc") 1300) H1)
               (Some "xyz") H2).
Defined.

Lemma pagination_collects_all_pages_witness :
  pagesLead Sample.twoPages 0 86399 None [Some Sample.pageOne] (Some "p2") /\
  pageAnswered Sample.twoPages 0 86399 (Some "p2") (Some Sample.pageTwo) /\
  Pagination.pageNext (Some Sample.pageTwo) = None /\
  (length [Some Sample.pageOne] < 2)%nat /\
  Pagination.fetchAllAccessEvents 2 Sample.twoPages 0 86399
    = Some (Returned
              (concat (map Pagination.pageEvents [Some Sample.pageOne])
               ++ Pagination.pageEvents (Some Sample.pageTwo))).
Proof.
  assert (H1 : pagesLead Sample.twoPages 0 86399 None [Some Sample.pageOne]
                         (Some "p2")).
  { split.
    - exists (Sample.pageReply Sample.pageOne). repeat split.
    - exists "p2". split; reflexivity. }
  assert (H2 : pageAnswered Sample.twoPages 0 86399 (Some "p2")
                            (Some Sample.pageTwo)).
  { exists (Sample.pageReply Sample.pageTwo). repeat split. }
  assert (H3 : Pagination.pageNext (Some Sample.pageTwo) = None)
    by reflexivity.
  assert (H4 : (length [Some Sample.pageOne] < 2)%nat) by (cbn; lia).
  repeat (split; [assumption|]).
  exact (pagination_collects_all_pages Sample.twoPages 0 86399
           [Some Sample.pageOne] (Some "p2") (Some Sample.pageTwo) 2
           H1 H2 H3 H4).
Defined.

Lemma pagination_failure_aborts_witness :
  pagesLead Sample.secondRefused 0 86399 None [Some Sample.pageOne]
            (Some "p2") /\
  pageFails Sample.secondRefused 0 86399 (Some "p2")
    "Failed to fetch access events: 429 Too Many Requests :: slow down" /\
  (length [Some Sample.pageOne] < 2)%nat /\
  Pagination.fetchAllAccessEvents 2 Sample.secondRefused 0 86399
    = Some (Thrown
        "Failed to fetch access events: 429 Too Many Requests :: slow down").
Proof.
  assert (H1 : pagesLead Sample.secondRefused 0 86399 None
                         [Some Sample.pageOne] (Some "p2")).
  { split.
    - exists (Sample.pageReply Sample.pageOne). repeat split.
    - exists "p2". split; reflexivity. }
  assert (H2 : pageFails Sample.secondRefused 0 86399 (Some "p2")
    "Failed to fetch access events: 429 Too Many Requests :: slow down")
    by reflexivity.
  assert (H3 : (length [Some Sample.pageOne] < 2)%nat) by (cbn; lia).
  repeat (split; [assumption|]).
  exact (pagination_failure_aborts Sample.secondRefused 0 86399
           [Some Sample.pageOne] (Some "p2") _ 2 H1 H2 H3).
Defined.

Lemma pagination_never_ends_on_endless_pages_witness :
  (forall tok, exists j,
      pageAnswered Sample.endless 0 86399 tok j /\
      Pagination.pageNext j <> None) /\
  Pagination.fetchAllAccessEvents 1000 Sample.endless 0 86399 = None.
Proof.
  assert (H : forall tok, exists j,
             pageAnswered Sample.endless 0 86399 tok j /\
             Pagination.pageNext j <> None).
  { intro tok. exists (Some Sample.pageOne). split.
    - exists (Sample.pageReply Sample.pageOne). repeat split.
    - discriminate. }
  split; [exact H|].
  exact (pagination_never_ends_on_endless_pages Sample.endless 0 86399 H 1000).
Defined.

Lemma served_token_is_fresh_witness :
  JS.truthy (Token.token
               (tokenCalls [(1000000, Returned (Sample.tokenReply "abc"))]
                           Token.initial))
  && (1200000 / 1000
      <? Token.expiresAt
           (tokenCalls [(1000000, Returned (Sample.tokenReply "abc"))]
                       Token.initial)) = true /\
  exists t res,
    In (t, Returned res) [(1000000, Returned (Sample.tokenReply "abc"))] /\
    Token.ok res = true /\
    Token.json res
      = Returned (Token.token
                    (tokenCalls [(1000000, Returned (Sample.tokenReply "abc"))]
                                Token.initial)) /\
    1200000 / 1000 < t / 1000 + 300.
Proof.
  assert (H : JS.truthy (Token.token
               (tokenCalls [(1000000, Returned (Sample.tokenReply "abc"))]
                           Token.initial))
              && (1200000 / 1000
                  <? Token.expiresAt
                       (tokenCalls
                          [(1000000, Returned (Sample.tokenReply "abc"))]
                          Token.initial)) = true) by reflexivity.
  split; [exact H|].
  exact (proj2 (served_token_is_fresh
                  [(1000000, Returned (Sample.tokenReply "abc"))]
                  1200000 (Thrown "offline") H)).
Defined.

Lemma doors_listed_break_first_witness :
  DoorsApi.ok Sample.doorsReply = true /\
  DoorsApi.json Sample.doorsReply = Returned (Some Sample.vendorDoors) /\
  Forall (fun d => DoorsApi.v_name d <> None) Sample.vendorDoors /\
  consistentCollation Sample.byLength /\
  exists ds,
    DoorsApi.listDoors Sample.byLength (Returned (Some "token"))
                       (Returned Sample.doorsReply)
      = DoorsApi.Doors 200 ds /\
    Permutation (map DoorsApi.shape Sample.vendorDoors) ds /\
    StronglySorted (listedBefore Sample.byLength) ds.
Proof.
  assert (H1 : DoorsApi.ok Sample.doorsReply = true) by reflexivity.
  assert (H2 : DoorsApi.json Sample.doorsReply
               = Returned (Some Sample.vendorDoors)) by reflexivity.
  assert (H3 : Forall (fun d => DoorsApi.v_name d <> None) Sample.vendorDoors)
    by (repeat constructor; discriminate).
  pose proof byLength_consistent as H4.
  repeat (split; [assumption|]).
  destruct (doors_listed_break_first Sample.byLength (Some "token")
              Sample.doorsReply Sample.vendorDoors H1 H2 H3 H4)
    as (ds & E & P & S & _).
  exists ds. auto.
Defined.

Lemma doors_response_complete_witness :
  DoorsApi.ok Sample.doorsReply = true /\
  DoorsApi.json Sample.doorsReply = Returned (Some Sample.vendorDoors) /\
  Forall (fun d => DoorsApi.v_name d <> None) Sample.vendorDoors /\
  exists ds,
    DoorsApi.listDoors Sample.byLength (Returned (Some "token"))
                       (Returned Sample.doorsReply)
      = DoorsApi.Doors 200 ds /\
    Permutation (map DoorsApi.shape Sample.vendorDoors) ds /\
    Forall (fun d => DoorsApi.site_name d <> "" /\ DoorsApi.timezone d <> "")
           ds.
Proof.
  assert (H1 : DoorsApi.ok Sample.doorsReply = true) by reflexivity.
  assert (H2 : DoorsApi.json Sample.doorsReply
               = Returned (Some Sample.vendorDoors)) by reflexivity.
  assert (H3 : Forall (fun d => DoorsApi.v_name d <> None) Sample.vendorDoors)
    by (repeat constructor; discriminate).
  repeat (split; [assumption|]).
  exact (proj1 (doors_response_complete Sample.byLength (Some "token")
                  Sample.doorsReply (Some Sample.vendorDoors) H1 H2 H3)).
Defined.

Lemma dashboard_preselects_first_door_witness :
  StronglySorted (listedBefore Sample.byLength)
                 (map DoorsApi.shape (rev Sample.vendorDoors)) /\
  App.selectedAfterLoad None (map DoorsApi.shape (rev Sample.vendorDoors))
    = Some "d3".
Proof.
  assert (H : StronglySorted (listedBefore Sample.byLength)
                (map DoorsApi.shape (rev Sample.vendorDoors))).
  { repeat constructor;
      solve [ left; vm_compute; reflexivity
            | right; split; vm_compute; reflexivity ]. }
  split; [exact H|].
  exact (proj1 (dashboard_preselects_first_door Sample.byLength None _ H)).
Defined.

Lemma dashboard_request_threshold_witness :
  readsBack Sample.StringToNumber /\
  App.requestParams (Some "door-1") "2024-05-01" (JS.Num 0)
    = Some (mkQuery (Some "door-1") (Some "2024-05-01") (Some "45")) /\
  minMinutesOf Sample.StringToNumber
               (mkQuery (Some "door-1") (Some "2024-05-01") (Some "45"))
    = JS.Num 45.
Proof.
  pose proof Sample_reads_back as H1.
  assert (H2 : App.requestParams (Some "door-1") "2024-05-01" (JS.Num 0)
               = Some (mkQuery (Some "door-1") (Some "2024-05-01") (Some "45")))
    by reflexivity.
  repeat (split; [assumption|]).
  exact (proj2 (proj2 (dashboard_request_threshold Demo.parseISO Demo.formatIn
                         Sample.StringToNumber (Some "door-1") "2024-05-01"
                         (JS.Num 0) _ H1 H2))).
Defined.

Lemma pdf_filename_door_is_safe_witness :
  Some "Break_Room-2" = Some "Break_Room-2" /\
  "Break_Room-2" <> "" /\
  allChars fileSafeChar "Break_Room-2" = true /\
  App.filenameDoor (Some "Break_Room-2") = "Break_Room-2".
Proof.
  assert (H1 : Some "Break_Room-2" = Some "Break_Room-2") by reflexivity.
  assert (H2 : "Break_Room-2" <> "") by discriminate.
  assert (H3 : allChars fileSafeChar "Break_Room-2" = true) by reflexivity.
  repeat (split; [assumption|]).
  exact (proj2 (pdf_filename_door_is_safe (Some "Break_Room-2"))
               "Break_Room-2" H1 H2 H3).
Defined.

Lemma initial_date_is_iso_witness :
  1000 <= 2024 <= 9999 /\ 0 <= 4 <= 11 /\ 1 <= 1 <= 31 /\
  String.length (App.initialDate 2024 4 1) = 10%nat.
Proof.
  assert (H1 : 1000 <= 2024 <= 9999) by lia.
  assert (H2 : 0 <= 4 <= 11) by lia.
  assert (H3 : 1 <= 1 <= 31) by lia.
  repeat (split; [assumption|]).
  exact (proj1 (initial_date_is_iso 2024 4 1 H1 H2 H3)).
Defined.
